(** * The time-windowed cipher engine of the NFC de-scrambler (crypto.js)

    A shallow embedding of [class CryptoEngine] and of the host functions it
    calls ([Number.prototype.toString], [String.prototype.padStart],
    [btoa], [atob], [JSON.stringify], [JSON.parse], [Date.now]), of the
    callers [AuthenticatorApp.encryptMessage] (app.js) and
    [NFCHandler.generateTestPayload] (nfc-handler.js), followed by the
    properties of the engine. *)

From Equations Require Import Equations.
From Stdlib Require Import ZArith NArith List Bool Lia.
From Stdlib Require String Ascii.
Import ListNotations String.StringSyntax.

Delimit Scope string_scope with string.
Local Open Scope Z_scope.

Set Warnings "-register-all".

(** ** JavaScript strings

    A JavaScript string is a sequence of 16-bit code units.  A code unit is
    an [N]; [String.fromCharCode] is what keeps it below [2^16]. *)

Definition jsstring : Type := list N.

Definition code_unit (c : N) : Prop := (c < 65536)%N.
Definition code_units (s : jsstring) : Prop := Forall code_unit s.
Definition latin1 (s : jsstring) : Prop := Forall (fun c => (c < 256)%N) s.

(** A string literal of the source. *)
Definition lit (s : String.string) : jsstring :=
  List.map Ascii.N_of_ascii (String.list_ascii_of_string s).
Arguments lit s%_string.

Definition code_unitsb (s : jsstring) : bool := forallb (fun c => (c <? 65536)%N) s.
Definition latin1b (s : jsstring) : bool := forallb (fun c => (c <? 256)%N) s.

Fixpoint jsstring_eqb (a b : jsstring) : bool :=
  match a, b with
  | [], [] => true
  | x :: a', y :: b' => (x =? y)%N && jsstring_eqb a' b'
  | _, _ => false
  end.

(** [s.charCodeAt(i)]; [None] is NaN (index out of range). *)
Definition charCodeAt (s : jsstring) (i : nat) : option N := nth_error s i.

(** [String.fromCharCode(n)]: ToUint16 of the argument, as a one-unit string. *)
Definition fromCharCode (n : N) : jsstring := [(n mod 65536)%N].

(** [a ^ b] on char codes; NaN operands count as 0 (ToInt32). *)
Definition bitxor (a b : option N) : N :=
  N.lxor (match a with Some x => x | None => 0%N end)
         (match b with Some y => y | None => 0%N end).

(** [s.substring(0, n)] for [0 <= n]. *)
Definition substring0 (n : nat) (s : jsstring) : jsstring := firstn n s.

(** [s.substring(n)]. *)
Definition substring_from (n : nat) (s : jsstring) : jsstring := skipn n s.

(** [s.startsWith(p)]. *)
Fixpoint startsWith (s p : jsstring) {struct p} : bool :=
  match p, s with
  | [], _ => true
  | x :: p', y :: s' => (x =? y)%N && startsWith s' p'
  | _ :: _, [] => false
  end.

(** [s.padStart(n, "0")]-style padding with a one-unit filler. *)
Definition padStart (n : nat) (fill : N) (s : jsstring) : jsstring :=
  if (length s <? n)%nat then repeat fill (n - length s) ++ s else s.

(** The white space and line terminators that [String.prototype.trim]
    strips: TAB, LF, VT, FF, CR, the space, the no-break space, the other
    space separators of Unicode, the line and paragraph separators and the
    byte order mark. *)
Definition is_trimmed (c : N) : bool :=
  ((c =? 9) || (c =? 10) || (c =? 11) || (c =? 12) || (c =? 13) || (c =? 32)
   || (c =? 160) || (c =? 5760) || ((8192 <=? c) && (c <=? 8202))
   || (c =? 8232) || (c =? 8233) || (c =? 8239) || (c =? 8287)
   || (c =? 12288) || (c =? 65279))%N.

Fixpoint trimStart (s : jsstring) : jsstring :=
  match s with
  | [] => []
  | c :: rest => if is_trimmed c then trimStart rest else s
  end.

Definition trimEnd (s : jsstring) : jsstring := rev (trimStart (rev s)).

(** [s.trim()]. *)
Definition trim (s : jsstring) : jsstring := trimEnd (trimStart s).

(** ** Numbers

    The numbers of the engine are integers: hashes (32-bit), time values in
    milliseconds and window indices.  They are modelled by [Z]; this is the
    behaviour of the IEEE doubles of the source as long as magnitudes stay
    within the safe range [2^53], which holds for every ECMAScript time
    value (at most 8.64e15). *)

Definition two32 : Z := 4294967296.
Definition two31 : Z := 2147483648.

(** ToInt32: wrap into the signed 32-bit range. *)
Definition to_int32 (x : Z) : Z :=
  let m := x mod two32 in
  if m >=? two31 then m - two32 else m.

(** [a << n] for [0 <= n < 32]. *)
Definition shl (a n : Z) : Z := to_int32 (Z.shiftl (to_int32 a) n).

(** [a & b]. *)
Definition band (a b : Z) : Z := to_int32 (Z.land (to_int32 a) (to_int32 b)).

(** Digit of value [d] in [toString(radix)]: 0-9 then lowercase a-z. *)
Definition digit_char (d : N) : N :=
  if (d <? 10)%N then (48 + d)%N else (87 + d)%N.

(** The digits of [n] in [radix], most significant first, followed by [acc].
    [fuel] bounds the number of digits. *)
Fixpoint digits_from (fuel : nat) (radix n : N) (acc : jsstring) : jsstring :=
  match fuel with
  | O => acc
  | S fuel' =>
      let acc' := digit_char (n mod radix) :: acc in
      if (n / radix =? 0)%N then acc' else digits_from fuel' radix (n / radix) acc'
  end.

Definition digits (radix n : N) : jsstring :=
  digits_from (S (N.to_nat (N.log2 n))) radix n [].

(** [x.toString(radix)] for an integer [x]. *)
Definition toString (radix : N) (x : Z) : jsstring :=
  if x <? 0 then 45%N :: digits radix (Z.to_N (- x)) else digits radix (Z.to_N x).

(** ** The hasher: [simpleHash] *)

Definition simpleHash (str : jsstring) : jsstring :=
  let hash := 0 in
  if (length str =? 0)%nat then padStart 8 48%N (toString 16 hash)
  else
    let hash :=
      fold_left (fun hash char =>
                   let hash := (shl hash 5 - hash) + Z.of_N char in
                   band hash hash)
                str hash in
    padStart 8 48%N (toString 16 (Z.abs hash)).

(** ** The key stream: [expandKey] *)

Equations? expandKey_loop (key : jsstring) (length : nat)
    (expandedKey : jsstring) (counter : Z) : jsstring
    by wf (length - List.length expandedKey)%nat lt :=
  expandKey_loop key length expandedKey counter
    with Compare_dec.lt_dec (List.length expandedKey) length => {
    | left _ :=
        let entropy := simpleHash (key ++ toString 10 counter) in
        expandKey_loop key length (expandedKey ++ entropy) (counter + 1);
    | right _ := expandedKey }.
Proof.
  rewrite length_app.
  enough (8 <= List.length entropy)%nat by lia.
  unfold entropy, simpleHash, padStart.
  repeat match goal with
         | |- context [if ?b then _ else _] => destruct b eqn:?
         end;
    rewrite ?length_app, ?repeat_length;
    rewrite ?Nat.ltb_lt, ?Nat.ltb_ge in *; lia.
Qed.

Definition expandKey (key : jsstring) (length : nat) : jsstring :=
  let expandedKey := key in
  let counter := 0 in
  let expandedKey := expandKey_loop key length expandedKey counter in
  substring0 length expandedKey.

(** ** The cipher: [xorCipher] *)

Definition xorCipher (data key : jsstring) : jsstring :=
  let expandedKey := expandKey key (length data) in
  fold_left (fun result i =>
               let dataChar := charCodeAt data i in
               let keyChar := charCodeAt expandedKey (i mod length expandedKey)%nat in
               let xored := bitxor dataChar keyChar in
               result ++ fromCharCode xored)
            (seq 0 (length data)) [].

(** ** Host functions: [btoa] and [atob]

    [btoa] is defined on strings of code units below 256 and throws an
    [InvalidCharacterError] on any other; [atob] is the forgiving base64
    decoder of the HTML standard.  [None] stands for the exception. *)

Definition b64_char (n : N) : N :=
  (if n <? 26 then 65 + n
   else if n <? 52 then 71 + n
   else if n <? 62 then n - 4
   else if n =? 62 then 43 else 47)%N.

Definition b64_value (c : N) : option N :=
  (if (65 <=? c) && (c <=? 90) then Some (c - 65)
   else if (97 <=? c) && (c <=? 122) then Some (c - 71)
   else if (48 <=? c) && (c <=? 57) then Some (c + 4)
   else if c =? 43 then Some 62
   else if c =? 47 then Some 63
   else None)%N.

Fixpoint btoa_chunks (s : jsstring) : jsstring :=
  (match s with
   | a :: b :: c :: rest =>
       b64_char (a / 4) :: b64_char ((a mod 4) * 16 + b / 16)
         :: b64_char ((b mod 16) * 4 + c / 64) :: b64_char (c mod 64)
         :: btoa_chunks rest
   | [a; b] =>
       [b64_char (a / 4); b64_char ((a mod 4) * 16 + b / 16);
        b64_char ((b mod 16) * 4); 61]
   | [a] => [b64_char (a / 4); b64_char ((a mod 4) * 16); 61; 61]
   | [] => []
   end)%N.

Definition btoa (s : jsstring) : option jsstring :=
  if latin1b s then Some (btoa_chunks s) else None.

Definition ascii_whitespace (c : N) : bool :=
  ((c =? 9) || (c =? 10) || (c =? 12) || (c =? 13) || (c =? 32))%N.

Definition decode2 (c1 c2 : N) : option jsstring :=
  match b64_value c1, b64_value c2 with
  | Some v1, Some v2 => Some [v1 * 4 + v2 / 16]%N
  | _, _ => None
  end.

Definition decode3 (c1 c2 c3 : N) : option jsstring :=
  match b64_value c1, b64_value c2, b64_value c3 with
  | Some v1, Some v2, Some v3 =>
      Some [v1 * 4 + v2 / 16; (v2 mod 16) * 16 + v3 / 4]%N
  | _, _, _ => None
  end.

Definition decode4 (c1 c2 c3 c4 : N) : option jsstring :=
  match b64_value c1, b64_value c2, b64_value c3, b64_value c4 with
  | Some v1, Some v2, Some v3, Some v4 =>
      Some [v1 * 4 + v2 / 16; (v2 mod 16) * 16 + v3 / 4; (v3 mod 4) * 64 + v4]%N
  | _, _, _, _ => None
  end.

(** Decoding by groups of four.  A last group of exactly four is the only
    place where one or two padding characters [=] are removed (the length is
    then a multiple of four); a single left-over character is an error. *)
Fixpoint atob_chunks (s : jsstring) : option jsstring :=
  match s with
  | [] => Some []
  | [_] => None
  | [c1; c2] => decode2 c1 c2
  | [c1; c2; c3] => decode3 c1 c2 c3
  | c1 :: c2 :: c3 :: c4 :: rest =>
      match rest with
      | [] =>
          if (c4 =? 61)%N
          then if (c3 =? 61)%N then decode2 c1 c2 else decode3 c1 c2 c3
          else decode4 c1 c2 c3 c4
      | _ :: _ =>
          match decode4 c1 c2 c3 c4, atob_chunks rest with
          | Some x, Some y => Some (x ++ y)
          | _, _ => None
          end
      end
  end.

Definition atob (s : jsstring) : option jsstring :=
  atob_chunks (filter (fun c => negb (ascii_whitespace c)) s).

(** ** Values

    The values the engine handles: strings, numbers, [null], and whatever
    [JSON.parse] builds.  [undefined] is the [None] of an [option value]. *)

Inductive number : Type :=
| Int (z : Z)              (* an integer of magnitude at most 2^53 *)
| Dec (literal : jsstring). (* any other JSON number, kept as its literal *)

Inductive value : Type :=
| Null
| Bool (b : bool)
| Number (n : number)
| Str (s : jsstring)
| Array (elements : list value)
| Object (members : list (jsstring * value)).

(** [o.key] on an object built by [JSON.parse] or by an object literal: the
    last member with that key wins. *)
Fixpoint lookup (key : jsstring) (members : list (jsstring * value)) : option value :=
  match members with
  | [] => None
  | (k, v) :: rest =>
      match lookup key rest with
      | Some v' => Some v'
      | None => if jsstring_eqb k key then Some v else None
      end
  end.

(** ** Host functions: [JSON.parse]

    A recursive-descent parser of the JSON grammar (ECMA-404).  [fuel]
    bounds the number of nested calls. *)

Inductive parsed (A : Type) : Type :=
| Ok (a : A) (rest : jsstring)
| SyntaxError
| OutOfFuel.
Arguments Ok {A}.
Arguments SyntaxError {A}.
Arguments OutOfFuel {A}.

Definition json_whitespace (c : N) : bool :=
  ((c =? 32) || (c =? 9) || (c =? 10) || (c =? 13))%N.

Fixpoint skip_ws (s : jsstring) : jsstring :=
  match s with
  | c :: rest => if json_whitespace c then skip_ws rest else s
  | [] => []
  end.

Definition is_digit (c : N) : bool := ((48 <=? c) && (c <=? 57))%N.

Definition hex_value (c : N) : option N :=
  (if is_digit c then Some (c - 48)
   else if (97 <=? c) && (c <=? 102) then Some (c - 87)
   else if (65 <=? c) && (c <=? 70) then Some (c - 55)
   else None)%N.

Definition escape_value (c : N) : option N :=
  (if c =? 34 then Some 34          (* quotation mark *)
   else if c =? 92 then Some 92     (* reverse solidus *)
   else if c =? 47 then Some 47     (* solidus *)
   else if c =? 98 then Some 8      (* b: backspace *)
   else if c =? 102 then Some 12    (* f: form feed *)
   else if c =? 110 then Some 10    (* n: line feed *)
   else if c =? 114 then Some 13    (* r: carriage return *)
   else if c =? 116 then Some 9     (* t: tab *)
   else None)%N.

(** The characters of a string after its opening quote, up to and
    including the closing quote. *)
Fixpoint parse_string_body (s : jsstring) : option (jsstring * jsstring) :=
  match s with
  | [] => None
  | c :: rest =>
      if (c =? 34)%N then Some ([], rest)
      else if (c =? 92)%N then
        match rest with
        | e :: rest1 =>
            if (e =? 117)%N then
              match rest1 with
              | h1 :: h2 :: h3 :: h4 :: rest2 =>
                  match hex_value h1, hex_value h2, hex_value h3, hex_value h4 with
                  | Some v1, Some v2, Some v3, Some v4 =>
                      match parse_string_body rest2 with
                      | Some (str, r) =>
                          Some ((((v1 * 16 + v2) * 16 + v3) * 16 + v4)%N :: str, r)
                      | None => None
                      end
                  | _, _, _, _ => None
                  end
              | _ => None
              end
            else
              match escape_value e with
              | Some u =>
                  match parse_string_body rest1 with
                  | Some (str, r) => Some (u :: str, r)
                  | None => None
                  end
              | None => None
              end
        | [] => None
        end
      else if (c <? 32)%N then None
      else
        match parse_string_body rest with
        | Some (str, r) => Some (c :: str, r)
        | None => None
        end
  end.

Fixpoint span_digits (s : jsstring) : jsstring * jsstring :=
  match s with
  | c :: rest =>
      if is_digit c then let (ds, r) := span_digits rest in (c :: ds, r)
      else ([], s)
  | [] => ([], [])
  end.

Definition digits_value (ds : jsstring) : N :=
  fold_left (fun acc c => (acc * 10 + (c - 48))%N) ds 0%N.

Definition two53 : Z := 9007199254740992.

(** A JSON number: [-]? int frac? exp?.  Each part is returned as its
    text, with the rest of the input. *)
Definition parse_sign (s : jsstring) : jsstring * jsstring :=
  match s with
  | c :: r => if (c =? 45)%N then ([c], r) else ([], s)
  | [] => ([], s)
  end.

(** [0], or a non-zero digit followed by digits. *)
Definition parse_int (s : jsstring) : option (jsstring * jsstring) :=
  match s with
  | [] => None
  | c :: r =>
      if negb (is_digit c) then None
      else if (c =? 48)%N then Some ([c], r)
      else let (ds, r') := span_digits r in Some (c :: ds, r')
  end.

(** An optional [.] followed by at least one digit. *)
Definition parse_frac (s : jsstring) : option (jsstring * jsstring) :=
  match s with
  | d :: r =>
      if (d =? 46)%N then
        let (fs, r') := span_digits r in
        match fs with
        | [] => None
        | _ :: _ => Some (d :: fs, r')
        end
      else Some ([], s)
  | [] => Some ([], s)
  end.

(** An optional [e] or [E], an optional sign and at least one digit. *)
Definition parse_exp (s : jsstring) : option (jsstring * jsstring) :=
  match s with
  | e :: r =>
      if ((e =? 101) || (e =? 69))%N then
        let (esign, r1) :=
          match r with
          | g :: r' => if ((g =? 43) || (g =? 45))%N then ([g], r') else ([], r)
          | [] => ([], r)
          end in
        let (es, r2) := span_digits r1 in
        match es with
        | [] => None
        | _ :: _ => Some (e :: esign ++ es, r2)
        end
      else Some ([], s)
  | [] => Some ([], s)
  end.

(** An integer literal of magnitude at most [2^53] is its exact value; any
    other literal is kept as text. *)
Definition number_of_literal (sign int frac exp : jsstring) : number :=
  let magnitude := Z.of_N (digits_value int) in
  match frac, exp with
  | [], [] =>
      if magnitude <=? two53
      then Int (match sign with [] => magnitude | _ :: _ => - magnitude end)
      else Dec (sign ++ int)
  | _, _ => Dec (sign ++ int ++ frac ++ exp)
  end.

Definition parse_number (s : jsstring) : option (number * jsstring) :=
  let (sign, s1) := parse_sign s in
  match parse_int s1 with
  | None => None
  | Some (int, r1) =>
      match parse_frac r1 with
      | None => None
      | Some (frac, r2) =>
          match parse_exp r2 with
          | None => None
          | Some (exp, r3) => Some (number_of_literal sign int frac exp, r3)
          end
      end
  end.

(** [s] starts with the literal [word], which stands for [v]. *)
Definition parse_word (word : jsstring) (v : value) (s : jsstring) : parsed value :=
  if startsWith s word then Ok v (skipn (length word) s) else SyntaxError.

Fixpoint parse_value (fuel : nat) (s : jsstring) {struct fuel} : parsed value :=
  match fuel with
  | O => OutOfFuel
  | S fuel' =>
      match skip_ws s with
      | [] => SyntaxError
      | c :: rest =>
          if (c =? 34)%N then
            match parse_string_body rest with
            | Some (str, r) => Ok (Str str) r
            | None => SyntaxError
            end
          else if (c =? 123)%N then
            match skip_ws rest with
            | d :: r =>
                if (d =? 125)%N then Ok (Object []) r
                else match parse_members fuel' rest with
                     | Ok members r' => Ok (Object members) r'
                     | SyntaxError => SyntaxError
                     | OutOfFuel => OutOfFuel
                     end
            | [] => SyntaxError
            end
          else if (c =? 91)%N then
            match skip_ws rest with
            | d :: r =>
                if (d =? 93)%N then Ok (Array []) r
                else match parse_elements fuel' rest with
                     | Ok elements r' => Ok (Array elements) r'
                     | SyntaxError => SyntaxError
                     | OutOfFuel => OutOfFuel
                     end
            | [] => SyntaxError
            end
          else if (c =? 116)%N then parse_word (lit "true") (Bool true) (c :: rest)
          else if (c =? 102)%N then parse_word (lit "false") (Bool false) (c :: rest)
          else if (c =? 110)%N then parse_word (lit "null") Null (c :: rest)
          else
            match parse_number (c :: rest) with
            | Some (n, r) => Ok (Number n) r
            | None => SyntaxError
            end
      end
  end

with parse_elements (fuel : nat) (s : jsstring) {struct fuel} : parsed (list value) :=
  match fuel with
  | O => OutOfFuel
  | S fuel' =>
      match parse_value fuel' s with
      | Ok v r =>
          match skip_ws r with
          | d :: r1 =>
              if (d =? 44)%N then
                match parse_elements fuel' r1 with
                | Ok vs r2 => Ok (v :: vs) r2
                | SyntaxError => SyntaxError
                | OutOfFuel => OutOfFuel
                end
              else if (d =? 93)%N then Ok [v] r1
              else SyntaxError
          | [] => SyntaxError
          end
      | SyntaxError => SyntaxError
      | OutOfFuel => OutOfFuel
      end
  end

with parse_members (fuel : nat) (s : jsstring) {struct fuel}
  : parsed (list (jsstring * value)) :=
  match fuel with
  | O => OutOfFuel
  | S fuel' =>
      match skip_ws s with
      | q :: r =>
          if negb (q =? 34)%N then SyntaxError
          else
            match parse_string_body r with
            | None => SyntaxError
            | Some (key, r1) =>
                match skip_ws r1 with
                | colon :: r2 =>
                    if negb (colon =? 58)%N then SyntaxError
                    else
                      match parse_value fuel' r2 with
                      | Ok v r3 =>
                          match skip_ws r3 with
                          | d :: r4 =>
                              if (d =? 44)%N then
                                match parse_members fuel' r4 with
                                | Ok ms r5 => Ok ((key, v) :: ms) r5
                                | SyntaxError => SyntaxError
                                | OutOfFuel => OutOfFuel
                                end
                              else if (d =? 125)%N then Ok [(key, v)] r4
                              else SyntaxError
                          | [] => SyntaxError
                          end
                      | SyntaxError => SyntaxError
                      | OutOfFuel => OutOfFuel
                      end
                | [] => SyntaxError
                end
            end
      | [] => SyntaxError
      end
  end.

(** The whole text must be one value, surrounded by white space only. *)
Definition parse_text (s : jsstring) : parsed value :=
  match parse_value (2 * length s + 2) s with
  | Ok v rest => match skip_ws rest with
                 | [] => Ok v []
                 | _ :: _ => SyntaxError
                 end
  | SyntaxError => SyntaxError
  | OutOfFuel => OutOfFuel
  end.

(** ** Doubles

    A JSON number that is no integer of the safe range, and the number a
    string converts to, is an IEEE 754 double.  A finite double is
    [m * 2^e]; the sign of a zero is not kept (no operation of the engine
    tells [-0] from [0]). *)

Inductive double : Type :=
| Finite (m e : Z)
| Infinite (negative : bool)
| NaN.

(** The integer nearest to [n / d], for [0 < d]; a tie goes to the even
    one. *)
Definition nearest_even (n d : Z) : Z :=
  let q := n / d in
  let r := n mod d in
  if 2 * r <? d then q
  else if d <? 2 * r then q + 1
  else if Z.even q then q else q + 1.

(** The largest [l] with [2^l <= n / d], for [0 < n] and [0 < d]. *)
Definition log2_ratio (n d : Z) : Z :=
  let l := Z.log2 n - Z.log2 d in
  if (if 0 <=? l then d * 2 ^ l <=? n else d <=? n * 2 ^ (- l)) then l else l - 1.

(** The double nearest to [n / d], for [0 < n] and [0 < d]: 53
    significant bits, fewer below [2^-1022] where the exponent stops at
    [-1074]; a tie goes to the even significand; what rounds to [2^1024] or
    more is infinite. *)
Definition binary64_pos (n d : Z) : double :=
  let e := Z.max (log2_ratio n d - 52) (- 1074) in
  let m := if 0 <=? e then nearest_even n (d * 2 ^ e)
           else nearest_even (n * 2 ^ (- e)) d in
  let (m, e) := if m =? 2 ^ 53 then (2 ^ 52, e + 1) else (m, e) in
  if 971 <? e then Infinite false else Finite m e.

(** The double nearest to [n / d], for [0 < d]. *)
Definition binary64 (n d : Z) : double :=
  if n =? 0 then Finite 0 0
  else if n <? 0 then
    match binary64_pos (- n) d with
    | Finite m e => Finite (- m) e
    | Infinite _ => Infinite true
    | NaN => NaN
    end
  else binary64_pos n d.

(** The double nearest to [s * 10^t]. *)
Definition binary64_decimal (s t : Z) : double :=
  if 0 <=? t then binary64 (s * 10 ^ t) 1 else binary64 s (10 ^ (- t)).

Definition double_eqb (x y : double) : bool :=
  match x, y with
  | Finite m e, Finite m' e' =>
      if e <=? e' then m =? m' * 2 ^ (e' - e) else m * 2 ^ (e - e') =? m'
  | Infinite s, Infinite s' => Bool.eqb s s'
  | _, _ => false
  end.

(** The value of the digits after an [e] or [E]: an optional sign, then
    decimal digits. *)
Definition exponent_value (exp : jsstring) : Z :=
  match exp with
  | [] => 0
  | _ :: signed =>
      match signed with
      | g :: ds =>
          if (g =? 45)%N then - Z.of_N (digits_value ds)
          else if (g =? 43)%N then Z.of_N (digits_value ds)
          else Z.of_N (digits_value signed)
      | [] => 0
      end
  end.

(** The double of the parts of a decimal literal: a sign, the digits
    before and after the point, and the exponent part. *)
Definition double_of_parts (negative : bool) (int frac exp : jsstring) : double :=
  let digits := Z.of_N (digits_value (int ++ frac)) in
  let s := if negative then - digits else digits in
  binary64_decimal s (exponent_value exp - Z.of_nat (length frac)).

(** The double of a JSON number literal. *)
Definition double_of_literal (literal : jsstring) : double :=
  let (sign, s1) := parse_sign literal in
  match parse_int s1 with
  | Some (int, r1) =>
      match parse_frac r1 with
      | Some (frac, r2) =>
          match parse_exp r2 with
          | Some (exp, _) =>
              double_of_parts (match sign with [] => false | _ :: _ => true end)
                              int (tl frac) exp
          | None => NaN
          end
      | None => NaN
      end
  | None => NaN
  end.

(** *** [Number.prototype.toString] on a double *)

(** [10^k <= n / d]. *)
Definition pow10_le (k n d : Z) : bool :=
  if 0 <=? k then 10 ^ k * d <=? n else d <=? n * 10 ^ (- k).

(** The largest [k' <= k] with [10^k' <= n / d], looked for in [fuel]
    steps. *)
Fixpoint floor_log10 (fuel : nat) (k n d : Z) : Z :=
  match fuel with
  | O => k
  | S fuel' => if pow10_le k n d then k else floor_log10 fuel' (k - 1) n d
  end.

(** The integer [s] nearest to [n / d / 10^t] among those for which
    [s * 10^t] rounds to the double [x], if there is one. *)
Definition nearest_digits (x : double) (n d t : Z) : option Z :=
  let (sn, sd) := if 0 <=? t then (n, d * 10 ^ t) else (n * 10 ^ (- t), d) in
  let lo := sn / sd in
  let r := sn mod sd in
  let hi := lo + 1 in
  let valid s := (0 <? s) && double_eqb (binary64_decimal s t) x in
  match valid lo, valid hi with
  | true, true =>
      Some (if 2 * r <? sd then lo
            else if sd <? 2 * r then hi
            else if Z.even lo then lo else hi)
  | true, false => Some lo
  | false, true => Some hi
  | false, false => None
  end.

(** The fewest digits: the first [k] of [ks] for which some [s] of [k]
    digits, scaled to the magnitude [10^n10] of [x], rounds to [x]. *)
Fixpoint shortest_digits (ks : list Z) (x : double) (n d n10 : Z) : Z * Z :=
  match ks with
  | [] => (0, 0)
  | k :: ks' =>
      match nearest_digits x n d (n10 - k) with
      | Some s => (s, n10 - k)
      | None => shortest_digits ks' x n d n10
      end
  end.

(** [s * 10^t] without the zeros that end [s]. *)
Fixpoint strip_zeros (fuel : nat) (s t : Z) : Z * Z :=
  match fuel with
  | O => (s, t)
  | S fuel' => if (s mod 10 =? 0) && negb (s =? 0) then strip_zeros fuel' (s / 10) (t + 1)
               else (s, t)
  end.

(** The text of [s * 10^t], for the digits [s] and the exponent [t]:
    plain digits up to 21 of them, a decimal point down to [1e-6],
    otherwise the exponent notation. *)
Definition format_decimal (s t : Z) : jsstring :=
  let ds := digits 10 (Z.to_N s) in
  let k := Z.of_nat (length ds) in
  let n := k + t in
  if (k <=? n) && (n <=? 21) then ds ++ repeat 48%N (Z.to_nat (n - k))
  else if (0 <? n) && (n <=? 21) then
    firstn (Z.to_nat n) ds ++ [46%N] ++ skipn (Z.to_nat n) ds
  else if (- 6 <? n) && (n <=? 0) then
    [48%N; 46%N] ++ repeat 48%N (Z.to_nat (- n)) ++ ds
  else
    let e := n - 1 in
    let exponent := (if e <? 0 then 45%N else 43%N) :: digits 10 (Z.to_N (Z.abs e)) in
    match ds with
    | [] => []
    | [c] => c :: 101%N :: exponent
    | c :: rest => c :: 46%N :: rest ++ 101%N :: exponent
    end.

Definition Number_toString (x : double) : jsstring :=
  match x with
  | NaN => lit "NaN"
  | Infinite false => lit "Infinity"
  | Infinite true => lit "-Infinity"
  | Finite m e =>
      if m =? 0 then lit "0"
      else
        let a := Z.abs m in
        let (n, d) := if 0 <=? e then (a * 2 ^ e, 1) else (a, 2 ^ (- e)) in
        let n10 := floor_log10 640 309 n d + 1 in
        let (s, t) := shortest_digits [1; 2; 3; 4; 5; 6; 7; 8; 9; 10; 11; 12; 13; 14; 15; 16; 17]
                                      (Finite a e) n d n10 in
        let (s, t) := strip_zeros 20 s t in
        (if m <? 0 then [45%N] else []) ++ format_decimal s t
  end.

(** *** StringToNumber *)

Definition is_hex_digit (c : N) : bool :=
  match hex_value c with Some _ => true | None => false end.

(** The value of the digits [ds] in [radix]. *)
Definition radix_value (radix : N) (ds : jsstring) : N :=
  fold_left (fun acc c => (acc * radix + match hex_value c with
                                         | Some v => v
                                         | None => 0
                                         end)%N) ds 0%N.

(** A literal with a prefix [0x], [0o] or [0b]: one digit of the radix or
    more. *)
Definition non_decimal (radix : N) (ds : jsstring) : double :=
  match ds with
  | [] => NaN
  | _ :: _ =>
      if forallb (fun c => match hex_value c with
                           | Some v => (v <? radix)%N
                           | None => false
                           end) ds
      then binary64 (Z.of_N (radix_value radix ds)) 1
      else NaN
  end.

(** StrUnsignedDecimalLiteral: [Infinity], or digits with an optional
    point (digits on one side of it at least) and an optional exponent
    part. *)
Definition unsigned_decimal (negative : bool) (s : jsstring) : double :=
  if jsstring_eqb s (lit "Infinity") then Infinite negative
  else
    let (int, r1) := span_digits s in
    let (frac, r2) :=
      match r1 with
      | c :: r => if (c =? 46)%N then span_digits r else ([], r1)
      | [] => ([], r1)
      end in
    match int ++ frac with
    | [] => NaN
    | _ :: _ =>
        match parse_exp r2 with
        | Some (exp, []) => double_of_parts negative int frac exp
        | _ => NaN
        end
    end.

(** The number that a string converts to: white space is stripped from
    both ends; the empty string is 0; what is no numeric literal is NaN. *)
Definition StringToNumber (s : jsstring) : double :=
  match trim s with
  | [] => Finite 0 0
  | c :: rest =>
      if (c =? 48)%N then
        match rest with
        | p :: ds =>
            if ((p =? 120) || (p =? 88))%N then non_decimal 16 ds
            else if ((p =? 111) || (p =? 79))%N then non_decimal 8 ds
            else if ((p =? 98) || (p =? 66))%N then non_decimal 2 ds
            else unsigned_decimal false (c :: rest)
        | [] => unsigned_decimal false (c :: rest)
        end
      else if (c =? 43)%N then unsigned_decimal false rest
      else if (c =? 45)%N then unsigned_decimal true rest
      else unsigned_decimal false (c :: rest)
  end.

(** ** Host functions: [JSON.stringify] *)

Definition is_high_surrogate (c : N) : bool := ((55296 <=? c) && (c <=? 56319))%N.
Definition is_low_surrogate (c : N) : bool := ((56320 <=? c) && (c <=? 57343))%N.

(** [\uXXXX] with four lowercase hexadecimal digits. *)
Definition unicode_escape (c : N) : jsstring :=
  92%N :: 117%N :: padStart 4 48%N (digits 16 c).

(** The body of QuoteJSONString, code point by code point. *)
Fixpoint quote_body (s : jsstring) : jsstring :=
  match s with
  | [] => []
  | c :: rest =>
      if (c =? 8)%N then lit "\b" ++ quote_body rest
      else if (c =? 9)%N then lit "\t" ++ quote_body rest
      else if (c =? 10)%N then lit "\n" ++ quote_body rest
      else if (c =? 12)%N then lit "\f" ++ quote_body rest
      else if (c =? 13)%N then lit "\r" ++ quote_body rest
      else if (c =? 34)%N then 92%N :: 34%N :: quote_body rest
      else if (c =? 92)%N then 92%N :: 92%N :: quote_body rest
      else if (c <? 32)%N then unicode_escape c ++ quote_body rest
      else if is_high_surrogate c then
        match rest with
        | d :: rest' =>
            if is_low_surrogate d then c :: d :: quote_body rest'
            else unicode_escape c ++ quote_body rest
        | [] => unicode_escape c ++ quote_body rest
        end
      else if is_low_surrogate c then unicode_escape c ++ quote_body rest
      else c :: quote_body rest
  end.

Definition quote (s : jsstring) : jsstring := 34%N :: quote_body s ++ [34%N].

Fixpoint join (sep : jsstring) (parts : list jsstring) : jsstring :=
  match parts with
  | [] => []
  | [p] => p
  | p :: rest => p ++ sep ++ join sep rest
  end.

Fixpoint JSON_stringify (v : value) : jsstring :=
  match v with
  | Null => lit "null"
  | Bool true => lit "true"
  | Bool false => lit "false"
  | Number (Int z) => toString 10 z
  | Number (Dec literal) =>
      match double_of_literal literal with
      | Finite m e => Number_toString (Finite m e)
      | _ => lit "null"
      end
  | Str s => quote s
  | Array elements => lit "[" ++ join (lit ",") (map JSON_stringify elements) ++ lit "]"
  | Object members =>
      lit "{"
      ++ join (lit ",")
              (map (fun m => quote (fst m) ++ lit ":" ++ JSON_stringify (snd m)) members)
      ++ lit "}"
  end.

(** ** Operators on values

    Conversions and operators as the engine applies them to what
    [JSON.parse] returns: [!v], [a + b], [a !== b] and [a - b > limit]. *)

Fixpoint all_some {A : Type} (l : list (option A)) : option (list A) :=
  match l with
  | [] => Some []
  | Some a :: rest => option_map (cons a) (all_some rest)
  | None :: _ => None
  end.

(** [o] has a property [key] of its own. *)
Definition has_own (key : jsstring) (members : list (jsstring * value)) : bool :=
  match lookup key members with
  | Some _ => true
  | None => false
  end.

(** ToString, after ToPrimitive on an array or an object; [None] is the
    [TypeError] of ToPrimitive.  An array is joined by [Array.prototype.join]
    ([null] elements give the empty string).  An object built by
    [JSON.parse] has no method of its own: a [toString] member hides
    [Object.prototype.toString] and is not callable, a [valueOf] member is
    not callable either, and [Object.prototype.valueOf] returns the object,
    so the conversion throws exactly when a [toString] member exists. *)
Fixpoint ToString (v : value) : option jsstring :=
  match v with
  | Null => Some (lit "null")
  | Bool true => Some (lit "true")
  | Bool false => Some (lit "false")
  | Number (Int z) => Some (toString 10 z)
  | Number (Dec literal) => Some (Number_toString (double_of_literal literal))
  | Str s => Some s
  | Array elements =>
      option_map (join (lit ","))
        (all_some (map (fun e => match e with
                                 | Null => Some []
                                 | _ => ToString e
                                 end) elements))
  | Object members =>
      if has_own (lit "toString") members then None
      else Some (lit "[object Object]")
  end.

(** A number as an operand: an integer, kept exact, or a double. *)
Inductive numeric : Type :=
| Integer (z : Z)
| Double (x : double).

(** ToNumber, after ToPrimitive on an array or an object; [None] is the
    [TypeError] of ToPrimitive. *)
Definition ToNumber (v : value) : option numeric :=
  match v with
  | Null => Some (Integer 0)
  | Bool true => Some (Integer 1)
  | Bool false => Some (Integer 0)
  | Number (Int z) => Some (Integer z)
  | Number (Dec literal) => Some (Double (double_of_literal literal))
  | Str s => Some (Double (StringToNumber s))
  | Array _ | Object _ =>
      option_map (fun s => Double (StringToNumber s)) (ToString v)
  end.

(** ToBoolean of a value or of [undefined]. *)
Definition truthy (v : option value) : bool :=
  match v with
  | None => false
  | Some Null => false
  | Some (Bool b) => b
  | Some (Number (Int z)) => negb (z =? 0)
  | Some (Number (Dec literal)) =>
      match double_of_literal literal with
      | Finite m _ => negb (m =? 0)
      | Infinite _ => true
      | NaN => false
      end
  | Some (Str s) => negb (length s =? 0)%nat
  | Some (Array _) => true
  | Some (Object _) => true
  end.

(** The result of [a + b]: a concatenation, or the sum of two numbers.
    The sum is kept as its operands: the engine passes it to [simpleHash]
    only, which reads no more of a number than its missing [length]. *)
Inductive addition : Type :=
| Concat (s : jsstring)
| Sum (x y : numeric).

(** The values that ToPrimitive turns into a string. *)
Definition is_stringlike (v : value) : bool :=
  match v with
  | Str _ | Array _ | Object _ => true
  | _ => false
  end.

(** [a + b]; [None] is the [TypeError] of ToPrimitive. *)
Definition add (a b : value) : option addition :=
  if is_stringlike a || is_stringlike b then
    match ToString a, ToString b with
    | Some x, Some y => Some (Concat (x ++ y))
    | _, _ => None
    end
  else
    match ToNumber a, ToNumber b with
    | Some x, Some y => Some (Sum x y)
    | _, _ => None
    end.

(** [a !== b] for a value [a] and a string [b]. *)
Definition strict_neq_string (a : value) (b : jsstring) : bool :=
  match a with
  | Str s => negb (jsstring_eqb s b)
  | _ => true
  end.

(** [a - b > limit] for integers [a] and [limit] and a number [b].  The
    difference of two integers is compared as it is: rounding it to a
    double keeps its order with an integer of the safe range.  Any other
    difference is rounded to a double first; NaN is greater than
    nothing. *)
Definition exceeds (a : Z) (b : numeric) (limit : Z) : bool :=
  match b with
  | Integer z => a - z >? limit
  | Double (Finite m e) =>
      match (if 0 <=? e then binary64 (a - m * 2 ^ e) 1
             else binary64 (a * 2 ^ (- e) - m) (2 ^ (- e))) with
      | Finite m' e' =>
          if 0 <=? e' then limit <? m' * 2 ^ e' else limit * 2 ^ (- e') <? m'
      | Infinite negative => negb negative
      | NaN => false
      end
  | Double (Infinite negative) => negative
  | Double NaN => false
  end.

(** ** Runs of the engine

    The engine reads the clock ([Date.now]) and throws exceptions.  A
    [world] holds the host state: the successive readings of the clock, how
    many of them have been made, and the message text the host gives its
    exceptions.  [derived] is a ghost trace, not part of the program: the
    seeds for which [generateTimeKey] has derived a key, oldest first. *)

Inductive host_error : Type :=
| InvalidCharacterError   (* btoa, atob *)
| JSONSyntaxError         (* JSON.parse *)
| TypeError.              (* property access on null, ToPrimitive *)

Inductive exn : Type :=
| Error (message : jsstring)      (* new Error(message) *)
| HostError (kind : host_error).

Record world : Type := {
  clock : nat -> Z;
  reads : nat;
  host_message : host_error -> jsstring;
  derived : list Z
}.

Inductive outcome (A : Type) : Type :=
| Return (a : A)
| Throw (e : exn)
| Stuck.                  (* the run leaves the modelled fragment *)
Arguments Return {A}.
Arguments Throw {A}.
Arguments Stuck {A}.

Definition M (A : Type) : Type := world -> outcome A * world.

Definition ret {A : Type} (a : A) : M A := fun w => (Return a, w).

Definition bind {A B : Type} (m : M A) (k : A -> M B) : M B :=
  fun w => match m w with
           | (Return a, w') => k a w'
           | (Throw e, w') => (Throw e, w')
           | (Stuck, w') => (Stuck, w')
           end.

Notation "x <- m ;; k" := (bind m (fun x => k))
  (at level 61, m at next level, right associativity).
Notation "m ;;; k" := (bind m (fun _ => k))
  (at level 61, right associativity).

Definition throw {A : Type} (e : exn) : M A := fun w => (Throw e, w).

Definition stuck {A : Type} : M A := fun w => (Stuck, w).

(** [try { m } catch (error) { handler }]. *)
Definition try_catch {A : Type} (m : M A) (handler : exn -> M A) : M A :=
  fun w => match m w with
           | (Throw e, w') => handler e w'
           | r => r
           end.

(** A pure operation that is partial in the model. *)
Definition modelled {A : Type} (o : option A) : M A :=
  match o with
  | Some a => ret a
  | None => stuck
  end.

(** A host function that throws. *)
Definition or_throw {A : Type} (o : option A) (kind : host_error) : M A :=
  match o with
  | Some a => ret a
  | None => throw (HostError kind)
  end.

(** [error.message]. *)
Definition message (e : exn) : M jsstring :=
  fun w => (Return (match e with
                    | Error m => m
                    | HostError kind => host_message w kind
                    end), w).

(** The world after one more reading of the clock. *)
Definition tick (w : world) : world :=
  {| clock := clock w; reads := S (reads w);
     host_message := host_message w; derived := derived w |}.

(** The world after a key has been derived for [seed]. *)
Definition logged (seed : Z) (w : world) : world :=
  {| clock := clock w; reads := reads w;
     host_message := host_message w; derived := derived w ++ [seed] |}.

(** [Date.now()]. *)
Definition Date_now : M Z := fun w => (Return (clock w (reads w)), tick w).

(** Ghost: record that a key is derived for [seed]. *)
Definition record_key (seed : Z) : M unit := fun w => (Return tt, logged seed w).

(** [JSON.parse(text)]. *)
Definition JSON_parse (text : jsstring) : M value :=
  match parse_text text with
  | Ok v _ => ret v
  | SyntaxError => throw (HostError JSONSyntaxError)
  | OutOfFuel => stuck
  end.

(** [v.key]: a [TypeError] on [null], [undefined] on the other values that
    are not objects (none of them has a property of the names the engine
    reads). *)
Definition get (v : value) (key : jsstring) : M (option value) :=
  match v with
  | Null => throw (HostError TypeError)
  | Object members => ret (lookup key members)
  | _ => ret None
  end.

(** ** The engine: [class CryptoEngine] *)

Record CryptoEngine : Type := {
  masterKey : jsstring;
  timeWindow : Z
}.

Definition secret : jsstring := lit "NFC_AUTH_2025_SECURE".

(** [getDeviceFingerprint] reads the canvas, the navigator and the screen of
    the host; its result is the argument [deviceFingerprint]. *)
Definition generateMasterKey (deviceFingerprint : jsstring) : jsstring :=
  simpleHash (deviceFingerprint ++ secret).

(** The constructor. *)
Definition new_CryptoEngine (deviceFingerprint : jsstring) : CryptoEngine :=
  {| masterKey := generateMasterKey deviceFingerprint;
     timeWindow := 300000 |}.

(** The object literal [{ msg, ts, seed, checksum }] that [encrypt] builds. *)
Definition envelope (message_ : jsstring) (timestamp timeSeed : Z) : value :=
  Object [(lit "msg", Str message_);
          (lit "ts", Number (Int timestamp));
          (lit "seed", Number (Int timeSeed));
          (lit "checksum", Str (simpleHash (message_ ++ toString 10 timestamp)))].

Section Methods.

Variable this : CryptoEngine.

Definition getTimeSeed : M Z :=
  now <- Date_now ;;
  let timeSlot := now / timeWindow this in   (* Math.floor *)
  ret timeSlot.

(** [timeSeed || this.getTimeSeed()], for a [timeSeed] that is [null]
    ([None]) or a number. *)
Definition or_getTimeSeed (timeSeed : option Z) : M Z :=
  match timeSeed with
  | Some z => if z =? 0 then getTimeSeed else ret z
  | None => getTimeSeed
  end.

Definition generateTimeKey (timeSeed : option Z) : M jsstring :=
  seed <- or_getTimeSeed timeSeed ;;
  record_key seed ;;;
  let keyMaterial := masterKey this ++ toString 10 seed in
  ret (simpleHash keyMaterial).

Definition encrypt (message_ : jsstring) (customTimeSeed : option Z) : M jsstring :=
  try_catch
    (timeSeed <- or_getTimeSeed customTimeSeed ;;
     timeKey <- generateTimeKey (Some timeSeed) ;;
     timestamp <- Date_now ;;
     let messageWithMeta := JSON_stringify (envelope message_ timestamp timeSeed) in
     let encrypted := xorCipher messageWithMeta timeKey in
     base64Encrypted <- or_throw (btoa encrypted) InvalidCharacterError ;;
     ret (lit "NFC_" ++ base64Encrypted))
    (fun error =>
       m <- message error ;;
       throw (Error (lit "Encryption failed: " ++ m))).

(** [simpleHash] applied to the result of an addition.  A number has no
    [length]: the test for the empty string and the loop are both skipped
    and the hash stays 0. *)
Definition simpleHash_of (a : addition) : jsstring :=
  match a with
  | Concat s => simpleHash s
  | Sum _ _ => padStart 8 48%N (toString 16 (Z.abs 0))
  end.

Definition attemptDecrypt (encrypted : jsstring) (timeSeed : option Z)
  : M (option value) :=
  try_catch
    (useTimeSeed <- or_getTimeSeed timeSeed ;;
     timeKey <- generateTimeKey (Some useTimeSeed) ;;
     let decrypted := xorCipher encrypted timeKey in
     messageData <- JSON_parse decrypted ;;
     msg <- get messageData (lit "msg") ;;
     if negb (truthy msg) then ret None
     else
       ts <- get messageData (lit "ts") ;;
       if negb (truthy ts) then ret None
       else
         checksum <- get messageData (lit "checksum") ;;
         if negb (truthy checksum) then ret None
         else
           match msg, ts, checksum with
           | Some msg, Some ts, Some checksum =>
               sum <- or_throw (add msg ts) TypeError ;;
               let expectedChecksum := simpleHash_of sum in
               if strict_neq_string checksum expectedChecksum then ret None
               else
                 now <- Date_now ;;
                 ts_number <- or_throw (ToNumber ts) TypeError ;;
                 if exceeds now ts_number 86400000
                 then throw (Error (lit "Message expired"))
                 else ret (Some msg)
           | _, _, _ => ret None
           end)
    (fun error => ret None).

(** The iterations [i = 1, 2, 3] of the retry loop, with its [break]. *)
Fixpoint retry (encrypted : jsstring) (indices : list Z)
    (decrypted : option value) : M (option value) :=
  match indices with
  | [] => ret decrypted
  | i :: rest =>
      seed <- getTimeSeed ;;
      let pastTimeSeed := seed - i in
      decrypted <- attemptDecrypt encrypted (Some pastTimeSeed) ;;
      if truthy decrypted then ret decrypted else retry encrypted rest decrypted
  end.

Definition decrypt (encryptedData : jsstring) : M value :=
  try_catch
    ((if negb (startsWith encryptedData (lit "NFC_"))
      then throw (Error (lit "Invalid encrypted format"))
      else ret tt) ;;;
     let base64Data := substring_from 4 encryptedData in
     encrypted <- or_throw (atob base64Data) InvalidCharacterError ;;
     decrypted <- attemptDecrypt encrypted None ;;
     decrypted <- (if negb (truthy decrypted) then retry encrypted [1; 2; 3] decrypted
                   else ret decrypted) ;;
     match decrypted with
     | Some v =>
         if negb (truthy decrypted)
         then throw (Error (lit "Decryption failed - invalid key or expired data"))
         else ret v
     | None => throw (Error (lit "Decryption failed - invalid key or expired data"))
     end)
    (fun error =>
       m <- message error ;;
       throw (Error (lit "Decryption failed: " ++ m))).

End Methods.


(** ** Time windows *)

(** Every reading of the clock from now on falls in window [W]. *)
Definition in_window (this : CryptoEngine) (w : world) (W : Z) : Prop :=
  forall k, (reads w <= k)%nat -> clock w k / timeWindow this = W.

(** The last window of the ECMAScript time range (8.64e15 ms). *)
Definition max_window : Z := 28800000000.

(** The errors of [decrypt]. *)
Definition format_error : exn :=
  Error (lit "Decryption failed: Invalid encrypted format").

Definition exhausted_error : exn :=
  Error (lit "Decryption failed: Decryption failed - invalid key or expired data").

Definition expired_error : exn :=
  Error (lit "Decryption failed: Message expired").

(** ** The rest of the engine *)

(** [s.toUpperCase()] on a string of ASCII code units: the letters [a-z]
    move to [A-Z].  [None] on any other string (the case mapping of
    Unicode is outside the model). *)
Definition toUpperCase (s : jsstring) : option jsstring :=
  if forallb (fun c => (c <? 128)%N) s
  then Some (map (fun c => if ((97 <=? c) && (c <=? 122))%N then (c - 32)%N else c) s)
  else None.

Definition getFormattedTimeSeed (this : CryptoEngine) : M jsstring :=
  seed <- getTimeSeed this ;;
  upper <- modelled (toUpperCase (toString 16 seed)) ;;
  ret (lit "0x" ++ padStart 8 48%N upper).

(** The character class [[A-Za-z0-9+/=]]. *)
Definition base64_class (c : N) : bool :=
  (((65 <=? c) && (c <=? 90)) || ((97 <=? c) && (c <=? 122))
   || ((48 <=? c) && (c <=? 57)) || (c =? 43) || (c =? 47) || (c =? 61))%N.

(** [/^NFC_[A-Za-z0-9+/=]+$/.test(data)]: the prefix, then one or more
    characters of the class up to the end of the string. *)
Definition format_regex_test (data : jsstring) : bool :=
  startsWith data (lit "NFC_")
  && match substring_from 4 data with
     | [] => false
     | c :: rest => forallb base64_class (c :: rest)
     end.

(** [isValidEncryptedFormat(data)] for a [data] that is a string. *)
Definition isValidEncryptedFormat (data : jsstring) : bool :=
  startsWith data (lit "NFC_") && (10 <? length data)%nat && format_regex_test data.

(** [generateTestCode(message = 'TEST MESSAGE')]; [None] is the absent
    argument. *)
Definition generateTestCode (this : CryptoEngine) (message_ : option jsstring) : M jsstring :=
  let message_ := match message_ with
                  | Some m => m
                  | None => lit "TEST MESSAGE"
                  end in
  encrypt this message_ None.

(** [NFCHandler.generateTestPayload(message = 'Hello from NFC!')]
    (nfc-handler.js), on the engine the handler holds. *)
Definition generateTestPayload (crypto : CryptoEngine) (message_ : option jsstring)
  : M jsstring :=
  let message_ := match message_ with
                  | Some m => m
                  | None => lit "Hello from NFC!"
                  end in
  encrypt crypto message_ None.

(** ** The page: [class AuthenticatorApp] (app.js) *)

(** The properties of the page's elements that [encryptMessage] and
    [updateStatus] read and write.  The page is taken to hold these
    elements, so that no access to them throws. *)
Record elements : Type := {
  messageInput_value : jsstring;
  statusSpan_textContent : jsstring;
  pulse_className : jsstring;
  pulse_background : jsstring;
  pulse_boxShadow : jsstring;
  encryptOutputBox_textContent : jsstring;
  encryptOutputSection_display : jsstring
}.

(** The colour that the [switch] of [updateStatus] picks for a type;
    [None] when no [case] matches. *)
Definition status_colour (type : jsstring) : option jsstring :=
  if jsstring_eqb type (lit "ready") then Some (lit "#00ff88")
  else if jsstring_eqb type (lit "scanning") then Some (lit "#00d4ff")
  else if jsstring_eqb type (lit "processing") then Some (lit "#ffaa00")
  else if jsstring_eqb type (lit "success") then Some (lit "#00ff88")
  else if jsstring_eqb type (lit "error") then Some (lit "#ff4444")
  else if jsstring_eqb type (lit "warning") then Some (lit "#ffaa00")
  else None.

Definition updateStatus (message_ type : jsstring) (els : elements) : elements :=
  {| messageInput_value := messageInput_value els;
     statusSpan_textContent := message_;
     pulse_className := lit "pulse";
     pulse_background := match status_colour type with
                         | Some colour => colour
                         | None => pulse_background els
                         end;
     pulse_boxShadow := match status_colour type with
                        | Some colour => lit "0 0 20px " ++ colour
                        | None => pulse_boxShadow els
                        end;
     encryptOutputBox_textContent := encryptOutputBox_textContent els;
     encryptOutputSection_display := encryptOutputSection_display els |}.

(** The two assignments of [encryptMessage] to the output elements. *)
Definition show_encrypted (encryptedData : jsstring) (els : elements) : elements :=
  {| messageInput_value := messageInput_value els;
     statusSpan_textContent := statusSpan_textContent els;
     pulse_className := pulse_className els;
     pulse_background := pulse_background els;
     pulse_boxShadow := pulse_boxShadow els;
     encryptOutputBox_textContent := encryptedData;
     encryptOutputSection_display := lit "block" |}.

(** [encryptMessage()], on the engine [crypto] of the application.  The
    elements are threaded through; the status written before [encrypt]
    throws is still there when the handler runs. *)
Definition encryptMessage (crypto : CryptoEngine) (els : elements) : M elements :=
  let message_ := trim (messageInput_value els) in
  if (length message_ =? 0)%nat
  then ret (updateStatus (lit "Please enter a message to encrypt") (lit "warning") els)
  else
    let els := updateStatus (lit "Encrypting...") (lit "processing") els in
    try_catch
      (encryptedData <- encrypt crypto message_ None ;;
       let els := show_encrypted encryptedData els in
       ret (updateStatus (lit "Encryption Successful") (lit "success") els))
      (fun error =>
         m <- message error ;;
         ret (updateStatus (lit "Encryption Failed: " ++ m) (lit "error") els)).

(** ** Specification-level definitions

    What the properties below compare the code with, and the sample
    engine and worlds on which they are run. *)

(** The [k] low digits of [n], most significant first. *)
Definition low_digits (radix n : N) (k : nat) : jsstring :=
  map (fun i => digit_char ((n / radix ^ N.of_nat i) mod radix)%N) (rev (seq 0 k)).

(** The hash as the specification words it: a rolling hash with
    [h = (h << 5) - h + charCode] wrapped to 32 signed bits by a modulo,
    then the absolute value as eight hexadecimal digits. *)
Definition spec_wrap32 (x : Z) : Z := (x + 2 ^ 31) mod 2 ^ 32 - 2 ^ 31.

Definition spec_rolling (str : jsstring) : Z :=
  fold_left (fun h c => spec_wrap32 (h * 2 ^ 5 - h + Z.of_N c)) str 0.

Definition spec_hex8 (n : N) : jsstring :=
  map (fun i => digit_char ((n / 16 ^ i) mod 16)%N) [7; 6; 5; 4; 3; 2; 1; 0]%N.

Definition spec_hash (str : jsstring) : jsstring :=
  match str with
  | [] => lit "00000000"
  | _ :: _ => spec_hex8 (Z.to_N (Z.abs (spec_rolling str)))
  end.

Definition lower_hex (c : N) : bool :=
  (((48 <=? c) && (c <=? 57)) || ((97 <=? c) && (c <=? 102)))%N.

(** The sixteen lowercase hexadecimal digits. *)
Definition hex_units : jsstring := lit "0123456789abcdef".

(** The seed followed by the first [m] hash blocks
    [hash(seed + 0)], [hash(seed + 1)], ... *)
Fixpoint spec_stream (seed : jsstring) (m : nat) : jsstring :=
  match m with
  | O => seed
  | S m' => spec_stream seed m' ++ simpleHash (seed ++ toString 10 (Z.of_nat m'))
  end.

Definition xor_unit (d k : N) : N := (N.lxor d k mod 65536)%N.

(** What may follow a number for it to end there. *)
Definition number_end (rest : jsstring) : bool :=
  match rest with
  | [] => true
  | d :: _ => negb (is_digit d || (d =? 46) || (d =? 101) || (d =? 69))%N
  end.

(** The key of window [seed]. *)
Definition time_key (this : CryptoEngine) (seed : Z) : jsstring :=
  simpleHash (masterKey this ++ toString 10 seed).

(** A run only advances the clock position and extends the trace. *)
Definition extends (w w' : world) : Prop :=
  clock w' = clock w /\ host_message w' = host_message w
  /\ (reads w <= reads w')%nat
  /\ exists l, derived w' = derived w ++ l.

Definition preserving {A : Type} (m : M A) : Prop :=
  forall w, extends w (snd (m w)).

Definition sample_world (now : Z) : world :=
  {| clock := fun _ => now; reads := 0;
     host_message := fun _ => lit "The string contains invalid characters.";
     derived := [] |}.

Definition sample_engine : CryptoEngine :=
  new_CryptoEngine (lit "Mozilla/5.0|en-US|412x915|-60|data:image/png;base64,iVBORw0KGgo=").

(** The protocol as the specification words it: try the windows in the
    given order, each after one reading of the clock; the first attempt
    that returns a value decides; when none does, the retries are
    exhausted. *)
Fixpoint first_valid (this : CryptoEngine) (encrypted : jsstring)
    (windows : list Z) (w : world) : outcome value * world :=
  match windows with
  | [] => (Throw exhausted_error, w)
  | W :: rest =>
      match attemptDecrypt this encrypted (Some W) (tick w) with
      | (Return (Some v), w') => (Return v, w')
      | (Return None, w') => first_valid this encrypted rest w'
      | (Throw e, w') => (Throw e, w')
      | (Stuck, w') => (Stuck, w')
      end
  end.

(** The end of [decrypt]: the test after the loop, and the handler. *)
Definition decrypt_finish (decrypted : option value) : M value :=
  match decrypted with
  | Some v =>
      if negb (truthy decrypted)
      then throw (Error (lit "Decryption failed - invalid key or expired data"))
      else ret v
  | None => throw (Error (lit "Decryption failed - invalid key or expired data"))
  end.

Definition decrypt_handler (error : exn) : M value :=
  m <- message error ;;
  throw (Error (lit "Decryption failed: " ++ m)).

Definition sample_payload : jsstring :=
  Eval vm_compute in
    match fst (encrypt sample_engine (lit "hello") None (sample_world 1700000000000)) with
    | Return payload => payload
    | _ => []
    end.

Definition sample_encrypted : jsstring :=
  Eval vm_compute in
    match atob (substring_from 4 sample_payload) with
    | Some encrypted => encrypted
    | None => []
    end.



Definition expired_payload : jsstring :=
  Eval vm_compute in
    match fst (encrypt sample_engine (lit "hello") (Some 5666966)
                 (sample_world 1700000000000)) with
    | Return payload => payload
    | _ => []
    end.

Definition expired_encrypted : jsstring :=
  Eval vm_compute in
    match atob (substring_from 4 expired_payload) with
    | Some encrypted => encrypted
    | None => []
    end.

(** The first eight characters of every serialized envelope: an opening
    brace, the key [msg] in quotation marks, a colon and the quotation
    mark that opens the message. *)
Definition envelope_head : jsstring := [123; 34; 109; 115; 103; 34; 58; 34]%N.

(** The first eight units of a ciphertext, each XORed with the unit of
    [envelope_head] at its position. *)
Definition head_key (encrypted : jsstring) : jsstring :=
  map (fun p => xor_unit (fst p) (snd p)) (combine (firstn 8 encrypted) envelope_head).

(** The eight uppercase hexadecimal digits of [n], most significant
    first. *)
Definition upper_hex8 (n : N) : jsstring :=
  map (fun i => let d := ((n / 16 ^ i) mod 16)%N in
                if (d <? 10)%N then (48 + d)%N else (55 + d)%N)
      [7; 6; 5; 4; 3; 2; 1; 0]%N.

(** An envelope whose [msg] and [ts] are numbers. *)
Definition numeric_envelope (n t : Z) (checksum : jsstring) : value :=
  Object [(lit "msg", Number (Int n));
          (lit "ts", Number (Int t));
          (lit "checksum", Str checksum)].




(** * Properties *)

(** ** 32-bit arithmetic *)

Lemma to_int32_range (x : Z) : - two31 <= to_int32 x < two31.
Proof.
  unfold to_int32, two31, two32.
  pose proof (Z.mod_pos_bound x 4294967296 eq_refl).
  destruct (x mod 4294967296 >=? 2147483648) eqn:E; lia.
Qed.

Lemma to_int32_mod (x : Z) : to_int32 x mod two32 = x mod two32.
Proof.
  unfold to_int32, two31, two32.
  destruct (x mod 4294967296 >=? 2147483648).
  - rewrite Zminus_mod, Z.mod_same, Z.sub_0_r, !Z.mod_mod by lia. reflexivity.
  - apply Z.mod_mod. lia.
Qed.

Lemma to_int32_congr (x y : Z) :
  x mod two32 = y mod two32 -> to_int32 x = to_int32 y.
Proof. unfold to_int32. intros ->. reflexivity. Qed.

Lemma to_int32_idem (x : Z) : - two31 <= x < two31 -> to_int32 x = x.
Proof.
  unfold to_int32, two31, two32. intros H.
  destruct (Z_lt_le_dec x 0).
  - replace (x mod 4294967296) with (x + 4294967296).
    + destruct (x + 4294967296 >=? 2147483648) eqn:E; lia.
    + apply Z.mod_unique with (q := -1); lia.
  - rewrite Z.mod_small by lia.
    destruct (x >=? 2147483648) eqn:E; lia.
Qed.

Lemma band_diag (x : Z) : band x x = to_int32 x.
Proof.
  unfold band. rewrite Z.land_diag.
  apply to_int32_idem, to_int32_range.
Qed.

(** ** Digits *)

Lemma low_digits_length radix n k : length (low_digits radix n k) = k.
Proof. unfold low_digits. rewrite length_map, length_rev, length_seq. reflexivity. Qed.

Lemma low_digits_S radix n k :
  (radix <> 0)%N ->
  low_digits radix n (S k)
  = low_digits radix (n / radix) k ++ [digit_char (n mod radix)%N].
Proof.
  intros Hr. unfold low_digits.
  change (seq 0 (S k)) with (0%nat :: seq 1 k).
  rewrite <- seq_shift. simpl rev. rewrite map_app. simpl.
  rewrite N.div_1_r. f_equal.
  rewrite <- map_rev, map_map. apply map_ext. intros i.
  rewrite Nat2N.inj_succ, N.pow_succ_r', N.Div0.div_div. reflexivity.
Qed.

Lemma low_digits_small radix n k j :
  (n < radix ^ N.of_nat k)%N -> (1 < radix)%N ->
  low_digits radix n (j + k) = repeat 48%N j ++ low_digits radix n k.
Proof.
  intros Hn Hr. unfold low_digits.
  rewrite Nat.add_comm, seq_app, rev_app_distr, map_app. f_equal.
  rewrite map_rev, <- (rev_repeat j 48%N). f_equal.
  assert (Hk : (k <= 0 + k)%nat) by lia. revert Hk.
  generalize (0 + k)%nat.
  induction j as [|j IH]; intros a Ha; [reflexivity |].
  simpl. rewrite IH by lia. f_equal.
  rewrite N.div_small; [rewrite N.Div0.mod_0_l; reflexivity |].
  eapply N.lt_le_trans; [exact Hn |].
  apply N.pow_le_mono_r; lia.
Qed.

(** [digits_from] yields the digits of [n], without leading zero. *)
Lemma digits_from_spec radix (Hr : (1 < radix)%N) fuel :
  forall n acc, (n < radix ^ N.of_nat fuel)%N -> (0 < fuel)%nat ->
  exists k, (1 <= k <= fuel)%nat
            /\ digits_from fuel radix n acc = low_digits radix n k ++ acc
            /\ (n < radix ^ N.of_nat k)%N
            /\ (k = 1%nat \/ (radix ^ N.of_nat (k - 1) <= n)%N).
Proof.
  induction fuel as [|fuel IH]; intros n acc Hn Hf; [lia |].
  simpl. destruct (n / radix =? 0)%N eqn:E.
  - apply N.eqb_eq in E. exists 1%nat. repeat split; try lia.
    + unfold low_digits. simpl. rewrite N.div_1_r. reflexivity.
    + apply N.div_small_iff in E; [|lia].
      change (N.of_nat 1) with 1%N. rewrite N.pow_1_r. exact E.
  - apply N.eqb_neq in E.
    assert (Hq : (n / radix < radix ^ N.of_nat fuel)%N).
    { apply N.Div0.div_lt_upper_bound.
      rewrite Nat2N.inj_succ, N.pow_succ_r' in Hn. exact Hn. }
    destruct fuel as [|fuel'].
    { change (N.of_nat 0) with 0%N in Hq. rewrite N.pow_0_r in Hq.
      apply N.lt_1_r in Hq. contradiction. }
    destruct (IH (n / radix)%N (digit_char (n mod radix) :: acc) Hq) as (k & Hk & Heq & Hlt & Hge);
      [lia |].
    exists (S k). repeat split; try lia.
    + rewrite Heq, low_digits_S by lia. rewrite <- app_assoc. reflexivity.
    + rewrite Nat2N.inj_succ, N.pow_succ_r'.
      pose proof (N.div_mod n radix ltac:(lia)).
      pose proof (N.mod_lt n radix ltac:(lia)).
      nia.
    + right. replace (S k - 1)%nat with k by lia.
      destruct Hge as [-> | Hge].
      * change (N.of_nat 1) with 1%N. rewrite N.pow_1_r.
        destruct (N.le_gt_cases radix n) as [|Hlt']; [assumption |].
        apply N.div_small in Hlt'. contradiction.
      * replace k with (S (k - 1)) at 1 by lia.
        rewrite Nat2N.inj_succ, N.pow_succ_r'.
        pose proof (N.Div0.mul_div_le n radix). nia.
Qed.

Lemma digits_spec radix n (Hr : (1 < radix)%N) :
  exists k, (1 <= k)%nat
            /\ digits radix n = low_digits radix n k
            /\ (n < radix ^ N.of_nat k)%N
            /\ (k = 1%nat \/ (radix ^ N.of_nat (k - 1) <= n)%N).
Proof.
  unfold digits.
  destruct (digits_from_spec radix Hr (S (N.to_nat (N.log2 n))) n []) as (k & Hk & Heq & H);
    [| lia |].
  - rewrite Nat2N.inj_succ, N2Nat.id.
    destruct (N.eq_dec n 0) as [-> | Hn].
    + change (N.succ (N.log2 0)) with 1%N. rewrite N.pow_1_r. lia.
    + eapply N.lt_le_trans; [apply N.log2_spec; lia |].
      apply N.pow_le_mono_l. lia.
  - exists k. rewrite Heq, app_nil_r. repeat split; tauto || lia.
Qed.

(** Padding the digits of [n] to [width] gives its [width] low digits. *)
Lemma padStart_digits radix n width :
  (1 < radix)%N -> (0 < width)%nat -> (n < radix ^ N.of_nat width)%N ->
  padStart width 48%N (digits radix n) = low_digits radix n width.
Proof.
  intros Hr Hw Hn.
  destruct (digits_spec radix n Hr) as (k & Hk & -> & Hlt & Hge).
  assert (Hkw : (k <= width)%nat).
  { destruct Hge as [-> | Hge].
    - lia.
    - destruct (Nat.le_gt_cases k width) as [|Hgt]; [assumption |].
      assert ((radix ^ N.of_nat width <= radix ^ N.of_nat (k - 1))%N)
        by (apply N.pow_le_mono_r; lia).
      lia. }
  unfold padStart. rewrite low_digits_length.
  destruct (k <? width)%nat eqn:E.
  - rewrite <- low_digits_small by assumption. f_equal. apply Nat.ltb_lt in E. lia.
  - apply Nat.ltb_ge in E. f_equal. lia.
Qed.

(** ** The hasher *)

Lemma to_int32_spec (x : Z) : to_int32 x = spec_wrap32 x.
Proof.
  unfold to_int32, spec_wrap32, two31, two32.
  change (2 ^ 31) with 2147483648. change (2 ^ 32) with 4294967296.
  destruct (x mod 4294967296 >=? 2147483648) eqn:E;
    Z.div_mod_to_equations; lia.
Qed.

Lemma hash_step (h : Z) (c : N) :
  band (shl h 5 - h + Z.of_N c) (shl h 5 - h + Z.of_N c)
  = spec_wrap32 (h * 2 ^ 5 - h + Z.of_N c).
Proof.
  rewrite band_diag, <- to_int32_spec. apply to_int32_congr.
  rewrite <- Zplus_mod_idemp_l, <- Zminus_mod_idemp_l.
  rewrite <- (Zplus_mod_idemp_l (h * 2 ^ 5 - h)), <- (Zminus_mod_idemp_l (h * 2 ^ 5)).
  do 3 f_equal.
  unfold shl. rewrite to_int32_mod, Z.shiftl_mul_pow2 by lia.
  rewrite <- Zmult_mod_idemp_l, to_int32_mod, Zmult_mod_idemp_l. reflexivity.
Qed.

Lemma rolling_spec (str : jsstring) (h : Z) :
  fold_left (fun hash char =>
               let hash := (shl hash 5 - hash) + Z.of_N char in band hash hash) str h
  = fold_left (fun h c => spec_wrap32 (h * 2 ^ 5 - h + Z.of_N c)) str h.
Proof.
  revert h. induction str as [|c str IH]; intros h; [reflexivity |].
  simpl. rewrite hash_step. apply IH.
Qed.

Lemma rolling_range (str : jsstring) (h : Z) :
  - two31 <= h < two31 ->
  - two31 <= fold_left (fun h c => spec_wrap32 (h * 2 ^ 5 - h + Z.of_N c)) str h < two31.
Proof.
  revert h. induction str as [|c str IH]; intros h Hh; [exact Hh |].
  simpl. apply IH. rewrite <- to_int32_spec. apply to_int32_range.
Qed.

Lemma spec_hex8_low_digits (n : N) : spec_hex8 n = low_digits 16 n 8.
Proof. reflexivity. Qed.

Lemma simpleHash_spec_hash (str : jsstring) : simpleHash str = spec_hash str.
Proof.
  unfold simpleHash, spec_hash. destruct str as [|c str]; [reflexivity |].
  change (length (c :: str) =? 0)%nat with false. cbv iota.
  rewrite rolling_spec. fold (spec_rolling (c :: str)).
  unfold toString.
  destruct (Z.abs (spec_rolling (c :: str)) <? 0) eqn:E; [lia |].
  rewrite spec_hex8_low_digits. apply padStart_digits; [lia | lia |].
  pose proof (rolling_range (c :: str) 0 ltac:(unfold two31; lia)) as H.
  fold (spec_rolling (c :: str)) in H. unfold two31 in H.
  change (16 ^ N.of_nat 8)%N with 4294967296%N. lia.
Qed.

Lemma spec_hash_length (str : jsstring) : length (spec_hash str) = 8%nat.
Proof. destruct str; reflexivity. Qed.

Lemma digit_char_lower_hex (d : N) : (d < 16)%N -> lower_hex (digit_char d) = true.
Proof.
  intros H. unfold lower_hex, digit_char.
  destruct (d <? 10)%N eqn:E; [apply N.ltb_lt in E | apply N.ltb_ge in E].
  - apply orb_true_iff. left. apply andb_true_iff. split; apply N.leb_le; lia.
  - apply orb_true_iff. right. apply andb_true_iff. split; apply N.leb_le; lia.
Qed.

Lemma simpleHash_length (str : jsstring) : length (simpleHash str) = 8%nat.
Proof. rewrite simpleHash_spec_hash. apply spec_hash_length. Qed.

Lemma simpleHash_lower_hex (str : jsstring) : forallb lower_hex (simpleHash str) = true.
Proof.
  rewrite simpleHash_spec_hash. destruct str as [|c str]; [reflexivity |].
  unfold spec_hash, spec_hex8. apply forallb_forall. intros x Hx.
  apply in_map_iff in Hx. destruct Hx as (i & <- & _).
  apply digit_char_lower_hex, N.mod_lt. lia.
Qed.

(** C6. [simpleHash] hashes the empty string to ["00000000"]; on every
    input it is the 32-bit signed rolling hash [h = (h << 5) - h + charCode]
    of the specification, in absolute value, as exactly eight zero-padded
    lowercase hexadecimal digits. *)
Theorem simpleHash_correct :
  simpleHash [] = lit "00000000"
  /\ forall str : jsstring,
       simpleHash str = spec_hash str
       /\ length (simpleHash str) = 8%nat
       /\ forallb lower_hex (simpleHash str) = true.
Proof.
  split; [reflexivity |].
  intros str. split; [apply simpleHash_spec_hash |].
  split; [apply simpleHash_length | apply simpleHash_lower_hex].
Qed.

(** ** The key stream *)

Lemma expandKey_loop_spec (key : jsstring) (length : nat)
    (expandedKey : jsstring) (counter : Z) :
  forall c : nat,
    expandedKey = spec_stream key c -> counter = Z.of_nat c ->
    (forall j, (j < c)%nat -> (List.length (spec_stream key j) < length)%nat) ->
    exists m : nat,
      expandKey_loop key length expandedKey counter = spec_stream key m
      /\ (length <= List.length (spec_stream key m))%nat
      /\ (forall j, (j < m)%nat -> (List.length (spec_stream key j) < length)%nat).
Proof.
  funelim (expandKey_loop key length expandedKey counter); intros c He Hc Hlt.
  - destruct (H (S c)) as (m & Hm); [| lia | | exists m; exact Hm].
    + subst. reflexivity.
    + intros j Hj. destruct (Nat.eq_dec j c) as [-> | Hne].
      * subst. assumption.
      * apply Hlt. lia.
  - exists c. subst. repeat split; [lia | assumption].
Qed.

Lemma expandKey_loop_length (key : jsstring) (length : nat)
    (expandedKey : jsstring) (counter : Z) :
  (length <= List.length (expandKey_loop key length expandedKey counter))%nat.
Proof.
  funelim (expandKey_loop key length expandedKey counter).
  - assumption.
  - lia.
Qed.

Lemma expandKey_length (key : jsstring) (length : nat) :
  List.length (expandKey key length) = length.
Proof.
  unfold expandKey, substring0. rewrite length_firstn.
  pose proof (expandKey_loop_length key length key 0). lia.
Qed.

(** C7. [expandKey seed length] has exactly [length] code units, and is
    the truncation to [length] of the seed followed by the hash blocks
    [hash(seed + 0)], [hash(seed + 1)], ..., where blocks are appended as
    long as the string is shorter than [length] and no longer. *)
Theorem expandKey_correct (seed : jsstring) (length : nat) :
  List.length (expandKey seed length) = length
  /\ exists m : nat,
       expandKey seed length = firstn length (spec_stream seed m)
       /\ (length <= List.length (spec_stream seed m))%nat
       /\ (forall j, (j < m)%nat -> (List.length (spec_stream seed j) < length)%nat).
Proof.
  split; [apply expandKey_length |].
  destruct (expandKey_loop_spec seed length seed 0 0%nat) as (m & Hm & Hle & Hlt);
    [reflexivity | reflexivity | intros j Hj; lia |].
  exists m. unfold expandKey, substring0. rewrite Hm. auto.
Qed.

(** ** The cipher *)

Lemma lxor_lt_pow2 (a b n : N) :
  (a < 2 ^ n)%N -> (b < 2 ^ n)%N -> (N.lxor a b < 2 ^ n)%N.
Proof.
  intros Ha Hb.
  destruct (N.eq_dec n 0) as [-> | Hn].
  { rewrite N.pow_0_r in *. apply N.lt_1_r in Ha, Hb. subst. reflexivity. }
  assert (Hlog : forall x, (x < 2 ^ n)%N -> (N.log2 x < n)%N).
  { intros x Hx. destruct (N.eq_dec x 0) as [-> | Hne]; [simpl; lia |].
    apply N.log2_lt_pow2; [lia | exact Hx]. }
  destruct (N.eq_dec (N.lxor a b) 0) as [-> | Hne].
  { apply N.neq_0_lt_0, N.pow_nonzero. discriminate. }
  apply N.log2_lt_pow2; [lia |].
  pose proof (N.log2_lxor a b). pose proof (Hlog a Ha). pose proof (Hlog b Hb). lia.
Qed.

Lemma lxor_code_unit (a b : N) : code_unit a -> code_unit b -> code_unit (N.lxor a b).
Proof. apply (lxor_lt_pow2 a b 16). Qed.

Lemma xor_unit_involutive (d k : N) :
  code_unit d -> code_unit k -> xor_unit (xor_unit d k) k = d.
Proof.
  intros Hd Hk. unfold xor_unit.
  rewrite (N.mod_small (N.lxor d k)) by (apply lxor_code_unit; assumption).
  rewrite N.lxor_assoc, N.lxor_nilpotent, N.lxor_0_r.
  apply N.mod_small. exact Hd.
Qed.

Lemma fold_left_snoc {A B : Type} (f : A -> list B) (l : list A) (acc : list B) :
  fold_left (fun result i => result ++ f i) l acc = acc ++ concat (map f l).
Proof.
  revert acc. induction l as [|a l IH]; intros acc; simpl.
  - rewrite app_nil_r. reflexivity.
  - rewrite IH, app_assoc. reflexivity.
Qed.

Lemma concat_map_singleton {A B : Type} (g : A -> B) (l : list A) :
  concat (map (fun i => [g i]) l) = map g l.
Proof. induction l as [|a l IH]; simpl; [reflexivity | rewrite IH; reflexivity]. Qed.

Lemma map_seq_combine {A : Type} (F : option N -> option N -> A) (data ek : jsstring) :
  length ek = length data ->
  forall a,
    map (fun i => F (nth_error data (i - a)) (nth_error ek (i - a))) (seq a (length data))
    = map (fun p => F (Some (fst p)) (Some (snd p))) (combine data ek).
Proof.
  revert ek. induction data as [|d data IH]; intros ek Hlen a; [reflexivity |].
  destruct ek as [|k ek]; [discriminate |].
  simpl. rewrite Nat.sub_diag. simpl. f_equal.
  rewrite <- (IH ek ltac:(simpl in Hlen; lia) (S a)).
  apply map_ext_in. intros i Hi. apply in_seq in Hi.
  replace (i - a)%nat with (S (i - S a)) by lia. reflexivity.
Qed.

(** [xorCipher] is the unit-wise XOR of the data with the expanded key. *)
Lemma xorCipher_combine (data key : jsstring) :
  xorCipher data key
  = map (fun p => xor_unit (fst p) (snd p)) (combine data (expandKey key (length data))).
Proof.
  unfold xorCipher.
  rewrite (fold_left_snoc
             (fun i => fromCharCode
                         (bitxor (charCodeAt data i)
                                 (charCodeAt (expandKey key (length data))
                                    (i mod length (expandKey key (length data)))%nat)))).
  simpl app.
  rewrite <- (map_seq_combine (fun a b => xor_unit (match a with Some x => x | None => 0%N end)
                                                    (match b with Some y => y | None => 0%N end))
                data (expandKey key (length data)) (expandKey_length key (length data)) 0).
  unfold fromCharCode. rewrite concat_map_singleton.
  apply map_ext_in. intros i Hi. apply in_seq in Hi.
  rewrite expandKey_length, Nat.mod_small, Nat.sub_0_r by lia.
  reflexivity.
Qed.

Lemma xorCipher_length (data key : jsstring) :
  length (xorCipher data key) = length data.
Proof.
  rewrite xorCipher_combine, length_map, length_combine, expandKey_length.
  apply Nat.min_id.
Qed.

Lemma xor_combine_involutive (data ek : jsstring) :
  code_units data -> code_units ek -> length ek = length data ->
  map (fun p => xor_unit (fst p) (snd p))
      (combine (map (fun p => xor_unit (fst p) (snd p)) (combine data ek)) ek)
  = data.
Proof.
  intros Hd. revert ek. induction Hd as [|d data Hd _ IH]; intros ek Hk Hlen.
  - reflexivity.
  - destruct Hk as [|k ek Hk Hek]; [discriminate |].
    simpl. rewrite xor_unit_involutive by assumption. f_equal.
    apply IH; [assumption | simpl in Hlen; lia].
Qed.

Lemma lower_hex_code_unit (c : N) : lower_hex c = true -> code_unit c.
Proof.
  unfold lower_hex, code_unit. intros H.
  apply orb_true_iff in H. destruct H as [H | H];
    apply andb_true_iff in H; destruct H as [_ H]; apply N.leb_le in H; lia.
Qed.

Lemma simpleHash_Forall (P : N -> Prop) (str : jsstring) :
  (forall c, lower_hex c = true -> P c) -> Forall P (simpleHash str).
Proof.
  intros HP. apply Forall_forall. intros c Hc. apply HP.
  pose proof (simpleHash_lower_hex str) as H.
  rewrite forallb_forall in H. apply H, Hc.
Qed.

Lemma expandKey_loop_Forall (P : N -> Prop) (key : jsstring) (length : nat)
    (expandedKey : jsstring) (counter : Z) :
  (forall c, lower_hex c = true -> P c) ->
  Forall P expandedKey ->
  Forall P (expandKey_loop key length expandedKey counter).
Proof.
  intros HP.
  funelim (expandKey_loop key length expandedKey counter); intros He.
  - apply H; [exact HP |].
    apply Forall_app. split; [exact He | apply simpleHash_Forall, HP].
  - exact He.
Qed.

Lemma expandKey_Forall (P : N -> Prop) (key : jsstring) (length : nat) :
  (forall c, lower_hex c = true -> P c) ->
  Forall P key -> Forall P (expandKey key length).
Proof.
  intros HP Hk. unfold expandKey, substring0.
  pose proof (expandKey_loop_Forall P key length key 0 HP Hk) as H.
  rewrite <- (firstn_skipn length) in H. apply Forall_app in H. exact (proj1 H).
Qed.

Lemma expandKey_code_units (key : jsstring) (length : nat) :
  code_units key -> code_units (expandKey key length).
Proof. apply expandKey_Forall. exact lower_hex_code_unit. Qed.

(** C8. The cipher is an involution: on strings of 16-bit code units,
    applying [xorCipher] twice with the same key gives the data back. *)
Theorem xorCipher_involutive (data key : jsstring) :
  code_units data -> code_units key ->
  xorCipher (xorCipher data key) key = data.
Proof.
  intros Hd Hk.
  rewrite (xorCipher_combine (xorCipher data key)), xorCipher_length.
  rewrite xorCipher_combine.
  apply xor_combine_involutive;
    [exact Hd | apply expandKey_code_units, Hk | apply expandKey_length].
Qed.

Lemma xorCipher_involutive_witness :
  code_units (lit "hello") /\ code_units (lit "k3y")
  /\ xorCipher (xorCipher (lit "hello") (lit "k3y")) (lit "k3y") = lit "hello".
Proof.
  assert (Hd : code_units (lit "hello")) by (repeat constructor).
  assert (Hk : code_units (lit "k3y")) by (repeat constructor).
  split; [exact Hd |]. split; [exact Hk |].
  apply (xorCipher_involutive (lit "hello") (lit "k3y") Hd Hk).
Defined.

(** ** Base64 *)

Ltac Zify.zify_post_hook ::= Z.to_euclidean_division_equations.

Lemma below_64_cases (f : N -> bool) :
  forallb f (map N.of_nat (seq 0 64)) = true -> forall n, (n < 64)%N -> f n = true.
Proof.
  intros H n Hn. rewrite forallb_forall in H. apply H.
  apply in_map_iff. exists (N.to_nat n). split; [apply N2Nat.id |].
  apply in_seq. lia.
Qed.

Lemma b64_value_char (n : N) : (n < 64)%N -> b64_value (b64_char n) = Some n.
Proof.
  intros Hn.
  pose proof (below_64_cases
                (fun n => match b64_value (b64_char n) with
                          | Some m => N.eqb m n
                          | None => false
                          end) eq_refl n Hn) as H.
  cbv beta in H.
  destruct (b64_value (b64_char n)); [apply N.eqb_eq in H; congruence | discriminate].
Qed.

Lemma b64_char_plain (n : N) :
  (n < 64)%N -> ascii_whitespace (b64_char n) = false /\ (b64_char n =? 61)%N = false.
Proof.
  intros Hn.
  pose proof (below_64_cases
                (fun n => negb (ascii_whitespace (b64_char n)) && negb (b64_char n =? 61)%N)
                eq_refl n Hn) as H.
  cbv beta in H.
  apply andb_true_iff in H. destruct H as [H1 H2].
  apply negb_true_iff in H1. apply negb_true_iff in H2. auto.
Qed.

Lemma sextet1 (a : N) : (a < 256)%N -> (a / 4 < 64)%N.
Proof. lia. Qed.

Lemma sextet2 (a b : N) : (b < 256)%N -> ((a mod 4) * 16 + b / 16 < 64)%N.
Proof. lia. Qed.

Lemma sextet3 (b c : N) : (c < 256)%N -> ((b mod 16) * 4 + c / 64 < 64)%N.
Proof. lia. Qed.

Lemma sextet4 (c : N) : (c mod 64 < 64)%N.
Proof. lia. Qed.

Lemma sextet2_0 (a : N) : ((a mod 4) * 16 < 64)%N.
Proof. lia. Qed.

Lemma sextet3_0 (b : N) : ((b mod 16) * 4 < 64)%N.
Proof. lia. Qed.

Lemma decode4_encode (a b c : N) :
  (a < 256)%N -> (b < 256)%N -> (c < 256)%N ->
  decode4 (b64_char (a / 4)) (b64_char ((a mod 4) * 16 + b / 16))
          (b64_char ((b mod 16) * 4 + c / 64)) (b64_char (c mod 64))
  = Some [a; b; c].
Proof.
  intros Ha Hb Hc. unfold decode4.
  rewrite (b64_value_char _ (sextet1 a Ha)), (b64_value_char _ (sextet2 a b Hb)),
    (b64_value_char _ (sextet3 b c Hc)), (b64_value_char _ (sextet4 c)).
  do 2 f_equal; [lia | f_equal; [lia | f_equal; lia]].
Qed.

Lemma decode3_encode (a b : N) :
  (a < 256)%N -> (b < 256)%N ->
  decode3 (b64_char (a / 4)) (b64_char ((a mod 4) * 16 + b / 16))
          (b64_char ((b mod 16) * 4))
  = Some [a; b].
Proof.
  intros Ha Hb. unfold decode3.
  rewrite (b64_value_char _ (sextet1 a Ha)), (b64_value_char _ (sextet2 a b Hb)),
    (b64_value_char _ (sextet3_0 b)).
  do 2 f_equal; [lia | f_equal; lia].
Qed.

Lemma decode2_encode (a : N) :
  (a < 256)%N ->
  decode2 (b64_char (a / 4)) (b64_char ((a mod 4) * 16)) = Some [a].
Proof.
  intros Ha. unfold decode2.
  rewrite (b64_value_char _ (sextet1 a Ha)), (b64_value_char _ (sextet2_0 a)).
  do 2 f_equal. lia.
Qed.

Lemma list_ind3 {A : Type} (P : list A -> Prop) :
  P [] -> (forall a, P [a]) -> (forall a b, P [a; b]) ->
  (forall a b c rest, P rest -> P (a :: b :: c :: rest)) ->
  forall l, P l.
Proof.
  intros H0 H1 H2 H3.
  fix IH 1. intros [|a [|b [|c rest]]];
    [apply H0 | apply H1 | apply H2 | apply H3, IH].
Qed.

Lemma latin1_cons (c : N) (s : jsstring) : latin1 (c :: s) -> (c < 256)%N /\ latin1 s.
Proof. intros H. inversion H; auto. Qed.

Lemma btoa_chunks_nil (s : jsstring) : btoa_chunks s = [] -> s = [].
Proof. destruct s as [|a [|b [|c rest]]]; simpl; congruence. Qed.

Lemma btoa_chunks_plain (s : jsstring) :
  latin1 s -> filter (fun c => negb (ascii_whitespace c)) (btoa_chunks s) = btoa_chunks s.
Proof.
  induction s as [| a | a b | a b c rest IH] using list_ind3; intros H.
  - reflexivity.
  - apply latin1_cons in H. destruct H as [Ha _].
    cbn [btoa_chunks filter].
    rewrite (proj1 (b64_char_plain _ (sextet1 a Ha))).
    rewrite (proj1 (b64_char_plain _ (sextet2_0 a))).
    reflexivity.
  - apply latin1_cons in H. destruct H as [Ha H].
    apply latin1_cons in H. destruct H as [Hb _].
    cbn [btoa_chunks filter].
    rewrite (proj1 (b64_char_plain _ (sextet1 a Ha))).
    rewrite (proj1 (b64_char_plain _ (sextet2 a b Hb))).
    rewrite (proj1 (b64_char_plain _ (sextet3_0 b))).
    reflexivity.
  - apply latin1_cons in H. destruct H as [Ha H].
    apply latin1_cons in H. destruct H as [Hb H].
    apply latin1_cons in H. destruct H as [Hc H].
    cbn [btoa_chunks filter].
    rewrite (proj1 (b64_char_plain _ (sextet1 a Ha))).
    rewrite (proj1 (b64_char_plain _ (sextet2 a b Hb))).
    rewrite (proj1 (b64_char_plain _ (sextet3 b c Hc))).
    rewrite (proj1 (b64_char_plain _ (sextet4 c))).
    cbn [negb]. rewrite (IH H). reflexivity.
Qed.

Lemma atob_chunks_btoa_chunks (s : jsstring) :
  latin1 s -> atob_chunks (btoa_chunks s) = Some s.
Proof.
  induction s as [| a | a b | a b c rest IH] using list_ind3; intros H.
  - reflexivity.
  - apply latin1_cons in H. destruct H as [Ha _].
    cbn [btoa_chunks atob_chunks]. change (61 =? 61)%N with true. cbv iota.
    apply decode2_encode, Ha.
  - apply latin1_cons in H. destruct H as [Ha H].
    apply latin1_cons in H. destruct H as [Hb _].
    cbn [btoa_chunks atob_chunks]. change (61 =? 61)%N with true. cbv iota.
    rewrite (proj2 (b64_char_plain _ (sextet3_0 b))).
    apply decode3_encode; assumption.
  - apply latin1_cons in H. destruct H as [Ha H].
    apply latin1_cons in H. destruct H as [Hb H].
    apply latin1_cons in H. destruct H as [Hc H].
    cbn [btoa_chunks atob_chunks].
    rewrite (decode4_encode a b c Ha Hb Hc).
    destruct (btoa_chunks rest) as [|x xs] eqn:E.
    + apply btoa_chunks_nil in E. subst rest.
      rewrite (proj2 (b64_char_plain _ (sextet4 c))). reflexivity.
    + rewrite (IH H). reflexivity.
Qed.

Lemma latin1b_true (s : jsstring) : latin1b s = true <-> latin1 s.
Proof.
  unfold latin1b, latin1. rewrite forallb_forall, Forall_forall.
  split; intros H c Hc; [apply N.ltb_lt | apply N.ltb_lt]; auto.
Qed.

(** [atob] undoes [btoa]. *)
Lemma atob_btoa (s encoded : jsstring) : btoa s = Some encoded -> atob encoded = Some s.
Proof.
  unfold btoa, atob. destruct (latin1b s) eqn:E; [|discriminate].
  intros [= <-]. apply latin1b_true in E.
  rewrite btoa_chunks_plain by exact E.
  apply atob_chunks_btoa_chunks, E.
Qed.

(** ** JSON: strings *)

Lemma hex_value_digit_char (d : N) : (d < 16)%N -> hex_value (digit_char d) = Some d.
Proof.
  intros Hd. unfold hex_value, digit_char, is_digit.
  destruct (d <? 10)%N eqn:E; [apply N.ltb_lt in E | apply N.ltb_ge in E].
  - replace ((48 <=? 48 + d) && (48 + d <=? 57))%N with true.
    + f_equal. lia.
    + symmetry. apply andb_true_iff. split; apply N.leb_le; lia.
  - replace ((48 <=? 87 + d) && (87 + d <=? 57))%N with false.
    + replace ((97 <=? 87 + d) && (87 + d <=? 102))%N with true.
      * f_equal. lia.
      * symmetry. apply andb_true_iff. split; apply N.leb_le; lia.
    + symmetry. apply andb_false_iff. right. apply N.leb_gt. lia.
Qed.

Lemma unicode_escape_digits (c : N) :
  code_unit c ->
  unicode_escape c
  = [92; 117; digit_char ((c / 4096) mod 16); digit_char ((c / 256) mod 16);
     digit_char ((c / 16) mod 16); digit_char (c mod 16)]%N.
Proof.
  intros Hc. unfold unicode_escape.
  rewrite padStart_digits by (try lia; exact Hc).
  unfold low_digits. simpl. rewrite N.div_1_r. reflexivity.
Qed.

Lemma parse_unicode_escape (c : N) (s : jsstring) :
  code_unit c ->
  parse_string_body (unicode_escape c ++ s)
  = match parse_string_body s with
    | Some (str, r) => Some (c :: str, r)
    | None => None
    end.
Proof.
  intros Hc. rewrite unicode_escape_digits by exact Hc.
  cbn [app parse_string_body].
  change (92 =? 34)%N with false. change (92 =? 92)%N with true.
  change (117 =? 117)%N with true. cbv iota.
  rewrite !hex_value_digit_char by (apply N.mod_lt; discriminate).
  replace ((((c / 4096) mod 16 * 16 + (c / 256) mod 16) * 16 + (c / 16) mod 16) * 16
           + c mod 16)%N with c; [reflexivity |].
  unfold code_unit in Hc. lia.
Qed.

Lemma latin1_not_surrogate (c : N) :
  (c < 256)%N -> is_high_surrogate c = false /\ is_low_surrogate c = false.
Proof.
  intros Hc. unfold is_high_surrogate, is_low_surrogate.
  split; apply andb_false_iff; left; apply N.leb_gt; lia.
Qed.

Lemma parse_string_body_quote (m rest : jsstring) :
  latin1 m -> parse_string_body (quote_body m ++ 34%N :: rest) = Some (m, rest).
Proof.
  induction m as [|c m IH]; intros H; [reflexivity |].
  apply latin1_cons in H. destruct H as [Hc H]. specialize (IH H).
  cbn [quote_body].
  destruct (c =? 8)%N eqn:E8;
    [apply N.eqb_eq in E8; subst c; cbn; rewrite IH; reflexivity |].
  destruct (c =? 9)%N eqn:E9;
    [apply N.eqb_eq in E9; subst c; cbn; rewrite IH; reflexivity |].
  destruct (c =? 10)%N eqn:E10;
    [apply N.eqb_eq in E10; subst c; cbn; rewrite IH; reflexivity |].
  destruct (c =? 12)%N eqn:E12;
    [apply N.eqb_eq in E12; subst c; cbn; rewrite IH; reflexivity |].
  destruct (c =? 13)%N eqn:E13;
    [apply N.eqb_eq in E13; subst c; cbn; rewrite IH; reflexivity |].
  destruct (c =? 34)%N eqn:E34;
    [apply N.eqb_eq in E34; subst c; cbn; rewrite IH; reflexivity |].
  destruct (c =? 92)%N eqn:E92;
    [apply N.eqb_eq in E92; subst c; cbn; rewrite IH; reflexivity |].
  destruct (c <? 32)%N eqn:E32.
  - rewrite <- app_assoc, parse_unicode_escape, IH; [reflexivity |].
    unfold code_unit. lia.
  - destruct (latin1_not_surrogate c Hc) as [-> ->].
    cbn [app parse_string_body]. rewrite E34, E92, E32, IH. reflexivity.
Qed.

(** ** JSON: numbers *)

Lemma digit_char_decimal (d : N) :
  (d < 10)%N ->
  is_digit (digit_char d) = true /\ (digit_char d - 48 = d)%N
  /\ ((digit_char d =? 45)%N = false) /\ ((digit_char d =? 48)%N = (d =? 0)%N).
Proof.
  intros Hd. unfold digit_char, is_digit.
  replace (d <? 10)%N with true by (symmetry; apply N.ltb_lt; exact Hd).
  repeat split.
  - apply andb_true_iff. split; apply N.leb_le; lia.
  - lia.
  - apply N.eqb_neq. lia.
  - destruct (N.eqb_spec d 0) as [-> | Hne]; [reflexivity | apply N.eqb_neq; lia].
Qed.

Lemma low_digits_decimal (n : N) (k : nat) :
  forallb is_digit (low_digits 10 n k) = true.
Proof.
  unfold low_digits. apply forallb_forall. intros c Hc.
  apply in_map_iff in Hc. destruct Hc as (i & <- & _).
  apply digit_char_decimal, N.mod_lt. discriminate.
Qed.

Lemma span_digits_app (ds rest : jsstring) :
  forallb is_digit ds = true ->
  match rest with [] => True | d :: _ => is_digit d = false end ->
  span_digits (ds ++ rest) = (ds, rest).
Proof.
  intros Hds Hrest. induction ds as [|c ds IH]; cbn [app span_digits].
  - destruct rest as [|d rest]; [reflexivity |].
    cbn [span_digits]. rewrite Hrest. reflexivity.
  - cbn [forallb] in Hds. apply andb_true_iff in Hds. destruct Hds as [-> Hds].
    rewrite (IH Hds). reflexivity.
Qed.

Lemma digits_value_snoc (ds : jsstring) (c : N) :
  digits_value (ds ++ [c]) = (digits_value ds * 10 + (c - 48))%N.
Proof. unfold digits_value. rewrite fold_left_app. reflexivity. Qed.

Lemma digits_value_low_digits (k : nat) :
  forall n, (n < 10 ^ N.of_nat k)%N -> digits_value (low_digits 10 n k) = n.
Proof.
  induction k as [|k IH]; intros n Hn.
  - change (N.of_nat 0) with 0%N in Hn. rewrite N.pow_0_r in Hn.
    apply N.lt_1_r in Hn. subst n. reflexivity.
  - rewrite low_digits_S, digits_value_snoc by discriminate.
    rewrite Nat2N.inj_succ, N.pow_succ_r' in Hn.
    rewrite IH by (apply N.Div0.div_lt_upper_bound; exact Hn).
    destruct (digit_char_decimal (n mod 10)%N) as (_ & -> & _);
      [apply N.mod_lt; discriminate |].
    lia.
Qed.

Lemma low_digits_head (radix n : N) (k : nat) :
  low_digits radix n (S k)
  = digit_char ((n / radix ^ N.of_nat k) mod radix)%N :: low_digits radix n k.
Proof. unfold low_digits. rewrite seq_S, rev_app_distr. reflexivity. Qed.

(** The decimal digits of [n]: a first digit, which is [0] only for
    [n = 0], and the digits after it. *)
Lemma digits_decimal (n : N) :
  exists c tail,
    digits 10 n = c :: tail
    /\ is_digit c = true
    /\ (c =? 45)%N = false
    /\ ((c =? 48)%N = true -> tail = [])
    /\ forallb is_digit tail = true
    /\ digits_value (c :: tail) = n.
Proof.
  destruct (digits_spec 10 n eq_refl) as (k & Hk & Heq & Hlt & Hge).
  destruct k as [|k]; [lia |].
  rewrite low_digits_head in Heq.
  exists (digit_char ((n / 10 ^ N.of_nat k) mod 10)%N), (low_digits 10 n k).
  destruct (digit_char_decimal ((n / 10 ^ N.of_nat k) mod 10)%N) as (H1 & H2 & H3 & H4);
    [apply N.mod_lt; discriminate |].
  repeat split; try assumption.
  - rewrite H4. intros H0. apply N.eqb_eq in H0.
    destruct Hge as [Hk1 | Hge].
    + injection Hk1 as ->. reflexivity.
    + exfalso. replace (S k - 1)%nat with k in Hge by lia.
      rewrite Nat2N.inj_succ, N.pow_succ_r' in Hlt.
      assert (Hpos : (0 < 10 ^ N.of_nat k)%N)
        by (apply N.neq_0_lt_0, N.pow_nonzero; discriminate).
      assert (Hq : (n / 10 ^ N.of_nat k < 10)%N)
        by (apply N.Div0.div_lt_upper_bound; lia).
      rewrite N.mod_small in H0 by exact Hq.
      apply N.div_small_iff in H0; lia.
  - apply low_digits_decimal.
  - rewrite <- low_digits_head. apply digits_value_low_digits. exact Hlt.
Qed.

Lemma number_end_cases (rest : jsstring) :
  number_end rest = true ->
  match rest with
  | [] => True
  | d :: _ => is_digit d = false /\ (d =? 46)%N = false
              /\ (d =? 101)%N = false /\ (d =? 69)%N = false
  end.
Proof.
  destruct rest as [|d rest]; [trivial |].
  unfold number_end. intros H. apply negb_true_iff in H.
  repeat (apply orb_false_iff in H; destruct H as [H ?]). auto.
Qed.

Lemma parse_int_digits (n : N) (rest : jsstring) :
  number_end rest = true ->
  parse_int (digits 10 n ++ rest) = Some (digits 10 n, rest)
  /\ digits_value (digits 10 n) = n
  /\ exists c tail, digits 10 n = c :: tail /\ (c =? 45)%N = false.
Proof.
  intros Hend. apply number_end_cases in Hend.
  destruct (digits_decimal n) as (c & tail & -> & Hc & H45 & H48 & Htail & Hval).
  split; [| split; [exact Hval | eauto]].
  cbn [app parse_int]. rewrite Hc. cbn [negb].
  destruct (c =? 48)%N eqn:E.
  - rewrite (H48 eq_refl). reflexivity.
  - rewrite span_digits_app; [reflexivity | exact Htail |].
    destruct rest; [trivial | tauto].
Qed.

Lemma parse_frac_end (rest : jsstring) :
  number_end rest = true -> parse_frac rest = Some ([], rest).
Proof.
  intros Hend. apply number_end_cases in Hend.
  destruct rest as [|d rest]; [reflexivity |].
  destruct Hend as (_ & H & _). unfold parse_frac. rewrite H. reflexivity.
Qed.

Lemma parse_exp_end (rest : jsstring) :
  number_end rest = true -> parse_exp rest = Some ([], rest).
Proof.
  intros Hend. apply number_end_cases in Hend.
  destruct rest as [|d rest]; [reflexivity |].
  destruct Hend as (_ & _ & H1 & H2). unfold parse_exp. rewrite H1, H2. reflexivity.
Qed.

(** [JSON.parse] reads back the integers that [toString] prints. *)
Lemma parse_number_toString (z : Z) (rest : jsstring) :
  Z.abs z <= two53 -> number_end rest = true ->
  parse_number (toString 10 z ++ rest) = Some (Int z, rest).
Proof.
  intros Hz Hend. unfold toString, parse_number.
  destruct (z <? 0) eqn:Hneg; [apply Z.ltb_lt in Hneg | apply Z.ltb_ge in Hneg].
  - cbn [app parse_sign]. change (45 =? 45)%N with true. cbv iota.
    destruct (parse_int_digits (Z.to_N (- z)) rest Hend) as (-> & Hval & _).
    rewrite (parse_frac_end rest Hend), (parse_exp_end rest Hend).
    unfold number_of_literal. rewrite Hval, Z2N.id by lia.
    replace (- z <=? two53) with true by (symmetry; apply Z.leb_le; lia).
    rewrite Z.opp_involutive. reflexivity.
  - destruct (parse_int_digits (Z.to_N z) rest Hend) as (Hint & Hval & c & tail & Hd & H45).
    assert (Hsign : parse_sign (digits 10 (Z.to_N z) ++ rest)
                    = ([], digits 10 (Z.to_N z) ++ rest)).
    { rewrite Hd. cbn [app parse_sign]. rewrite H45. reflexivity. }
    rewrite Hsign, Hint.
    rewrite (parse_frac_end rest Hend), (parse_exp_end rest Hend).
    unfold number_of_literal. rewrite Hval, Z2N.id by lia.
    replace (z <=? two53) with true by (symmetry; apply Z.leb_le; lia).
    reflexivity.
Qed.

(** ** JSON: values *)

Lemma parse_value_string (fuel : nat) (m rest : jsstring) :
  latin1 m ->
  parse_value (S fuel) (quote m ++ rest) = Ok (Str m) rest.
Proof.
  intros Hm. unfold quote. cbn [app parse_value skip_ws].
  change (json_whitespace 34) with false. cbv iota.
  change (34 =? 34)%N with true. cbv iota.
  rewrite <- app_assoc. cbn [app].
  rewrite parse_string_body_quote by exact Hm. reflexivity.
Qed.

Lemma toString_head (z : Z) :
  exists c tail, toString 10 z = c :: tail
                 /\ (is_digit c = true \/ c = 45%N).
Proof.
  unfold toString. destruct (z <? 0).
  - eauto.
  - destruct (digits_decimal (Z.to_N z)) as (c & tail & -> & Hc & _). eauto.
Qed.

Lemma parse_value_number (fuel : nat) (z : Z) (rest : jsstring) :
  Z.abs z <= two53 -> number_end rest = true ->
  parse_value (S fuel) (toString 10 z ++ rest) = Ok (Number (Int z)) rest.
Proof.
  intros Hz Hend.
  pose proof (parse_number_toString z rest Hz Hend) as Hnum.
  destruct (toString_head z) as (c & tail & Heq & Hc).
  rewrite Heq in *. cbn [app] in *. cbn [parse_value skip_ws].
  assert (Hclass : json_whitespace c = false /\ (c =? 34)%N = false
                   /\ (c =? 123)%N = false /\ (c =? 91)%N = false
                   /\ (c =? 116)%N = false /\ (c =? 102)%N = false
                   /\ (c =? 110)%N = false).
  { destruct Hc as [Hc | ->]; [| repeat split; reflexivity].
    unfold is_digit in Hc. apply andb_true_iff in Hc. destruct Hc as [H1 H2].
    apply N.leb_le in H1. apply N.leb_le in H2.
    unfold json_whitespace.
    repeat split; repeat (apply orb_false_iff; split); apply N.eqb_neq; lia. }
  destruct Hclass as (-> & -> & -> & -> & -> & -> & ->).
  rewrite Hnum. reflexivity.
Qed.

Lemma parse_members_cons (fuel : nat) (key text more : jsstring) (v : value)
    (ms : list (jsstring * value)) (r : jsstring) :
  latin1 key ->
  parse_value fuel (text ++ 44%N :: more) = Ok v (44%N :: more) ->
  parse_members fuel more = Ok ms r ->
  parse_members (S fuel) (quote key ++ 58%N :: text ++ 44%N :: more)
  = Ok ((key, v) :: ms) r.
Proof.
  intros Hkey Hv Hms. unfold quote. cbn [app parse_members skip_ws].
  change (json_whitespace 34) with false. cbv iota.
  change (negb (34 =? 34)%N) with false. cbv iota.
  rewrite <- app_assoc. cbn [app].
  rewrite parse_string_body_quote by exact Hkey.
  cbn [skip_ws]. change (json_whitespace 58) with false. cbv iota.
  change (negb (58 =? 58)%N) with false. cbv iota.
  rewrite Hv. cbn [skip_ws]. change (json_whitespace 44) with false. cbv iota.
  change (44 =? 44)%N with true. cbv iota.
  rewrite Hms. reflexivity.
Qed.

Lemma parse_members_last (fuel : nat) (key text more : jsstring) (v : value) :
  latin1 key ->
  parse_value fuel (text ++ 125%N :: more) = Ok v (125%N :: more) ->
  parse_members (S fuel) (quote key ++ 58%N :: text ++ 125%N :: more)
  = Ok [(key, v)] more.
Proof.
  intros Hkey Hv. unfold quote. cbn [app parse_members skip_ws].
  change (json_whitespace 34) with false. cbv iota.
  change (negb (34 =? 34)%N) with false. cbv iota.
  rewrite <- app_assoc. cbn [app].
  rewrite parse_string_body_quote by exact Hkey.
  cbn [skip_ws]. change (json_whitespace 58) with false. cbv iota.
  change (negb (58 =? 58)%N) with false. cbv iota.
  rewrite Hv. cbn [skip_ws]. change (json_whitespace 125) with false. cbv iota.
  change (125 =? 44)%N with false. change (125 =? 125)%N with true. cbv iota.
  reflexivity.
Qed.

Lemma parse_value_object (fuel : nat) (key rest r : jsstring)
    (ms : list (jsstring * value)) :
  parse_members fuel (quote key ++ rest) = Ok ms r ->
  parse_value (S fuel) (123%N :: quote key ++ rest) = Ok (Object ms) r.
Proof.
  intros Hms. cbn [parse_value skip_ws].
  change (json_whitespace 123) with false. cbv iota.
  change (123 =? 34)%N with false. change (123 =? 123)%N with true. cbv iota.
  unfold quote in *. cbn [app skip_ws] in *.
  change (json_whitespace 34) with false. cbv iota.
  change (34 =? 125)%N with false. cbv iota.
  rewrite Hms. reflexivity.
Qed.

Lemma latin1_lit (s : String.string) : latin1 (lit s).
Proof.
  unfold lit, latin1. apply Forall_forall. intros c Hc.
  apply in_map_iff in Hc. destruct Hc as (a & <- & _).
  apply Ascii.N_ascii_bounded.
Qed.

Lemma lower_hex_latin1 (s : jsstring) : forallb lower_hex s = true -> latin1 s.
Proof.
  intros H. rewrite forallb_forall in H. apply Forall_forall. intros c Hc.
  specialize (H c Hc). unfold lower_hex in H.
  apply orb_true_iff in H. destruct H as [H | H];
    apply andb_true_iff in H; destruct H as [_ H]; apply N.leb_le in H; lia.
Qed.

Lemma simpleHash_latin1 (str : jsstring) : latin1 (simpleHash str).
Proof. apply lower_hex_latin1, simpleHash_lower_hex. Qed.

(** The text of an envelope. *)
Lemma stringify_envelope (m : jsstring) (t sd : Z) :
  JSON_stringify (envelope m t sd)
  = 123%N :: quote (lit "msg") ++ 58%N :: quote m ++ 44%N ::
      quote (lit "ts") ++ 58%N :: toString 10 t ++ 44%N ::
      quote (lit "seed") ++ 58%N :: toString 10 sd ++ 44%N ::
      quote (lit "checksum") ++ 58%N :: quote (simpleHash (m ++ toString 10 t))
      ++ 125%N :: [].
Proof.
  unfold envelope.
  cbn [JSON_stringify map join fst snd].
  change (lit "{") with [123%N]. change (lit "}") with [125%N].
  change (lit ",") with [44%N]. change (lit ":") with [58%N].
  repeat (rewrite <- ?app_assoc; cbn [app]).
  reflexivity.
Qed.

(** [JSON.parse] reads back the envelope that [JSON.stringify] wrote. *)
Lemma parse_text_envelope (m : jsstring) (t sd : Z) :
  latin1 m -> Z.abs t <= two53 -> Z.abs sd <= two53 ->
  parse_text (JSON_stringify (envelope m t sd)) = Ok (envelope m t sd) [].
Proof.
  intros Hm Ht Hsd. unfold parse_text.
  rewrite stringify_envelope.
  set (text := (123%N :: _)).
  assert (Hfuel : exists f, (2 * length text + 2 = 6 + f)%nat).
  { exists (2 * length text - 4)%nat.
    assert (2 <= length text)%nat by (subst text; unfold quote at 1; cbn [length app]; lia).
    lia. }
  destruct Hfuel as (f & ->). subst text.
  change (6 + f)%nat with (S (S (S (S (S (S f)))))).
  rewrite parse_value_object with (ms := [(lit "msg", Str m);
      (lit "ts", Number (Int t)); (lit "seed", Number (Int sd));
      (lit "checksum", Str (simpleHash (m ++ toString 10 t)))]) (r := []).
  - reflexivity.
  - apply parse_members_cons; [apply latin1_lit | apply parse_value_string, Hm |].
    apply parse_members_cons;
      [apply latin1_lit | apply parse_value_number; [exact Ht | reflexivity] |].
    apply parse_members_cons;
      [apply latin1_lit | apply parse_value_number; [exact Hsd | reflexivity] |].
    apply parse_members_last; [apply latin1_lit |].
    apply parse_value_string, simpleHash_latin1.
Qed.

(** ** The parser never runs out of fuel *)

Lemma skip_ws_length (s : jsstring) : (length (skip_ws s) <= length s)%nat.
Proof.
  induction s as [|c s IH]; cbn [skip_ws length]; [lia |].
  destruct (json_whitespace c); cbn [length]; lia.
Qed.

Lemma skip_ws_cons (s rest : jsstring) (c : N) :
  skip_ws s = c :: rest -> (length rest < length s)%nat.
Proof. intros H. pose proof (skip_ws_length s) as Hl. rewrite H in Hl. simpl in Hl. lia. Qed.

Lemma parse_string_body_length (n : nat) :
  forall s str r, (length s <= n)%nat ->
                  parse_string_body s = Some (str, r) -> (length r < length s)%nat.
Proof.
  induction n as [|n IH]; intros s str r Hn H.
  - destruct s; [discriminate | simpl in Hn; lia].
  - destruct s as [|c s]; [discriminate |].
    cbn [parse_string_body] in H. cbn [length] in Hn |- *.
    destruct (c =? 34)%N; [injection H as _ <-; lia |].
    destruct (c =? 92)%N.
    + destruct s as [|e s1]; [discriminate |].
      destruct (e =? 117)%N.
      * destruct s1 as [|h1 [|h2 [|h3 [|h4 s2]]]]; try discriminate.
        destruct (hex_value h1), (hex_value h2), (hex_value h3), (hex_value h4);
          try discriminate.
        destruct (parse_string_body s2) as [[str' r'] |] eqn:E; [| discriminate].
        injection H as _ <-.
        apply IH in E; cbn [length] in *; lia.
      * destruct (escape_value e); [| discriminate].
        destruct (parse_string_body s1) as [[str' r'] |] eqn:E; [| discriminate].
        injection H as _ <-.
        apply IH in E; cbn [length] in *; lia.
    + destruct (c <? 32)%N; [discriminate |].
      destruct (parse_string_body s) as [[str' r'] |] eqn:E; [| discriminate].
      injection H as _ <-.
      apply IH in E; lia.
Qed.

Lemma span_digits_length (s ds r : jsstring) :
  span_digits s = (ds, r) -> (length r <= length s)%nat.
Proof.
  revert ds r. induction s as [|c s IH]; intros ds r H; cbn [span_digits] in H.
  - injection H as _ <-. lia.
  - destruct (is_digit c).
    + destruct (span_digits s) as [ds' r'] eqn:E. injection H as _ <-.
      specialize (IH ds' r' eq_refl). cbn [length]. lia.
    + injection H as _ <-. lia.
Qed.

Lemma parse_number_length (s r : jsstring) (n : number) :
  parse_number s = Some (n, r) -> (length r < length s)%nat.
Proof.
  unfold parse_number. intros H.
  assert (Hsign : (length (snd (parse_sign s)) <= length s)%nat).
  { unfold parse_sign. destruct s as [|c s']; [simpl; lia |].
    destruct (c =? 45)%N; simpl; lia. }
  destruct (parse_sign s) as [sign s1]. cbn [snd] in Hsign.
  destruct (parse_int s1) as [[int r1] |] eqn:Eint; [| discriminate].
  assert (Hint : (length r1 < length s1)%nat).
  { unfold parse_int in Eint. destruct s1 as [|c s1']; [discriminate |].
    destruct (negb (is_digit c)); [discriminate |].
    destruct (c =? 48)%N.
    - injection Eint as _ <-. simpl. lia.
    - destruct (span_digits s1') as [ds r'] eqn:E. injection Eint as _ <-.
      apply span_digits_length in E. simpl. lia. }
  destruct (parse_frac r1) as [[frac r2] |] eqn:Efrac; [| discriminate].
  assert (Hfrac : (length r2 <= length r1)%nat).
  { unfold parse_frac in Efrac. destruct r1 as [|d r1']; [injection Efrac as _ <-; lia |].
    destruct (d =? 46)%N.
    - destruct (span_digits r1') as [fs r'] eqn:E.
      destruct fs; [discriminate |]. injection Efrac as _ <-.
      apply span_digits_length in E. simpl. lia.
    - injection Efrac as _ <-. lia. }
  destruct (parse_exp r2) as [[exp r3] |] eqn:Eexp; [| discriminate].
  assert (Hexp : (length r3 <= length r2)%nat).
  { unfold parse_exp in Eexp. destruct r2 as [|e r2']; [injection Eexp as _ <-; lia |].
    destruct ((e =? 101) || (e =? 69))%N.
    - match type of Eexp with
      | context [span_digits (snd ?pr)] => idtac
      | context [let (esign, r1) := ?pr in _] =>
          assert (Hs : (length (snd pr) <= length r2')%nat);
          [destruct r2' as [|g r']; [simpl; lia |];
           destruct ((g =? 43) || (g =? 45))%N; simpl; lia |];
          destruct pr as [esign r5]
      end.
      cbn [snd] in Hs. rename Hs into E5.
      destruct (span_digits r5) as [es r6] eqn:E6.
      destruct es; [discriminate |]. injection Eexp as _ <-.
      apply span_digits_length in E6. simpl. lia.
    - injection Eexp as _ <-. lia. }
  injection H as _ <-. lia.
Qed.

Lemma startsWith_length (s p : jsstring) :
  startsWith s p = true -> (length p <= length s)%nat.
Proof.
  revert s. induction p as [|x p IH]; intros s H; [simpl; lia |].
  destruct s as [|y s]; [discriminate |].
  cbn [startsWith] in H. apply andb_true_iff in H. destruct H as [_ H].
  apply IH in H. simpl. lia.
Qed.

Lemma parse_word_length (word s r : jsstring) (v v' : value) :
  word <> [] -> parse_word word v s = Ok v' r -> (length r < length s)%nat.
Proof.
  intros Hw. unfold parse_word. destruct (startsWith s word) eqn:E; [| discriminate].
  intros [= _ <-]. apply startsWith_length in E. rewrite length_skipn.
  destruct word; [contradiction | simpl in *; lia].
Qed.

Lemma parse_consumes (fuel : nat) :
  (forall s v r, parse_value fuel s = Ok v r -> (length r < length s)%nat)
  /\ (forall s vs r, parse_elements fuel s = Ok vs r -> (length r < length s)%nat)
  /\ (forall s ms r, parse_members fuel s = Ok ms r -> (length r < length s)%nat).
Proof.
  induction fuel as [|f (IHv & IHe & IHm)]; [repeat split; discriminate |].
  repeat split.
  - intros s v r H. cbn [parse_value] in H.
    destruct (skip_ws s) as [|c rest] eqn:Hs; [discriminate |].
    pose proof (skip_ws_cons s rest c Hs) as Hrest.
    pose proof (skip_ws_length s) as Hlen. rewrite Hs in Hlen. cbn [length] in Hlen.
    destruct (c =? 34)%N.
    { destruct (parse_string_body rest) as [[str r'] |] eqn:E; [| discriminate].
      injection H as _ <-.
      apply (parse_string_body_length (length rest)) in E; lia. }
    destruct (c =? 123)%N.
    { destruct (skip_ws rest) as [|d r0] eqn:Hr; [discriminate |].
      pose proof (skip_ws_cons rest r0 d Hr).
      destruct (d =? 125)%N; [injection H as _ <-; lia |].
      destruct (parse_members f rest) as [ms r' | |] eqn:E; try discriminate.
      injection H as _ <-. apply IHm in E. lia. }
    destruct (c =? 91)%N.
    { destruct (skip_ws rest) as [|d r0] eqn:Hr; [discriminate |].
      pose proof (skip_ws_cons rest r0 d Hr).
      destruct (d =? 93)%N; [injection H as _ <-; lia |].
      destruct (parse_elements f rest) as [vs r' | |] eqn:E; try discriminate.
      injection H as _ <-. apply IHe in E. lia. }
    destruct (c =? 116)%N;
      [apply parse_word_length in H; [cbn [length] in H; lia | discriminate] |].
    destruct (c =? 102)%N;
      [apply parse_word_length in H; [cbn [length] in H; lia | discriminate] |].
    destruct (c =? 110)%N;
      [apply parse_word_length in H; [cbn [length] in H; lia | discriminate] |].
    destruct (parse_number (c :: rest)) as [[n r'] |] eqn:E; [| discriminate].
    injection H as _ <-. apply parse_number_length in E. cbn [length] in E. lia.
  - intros s vs r H. cbn [parse_elements] in H.
    destruct (parse_value f s) as [v r0 | |] eqn:E; try discriminate.
    apply IHv in E.
    destruct (skip_ws r0) as [|d r1] eqn:Hr; [discriminate |].
    pose proof (skip_ws_cons r0 r1 d Hr).
    destruct (d =? 44)%N.
    { destruct (parse_elements f r1) as [vs' r2 | |] eqn:E2; try discriminate.
      injection H as _ <-. apply IHe in E2. lia. }
    destruct (d =? 93)%N; [| discriminate].
    injection H as _ <-. lia.
  - intros s ms r H. cbn [parse_members] in H.
    destruct (skip_ws s) as [|q r0] eqn:Hs; [discriminate |].
    pose proof (skip_ws_cons s r0 q Hs).
    destruct (negb (q =? 34)%N); [discriminate |].
    destruct (parse_string_body r0) as [[key r1] |] eqn:Ek; [| discriminate].
    apply (parse_string_body_length (length r0)) in Ek; [| lia].
    destruct (skip_ws r1) as [|colon r2] eqn:Hc; [discriminate |].
    pose proof (skip_ws_cons r1 r2 colon Hc).
    destruct (negb (colon =? 58)%N); [discriminate |].
    destruct (parse_value f r2) as [v r3 | |] eqn:E; try discriminate.
    apply IHv in E.
    destruct (skip_ws r3) as [|d r4] eqn:Hr; [discriminate |].
    pose proof (skip_ws_cons r3 r4 d Hr).
    destruct (d =? 44)%N.
    { destruct (parse_members f r4) as [ms' r5 | |] eqn:E2; try discriminate.
      injection H as _ <-. apply IHm in E2. lia. }
    destruct (d =? 125)%N; [| discriminate].
    injection H as _ <-. lia.
Qed.

Lemma parse_fuel_enough (fuel : nat) :
  (forall s, (2 * length s + 1 <= fuel)%nat -> parse_value fuel s <> OutOfFuel)
  /\ (forall s, (2 * length s + 2 <= fuel)%nat -> parse_elements fuel s <> OutOfFuel)
  /\ (forall s, (2 * length s + 2 <= fuel)%nat -> parse_members fuel s <> OutOfFuel).
Proof.
  induction fuel as [|f (IHv & IHe & IHm)]; [repeat split; intros s Hs; lia |].
  destruct (parse_consumes f) as (Cv & Ce & Cm).
  repeat split.
  - intros s Hf. cbn [parse_value].
    destruct (skip_ws s) as [|c rest] eqn:Hs; [discriminate |].
    pose proof (skip_ws_cons s rest c Hs) as Hrest.
    destruct (c =? 34)%N.
    { destruct (parse_string_body rest) as [[str r'] |]; discriminate. }
    destruct (c =? 123)%N.
    { destruct (skip_ws rest) as [|d r0]; [discriminate |].
      destruct (d =? 125)%N; [discriminate |].
      specialize (IHm rest ltac:(lia)).
      destruct (parse_members f rest); [discriminate | discriminate | contradiction]. }
    destruct (c =? 91)%N.
    { destruct (skip_ws rest) as [|d r0]; [discriminate |].
      destruct (d =? 93)%N; [discriminate |].
      specialize (IHe rest ltac:(lia)).
      destruct (parse_elements f rest); [discriminate | discriminate | contradiction]. }
    unfold parse_word.
    destruct (c =? 116)%N; [destruct (startsWith _ _); discriminate |].
    destruct (c =? 102)%N; [destruct (startsWith _ _); discriminate |].
    destruct (c =? 110)%N; [destruct (startsWith _ _); discriminate |].
    destruct (parse_number (c :: rest)) as [[n r'] |]; discriminate.
  - intros s Hf. cbn [parse_elements].
    specialize (IHv s ltac:(lia)).
    destruct (parse_value f s) as [v r0 | |] eqn:E; [| discriminate | contradiction].
    apply Cv in E.
    destruct (skip_ws r0) as [|d r1] eqn:Hr; [discriminate |].
    pose proof (skip_ws_cons r0 r1 d Hr).
    destruct (d =? 44)%N.
    { specialize (IHe r1 ltac:(lia)).
      destruct (parse_elements f r1); [discriminate | discriminate | contradiction]. }
    destruct (d =? 93)%N; discriminate.
  - intros s Hf. cbn [parse_members].
    destruct (skip_ws s) as [|q r0] eqn:Hs; [discriminate |].
    pose proof (skip_ws_cons s r0 q Hs).
    destruct (negb (q =? 34)%N); [discriminate |].
    destruct (parse_string_body r0) as [[key r1] |] eqn:Ek; [| discriminate].
    apply (parse_string_body_length (length r0)) in Ek; [| lia].
    destruct (skip_ws r1) as [|colon r2] eqn:Hc; [discriminate |].
    pose proof (skip_ws_cons r1 r2 colon Hc).
    destruct (negb (colon =? 58)%N); [discriminate |].
    specialize (IHv r2 ltac:(lia)).
    destruct (parse_value f r2) as [v r3 | |] eqn:E; [| discriminate | contradiction].
    apply Cv in E.
    destruct (skip_ws r3) as [|d r4] eqn:Hr; [discriminate |].
    pose proof (skip_ws_cons r3 r4 d Hr).
    destruct (d =? 44)%N.
    { specialize (IHm r4 ltac:(lia)).
      destruct (parse_members f r4); [discriminate | discriminate | contradiction]. }
    destruct (d =? 125)%N; discriminate.
Qed.

(** [JSON.parse] is total in the model: the fuel that [parse_text] gives
    the parser always suffices. *)
Lemma parse_text_total (s : jsstring) : parse_text s <> OutOfFuel.
Proof.
  unfold parse_text.
  pose proof (proj1 (parse_fuel_enough (2 * length s + 2)) s ltac:(lia)) as H.
  destruct (parse_value (2 * length s + 2) s) as [v rest | |];
    [destruct (skip_ws rest); discriminate | discriminate | contradiction].
Qed.

(** ** Runs *)

Lemma bind_run {A B : Type} (m : M A) (k : A -> M B) (w w' : world) (a : A) :
  m w = (Return a, w') -> bind m k w = k a w'.
Proof. unfold bind. intros ->. reflexivity. Qed.

Lemma bind_throw {A B : Type} (m : M A) (k : A -> M B) (w w' : world) (e : exn) :
  m w = (Throw e, w') -> bind m k w = (Throw e, w').
Proof. unfold bind. intros ->. reflexivity. Qed.

Lemma bind_assoc {A B C : Type} (m : M A) (f : A -> M B) (g : B -> M C) (w : world) :
  bind (bind m f) g w = bind m (fun x => bind (f x) g) w.
Proof. unfold bind. destruct (m w) as [[a | e |] w']; reflexivity. Qed.

Lemma try_catch_return {A : Type} (m : M A) (h : exn -> M A) (w w' : world) (a : A) :
  m w = (Return a, w') -> try_catch m h w = (Return a, w').
Proof. unfold try_catch. intros ->. reflexivity. Qed.

Lemma try_catch_throw {A : Type} (m : M A) (h : exn -> M A) (w w' : world) (e : exn) :
  m w = (Throw e, w') -> try_catch m h w = h e w'.
Proof. unfold try_catch. intros ->. reflexivity. Qed.

Lemma in_window_tick (this : CryptoEngine) (w : world) (W : Z) :
  in_window this w W -> in_window this (tick w) W.
Proof. intros H k Hk. apply H. simpl in Hk. lia. Qed.

Lemma in_window_logged (this : CryptoEngine) (w : world) (W seed : Z) :
  in_window this w W -> in_window this (logged seed w) W.
Proof. intros H k Hk. apply H. exact Hk. Qed.

Lemma in_window_now (this : CryptoEngine) (w : world) (W : Z) :
  in_window this w W -> clock w (reads w) / timeWindow this = W.
Proof. intros H. apply H. lia. Qed.

Lemma getTimeSeed_run (this : CryptoEngine) (w : world) (W : Z) :
  in_window this w W -> getTimeSeed this w = (Return W, tick w).
Proof.
  intros H. unfold getTimeSeed, bind, Date_now, ret.
  rewrite (in_window_now this w W H). reflexivity.
Qed.

Lemma generateTimeKey_run (this : CryptoEngine) (w : world) (seed : Z) :
  seed <> 0 ->
  generateTimeKey this (Some seed) w = (Return (time_key this seed), logged seed w).
Proof.
  intros H. unfold generateTimeKey, or_getTimeSeed, bind, record_key, ret.
  apply Z.eqb_neq in H. rewrite H. reflexivity.
Qed.

(** X22.  For every window [w] other than 0, [generateTimeKey(w)] is
    [simpleHash(masterKey + w.toString())]; it does not read the clock,
    whatever the clock shows, and leaves the host state as it was. *)
Theorem generateTimeKey_pure (this : CryptoEngine) (seed : Z) (w : world) :
  seed <> 0 ->
  fst (generateTimeKey this (Some seed) w)
  = Return (simpleHash (masterKey this ++ toString 10 seed))
  /\ reads (snd (generateTimeKey this (Some seed) w)) = reads w
  /\ clock (snd (generateTimeKey this (Some seed) w)) = clock w.
Proof.
  intros H. rewrite (generateTimeKey_run this w seed H). auto.
Qed.

Lemma generateTimeKey_pure_witness :
  5666666 <> 0
  /\ let this := new_CryptoEngine (lit "device") in
     let w := {| clock := fun _ => 1700000000000; reads := 0;
                 host_message := fun _ => []; derived := [] |} in
     fst (generateTimeKey this (Some 5666666) w)
     = Return (simpleHash (masterKey this ++ toString 10 5666666))
     /\ reads (snd (generateTimeKey this (Some 5666666) w)) = reads w
     /\ clock (snd (generateTimeKey this (Some 5666666) w)) = clock w.
Proof.
  assert (H : 5666666 <> 0) by discriminate.
  split; [exact H |].
  apply (generateTimeKey_pure (new_CryptoEngine (lit "device")) 5666666 _ H).
Defined.

(** C9 fails on the code at window 0.  [timeSeed || this.getTimeSeed()]
    takes the window 0 for an absent argument: [generateTimeKey(0)] reads
    the clock and returns the key of the current window, 5666666, not
    [simpleHash(masterKey + "0")]. *)
Lemma generateTimeKey_zero_reads_clock :
  let this := new_CryptoEngine (lit "device") in
  let w := {| clock := fun _ => 1700000000000; reads := 0;
              host_message := fun _ => []; derived := [] |} in
  fst (generateTimeKey this (Some 0) w)
  <> Return (simpleHash (masterKey this ++ toString 10 0))
  /\ fst (generateTimeKey this (Some 0) w)
     = Return (simpleHash (masterKey this ++ toString 10 5666666))
  /\ reads (snd (generateTimeKey this (Some 0) w)) = 1%nat.
Proof.
  vm_compute. repeat split. discriminate.
Qed.

(** ** Latin-1 texts *)

Lemma latin1_app (a b : jsstring) : latin1 a -> latin1 b -> latin1 (a ++ b).
Proof. intros Ha Hb. apply Forall_app. auto. Qed.

Lemma latin1_code_units (s : jsstring) : latin1 s -> code_units s.
Proof.
  apply Forall_impl. intros c Hc. unfold code_unit. lia.
Qed.

Lemma digit_char_latin1 (d : N) : (d < 36)%N -> (digit_char d < 256)%N.
Proof. unfold digit_char. destruct (d <? 10)%N; lia. Qed.

Lemma toString_latin1 (z : Z) : latin1 (toString 10 z).
Proof.
  assert (H : forall n, latin1 (digits 10 n)).
  { intros n. destruct (digits_spec 10 n eq_refl) as (k & _ & -> & _).
    unfold low_digits. apply Forall_forall. intros c Hc.
    apply in_map_iff in Hc. destruct Hc as (i & <- & _).
    apply digit_char_latin1.
    pose proof (N.mod_lt (n / 10 ^ N.of_nat i) 10 ltac:(discriminate)). lia. }
  unfold toString. destruct (z <? 0); [constructor; [reflexivity |] |]; apply H.
Qed.

Lemma unicode_escape_latin1 (c : N) : code_unit c -> latin1 (unicode_escape c).
Proof.
  intros Hc. rewrite unicode_escape_digits by exact Hc.
  repeat constructor; apply digit_char_latin1;
    match goal with
    | |- (?x mod 16 < 36)%N => pose proof (N.mod_lt x 16 ltac:(discriminate)); lia
    end.
Qed.

Lemma quote_body_latin1 (m : jsstring) : latin1 m -> latin1 (quote_body m).
Proof.
  induction m as [|c m IH]; intros H; [constructor |].
  apply latin1_cons in H. destruct H as [Hc H]. specialize (IH H).
  cbn [quote_body].
  destruct (latin1_not_surrogate c Hc) as [-> ->].
  assert (Hesc : forall e, (e < 256)%N -> latin1 (92%N :: e :: quote_body m)).
  { intros e He. apply Forall_cons; [reflexivity |]. apply Forall_cons; assumption. }
  destruct (c =? 8)%N; [apply Hesc; reflexivity |].
  destruct (c =? 9)%N; [apply Hesc; reflexivity |].
  destruct (c =? 10)%N; [apply Hesc; reflexivity |].
  destruct (c =? 12)%N; [apply Hesc; reflexivity |].
  destruct (c =? 13)%N; [apply Hesc; reflexivity |].
  destruct (c =? 34)%N; [apply Hesc; reflexivity |].
  destruct (c =? 92)%N; [apply Hesc; reflexivity |].
  destruct (c <? 32)%N.
  - apply latin1_app; [apply unicode_escape_latin1; unfold code_unit; lia | exact IH].
  - apply Forall_cons; assumption.
Qed.

Lemma quote_latin1 (m : jsstring) : latin1 m -> latin1 (quote m).
Proof.
  intros H. unfold quote. constructor; [reflexivity |].
  apply latin1_app; [apply quote_body_latin1, H | repeat constructor].
Qed.

Lemma stringify_envelope_latin1 (m : jsstring) (t sd : Z) :
  latin1 m -> latin1 (JSON_stringify (envelope m t sd)).
Proof.
  intros Hm. rewrite stringify_envelope.
  repeat match goal with
         | |- _ (quote ?x ++ _) =>
             apply latin1_app;
             [apply quote_latin1;
              first [apply latin1_lit | exact Hm | apply simpleHash_latin1] |]
         | |- _ (toString 10 ?z ++ _) => apply latin1_app; [apply toString_latin1 |]
         | |- _ (?c :: _) => apply Forall_cons; [reflexivity |]
         | |- _ [] => apply Forall_nil
         end.
Qed.

Lemma xor_unit_latin1 (d k : N) : (d < 256)%N -> (k < 256)%N -> (xor_unit d k < 256)%N.
Proof.
  intros Hd Hk. unfold xor_unit.
  pose proof (lxor_lt_pow2 d k 8 Hd Hk) as H. change (2 ^ 8)%N with 256%N in H.
  rewrite N.mod_small; lia.
Qed.

Lemma xorCipher_latin1 (data key : jsstring) :
  latin1 data -> latin1 key -> latin1 (xorCipher data key).
Proof.
  intros Hd Hk. rewrite xorCipher_combine.
  assert (Hek : latin1 (expandKey key (length data))).
  { apply expandKey_Forall; [| exact Hk].
    intros c Hc. apply (Forall_inv (lower_hex_latin1 [c] ltac:(simpl; rewrite Hc; reflexivity))). }
  revert Hek. generalize (expandKey key (length data)). intros ek Hek.
  revert ek Hek. induction Hd as [|d data Hd _ IH]; intros ek Hek; [constructor |].
  destruct Hek as [|k ek Hk' Hek]; [constructor |].
  simpl. constructor; [apply xor_unit_latin1; assumption | apply IH, Hek].
Qed.

(** Decrypting with the key of encryption gives a Latin-1 text back. *)
Lemma xorCipher_cancel (text key : jsstring) :
  latin1 text -> latin1 key -> xorCipher (xorCipher text key) key = text.
Proof.
  intros Ht Hk.
  rewrite (xorCipher_combine (xorCipher text key)), xorCipher_length, xorCipher_combine.
  apply xor_combine_involutive.
  - apply latin1_code_units, Ht.
  - apply expandKey_code_units, latin1_code_units, Hk.
  - apply expandKey_length.
Qed.

(** ** What a run does to the world *)

Lemma extends_refl (w : world) : extends w w.
Proof. repeat split; [lia | exists []; rewrite app_nil_r; reflexivity]. Qed.

Lemma extends_trans (w1 w2 w3 : world) : extends w1 w2 -> extends w2 w3 -> extends w1 w3.
Proof.
  intros (Hc & Hh & Hr & l & Hl) (Hc' & Hh' & Hr' & l' & Hl').
  repeat split; [congruence | congruence | lia |].
  exists (l ++ l'). rewrite Hl', Hl, app_assoc. reflexivity.
Qed.

Lemma in_window_extends (this : CryptoEngine) (w w' : world) (W : Z) :
  extends w w' -> in_window this w W -> in_window this w' W.
Proof.
  intros (Hc & _ & Hr & _) H k Hk. rewrite Hc. apply H. lia.
Qed.

Lemma preserving_ret {A : Type} (a : A) : preserving (ret a).
Proof. intros w. apply extends_refl. Qed.

Lemma preserving_throw {A : Type} (e : exn) : preserving (@throw A e).
Proof. intros w. apply extends_refl. Qed.

Lemma preserving_stuck {A : Type} : preserving (@stuck A).
Proof. intros w. apply extends_refl. Qed.

Lemma preserving_bind {A B : Type} (m : M A) (k : A -> M B) :
  preserving m -> (forall a, preserving (k a)) -> preserving (bind m k).
Proof.
  intros Hm Hk w. unfold bind. specialize (Hm w).
  destruct (m w) as [[a | e |] w']; simpl in *; try assumption.
  eapply extends_trans; [exact Hm | apply Hk].
Qed.

Lemma preserving_try_catch {A : Type} (m : M A) (h : exn -> M A) :
  preserving m -> (forall e, preserving (h e)) -> preserving (try_catch m h).
Proof.
  intros Hm Hh w. unfold try_catch. specialize (Hm w).
  destruct (m w) as [[a | e |] w']; simpl in *; try assumption.
  eapply extends_trans; [exact Hm | apply Hh].
Qed.

Lemma preserving_modelled {A : Type} (o : option A) : preserving (modelled o).
Proof. destruct o; [apply preserving_ret | apply preserving_stuck]. Qed.

Lemma preserving_or_throw {A : Type} (o : option A) (kind : host_error) :
  preserving (or_throw o kind).
Proof. destruct o; [apply preserving_ret | apply preserving_throw]. Qed.

Lemma preserving_message (e : exn) : preserving (message e).
Proof. intros w. apply extends_refl. Qed.

Lemma preserving_Date_now : preserving Date_now.
Proof.
  intros w. repeat split; simpl; [lia | exists []; rewrite app_nil_r; reflexivity].
Qed.

Lemma preserving_record_key (seed : Z) : preserving (record_key seed).
Proof. intros w. repeat split; simpl; [lia | eauto]. Qed.

Lemma preserving_JSON_parse (text : jsstring) : preserving (JSON_parse text).
Proof.
  unfold JSON_parse. destruct (parse_text text);
    [apply preserving_ret | apply preserving_throw | apply preserving_stuck].
Qed.

Lemma preserving_get (v : value) (key : jsstring) : preserving (get v key).
Proof. destruct v; first [apply preserving_ret | apply preserving_throw]. Qed.

Lemma preserving_if {A : Type} (b : bool) (m1 m2 : M A) :
  preserving m1 -> preserving m2 -> preserving (if b then m1 else m2).
Proof. destruct b; auto. Qed.

Create HintDb preserving.
#[local] Hint Resolve preserving_ret preserving_throw preserving_stuck
  preserving_modelled preserving_or_throw preserving_message preserving_Date_now
  preserving_record_key preserving_JSON_parse preserving_get : preserving.

Ltac preserving :=
  repeat first
    [ progress auto with preserving
    | apply preserving_bind; [| intros ?]
    | apply preserving_try_catch; [| intros ?]
    | apply preserving_if
    | match goal with
      | |- preserving (match ?x with _ => _ end) => destruct x
      end ].

Lemma preserving_getTimeSeed (this : CryptoEngine) : preserving (getTimeSeed this).
Proof. unfold getTimeSeed. preserving. Qed.
#[local] Hint Resolve preserving_getTimeSeed : preserving.

Lemma preserving_or_getTimeSeed (this : CryptoEngine) (timeSeed : option Z) :
  preserving (or_getTimeSeed this timeSeed).
Proof. unfold or_getTimeSeed. preserving. Qed.
#[local] Hint Resolve preserving_or_getTimeSeed : preserving.

Lemma preserving_generateTimeKey (this : CryptoEngine) (timeSeed : option Z) :
  preserving (generateTimeKey this timeSeed).
Proof. unfold generateTimeKey. preserving. Qed.
#[local] Hint Resolve preserving_generateTimeKey : preserving.

Lemma preserving_encrypt (this : CryptoEngine) (m : jsstring) (seed : option Z) :
  preserving (encrypt this m seed).
Proof. unfold encrypt. preserving. Qed.

Lemma preserving_attemptDecrypt (this : CryptoEngine) (enc : jsstring) (seed : option Z) :
  preserving (attemptDecrypt this enc seed).
Proof. unfold attemptDecrypt. preserving. Qed.
#[local] Hint Resolve preserving_attemptDecrypt : preserving.

Lemma preserving_retry (this : CryptoEngine) (enc : jsstring) (indices : list Z)
    (decrypted : option value) :
  preserving (retry this enc indices decrypted).
Proof.
  revert decrypted. induction indices as [|i rest IH]; intros decrypted; cbn [retry].
  - preserving.
  - preserving.
Qed.
#[local] Hint Resolve preserving_retry : preserving.

Lemma preserving_decrypt (this : CryptoEngine) (payload : jsstring) :
  preserving (decrypt this payload).
Proof. unfold decrypt. preserving. Qed.

(** ** [encrypt] *)

Ltac run :=
  cbv [bind ret throw stuck try_catch modelled or_throw message Date_now
       record_key getTimeSeed or_getTimeSeed generateTimeKey].

(** What [encrypt] returns or throws, in any world. *)
Lemma encrypt_outcome (this : CryptoEngine) (m : jsstring) (customTimeSeed : option Z)
    (w : world) :
  exists timestamp timeSeed keySeed,
    fst (encrypt this m customTimeSeed w)
    = match btoa (xorCipher (JSON_stringify (envelope m timestamp timeSeed))
                            (time_key this keySeed)) with
      | Some base64Encrypted => Return (lit "NFC_" ++ base64Encrypted)
      | None => Throw (Error (lit "Encryption failed: "
                              ++ host_message w InvalidCharacterError))
      end.
Proof.
  unfold encrypt. run. unfold time_key.
  destruct customTimeSeed as [z |]; [destruct (z =? 0) eqn:Ez |].
  - destruct (clock w (reads w) / timeWindow this =? 0) eqn:E.
    + do 3 eexists.
      match goal with |- context [btoa ?x] => destruct (btoa x) eqn:Eb end;
        cbn [fst]; rewrite Eb; reflexivity.
    + do 3 eexists.
      match goal with |- context [btoa ?x] => destruct (btoa x) eqn:Eb end;
        cbn [fst]; rewrite Eb; reflexivity.
  - rewrite Ez. do 3 eexists.
    match goal with |- context [btoa ?x] => destruct (btoa x) eqn:Eb end;
      cbn [fst]; rewrite Eb; reflexivity.
  - destruct (clock w (reads w) / timeWindow this =? 0) eqn:E.
    + do 3 eexists.
      match goal with |- context [btoa ?x] => destruct (btoa x) eqn:Eb end;
        cbn [fst]; rewrite Eb; reflexivity.
    + do 3 eexists.
      match goal with |- context [btoa ?x] => destruct (btoa x) eqn:Eb end;
        cbn [fst]; rewrite Eb; reflexivity.
Qed.

(** C4, as the code has it.  For every message of Latin-1 code units,
    [encrypt] succeeds and returns ["NFC_"] followed by the base64 encoding
    of the XOR-transformed serialized envelope. *)
Theorem encrypt_latin1 (this : CryptoEngine) (m : jsstring)
    (customTimeSeed : option Z) (w : world) :
  latin1 m ->
  exists timestamp timeSeed keySeed base64Encrypted,
    fst (encrypt this m customTimeSeed w) = Return (lit "NFC_" ++ base64Encrypted)
    /\ btoa (xorCipher (JSON_stringify (envelope m timestamp timeSeed))
                       (time_key this keySeed))
       = Some base64Encrypted.
Proof.
  intros Hm.
  destruct (encrypt_outcome this m customTimeSeed w) as (ts & sd & ks & H).
  exists ts, sd, ks.
  assert (Hx : latin1 (xorCipher (JSON_stringify (envelope m ts sd)) (time_key this ks))).
  { apply xorCipher_latin1; [apply stringify_envelope_latin1, Hm |].
    apply simpleHash_latin1. }
  apply latin1b_true in Hx. unfold btoa in *. rewrite Hx in *.
  eexists. split; [exact H | reflexivity].
Qed.

Lemma encrypt_latin1_witness :
  latin1 (lit "hello")
  /\ exists timestamp timeSeed keySeed base64Encrypted,
       fst (encrypt sample_engine (lit "hello") None (sample_world 1700000000000))
       = Return (lit "NFC_" ++ base64Encrypted)
       /\ btoa (xorCipher (JSON_stringify (envelope (lit "hello") timestamp timeSeed))
                          (time_key sample_engine keySeed))
          = Some base64Encrypted.
Proof.
  assert (H : latin1 (lit "hello")) by apply latin1_lit.
  split; [exact H |].
  apply (encrypt_latin1 sample_engine (lit "hello") None (sample_world 1700000000000) H).
Defined.

(** C4 as stated fails: the one-character message with the euro sign
    (U+20AC) is serialized by [JSON.stringify] without error, and [encrypt]
    throws, because [btoa] rejects the code unit above 255 that the XOR
    leaves in the text. *)
Lemma encrypt_throws_on_euro :
  parse_text (JSON_stringify (envelope [8364%N] 1700000000000 5666666))
  = Ok (envelope [8364%N] 1700000000000 5666666) []
  /\ fst (encrypt sample_engine [8364%N] None (sample_world 1700000000000))
     = Throw (Error (lit "Encryption failed: The string contains invalid characters.")).
Proof. split; vm_compute; reflexivity. Qed.

(** ** [attemptDecrypt] *)

Lemma jsstring_eqb_refl (s : jsstring) : jsstring_eqb s s = true.
Proof. induction s as [|c s IH]; simpl; [reflexivity |]. rewrite N.eqb_refl. exact IH. Qed.

Lemma jsstring_eqb_eq (a b : jsstring) : jsstring_eqb a b = true -> a = b.
Proof.
  revert b. induction a as [|x a IH]; intros [|y b]; simpl; try discriminate; auto.
  intros H. apply andb_true_iff in H. destruct H as [Hxy Hab].
  apply N.eqb_eq in Hxy. rewrite (IH b Hab), Hxy. reflexivity.
Qed.

(** A single-window attempt on the text of an envelope, with the key that
    matches: it returns the message, unless the envelope is older than 24
    hours. *)
Lemma attemptDecrypt_envelope (this : CryptoEngine) (enc : jsstring)
    (timeSeed : option Z) (w w1 : world) (seed : Z) (m : jsstring) (t sd : Z) :
  or_getTimeSeed this timeSeed w = (Return seed, w1) ->
  seed <> 0 ->
  xorCipher enc (time_key this seed) = JSON_stringify (envelope m t sd) ->
  latin1 m -> m <> [] -> t <> 0 -> Z.abs t <= two53 -> Z.abs sd <= two53 ->
  attemptDecrypt this enc timeSeed w
  = (Return (if clock w1 (reads w1) - t >? 86400000 then None else Some (Str m)),
     tick (logged seed w1)).
Proof.
  intros Hseed Hnz Hxor Hm Hne Ht Htb Hsdb.
  unfold attemptDecrypt, try_catch.
  rewrite (bind_run _ _ _ _ _ Hseed).
  rewrite (bind_run _ _ _ _ _ (generateTimeKey_run this w1 seed Hnz)).
  fold (time_key this seed). unfold time_key in Hxor |- *.
  cbv zeta. rewrite Hxor. unfold JSON_parse.
  rewrite (parse_text_envelope m t sd Hm Htb Hsdb).
  unfold envelope.
  cbv [bind ret get or_throw throw Date_now].
  change (lookup (lit "msg") _) with (Some (Str m)).
  change (lookup (lit "ts") _) with (Some (Number (Int t))).
  change (lookup (lit "checksum") _)
    with (Some (Str (simpleHash (m ++ toString 10 t)))).
  cbv [truthy].
  destruct m as [|c m]; [contradiction |].
  change (length (c :: m) =? 0)%nat with false.
  apply Z.eqb_neq in Ht. rewrite Ht.
  rewrite simpleHash_length. cbn [negb Nat.eqb].
  cbv [add is_stringlike orb ToString simpleHash_of strict_neq_string ToNumber exceeds].
  rewrite jsstring_eqb_refl. cbn [negb].
  cbn [reads clock logged tick].
  destruct (clock w1 (reads w1) - t >? 86400000); reflexivity.
Qed.

(** ** Round trip *)

Lemma encrypt_run (this : CryptoEngine) (m : jsstring) (w : world) (W : Z) :
  in_window this w W -> W <> 0 -> latin1 m ->
  encrypt this m None w
  = (Return (lit "NFC_"
             ++ btoa_chunks (xorCipher (JSON_stringify (envelope m (clock w (S (reads w))) W))
                                       (time_key this W))),
     tick (logged W (tick w))).
Proof.
  intros Hw HW Hm. unfold encrypt. apply try_catch_return.
  unfold or_getTimeSeed.
  rewrite (bind_run _ _ _ _ _ (getTimeSeed_run this w W Hw)).
  rewrite (bind_run _ _ _ _ _ (generateTimeKey_run this (tick w) W HW)).
  cbv [bind Date_now or_throw ret]. cbn [reads clock logged tick].
  unfold btoa.
  replace (latin1b _) with true; [reflexivity |].
  symmetry. apply latin1b_true, xorCipher_latin1;
    [apply stringify_envelope_latin1, Hm | apply simpleHash_latin1].
Qed.

Lemma decrypt_first (this : CryptoEngine) (payload enc : jsstring) (v : value)
    (w w' : world) :
  startsWith payload (lit "NFC_") = true ->
  atob (substring_from 4 payload) = Some enc ->
  attemptDecrypt this enc None w = (Return (Some v), w') ->
  truthy (Some v) = true ->
  decrypt this payload w = (Return v, w').
Proof.
  intros Hp Ha Hd Ht. unfold decrypt. apply try_catch_return.
  rewrite Hp, Ha. cbv [negb or_throw].
  cbv [bind ret]. rewrite Hd, Ht. cbv iota. rewrite Ht. reflexivity.
Qed.

Lemma window_bounds (t W : Z) :
  t / 300000 = W -> W * 300000 <= t < (W + 1) * 300000.
Proof. intros <-. lia. Qed.

(** C1, as the code has it.  For every device fingerprint and every
    non-empty message of Latin-1 code units, [decrypt(encrypt(m))] returns
    [m] when every reading of the clock during the two calls falls in the
    same five-minute window (a window after the first, within the
    ECMAScript time range). *)
Theorem decrypt_encrypt_same_window (fingerprint m : jsstring) (w : world) (W : Z) :
  latin1 m -> m <> [] ->
  in_window (new_CryptoEngine fingerprint) w W -> 0 < W <= max_window ->
  fst ((payload <- encrypt (new_CryptoEngine fingerprint) m None ;;
        decrypt (new_CryptoEngine fingerprint) payload) w)
  = Return (Str m).
Proof.
  intros Hm Hne Hw HW.
  set (this := new_CryptoEngine fingerprint) in *.
  rewrite (bind_run _ _ _ _ _ (encrypt_run this m w W Hw ltac:(lia) Hm)).
  set (t := clock w (S (reads w))).
  set (text := JSON_stringify (envelope m t W)).
  set (w2 := tick (logged W (tick w))).
  assert (Hw2 : in_window this w2 W).
  { apply in_window_tick, in_window_logged, in_window_tick, Hw. }
  assert (Ht : W * 300000 <= t < (W + 1) * 300000).
  { apply window_bounds. apply (Hw (S (reads w))). lia. }
  assert (Hnow : W * 300000 <= clock w2 (reads (tick w2)) < (W + 1) * 300000).
  { apply window_bounds. apply (Hw2 (reads (tick w2))). simpl. lia. }
  unfold max_window in HW.
  set (enc := xorCipher text (time_key this W)).
  assert (Henc : latin1 enc).
  { apply xorCipher_latin1; [apply stringify_envelope_latin1, Hm | apply simpleHash_latin1]. }
  assert (Hatob : atob (substring_from 4 (lit "NFC_" ++ btoa_chunks enc)) = Some enc).
  { cbn [substring_from skipn lit List.map String.list_ascii_of_string app].
    apply atob_btoa. unfold btoa.
    apply latin1b_true in Henc. rewrite Henc. reflexivity. }
  assert (Hattempt : attemptDecrypt this enc None w2
                     = (Return (Some (Str m)), tick (logged W (tick w2)))).
  { rewrite (attemptDecrypt_envelope this enc None w2 (tick w2) W m t W).
    - replace (clock (tick w2) (reads (tick w2)) - t >? 86400000) with false;
        [reflexivity |].
      symmetry. rewrite Z.gtb_ltb. apply Z.ltb_ge.
      change (clock (tick w2)) with (clock w2). lia.
    - apply (getTimeSeed_run this w2 W Hw2).
    - lia.
    - apply xorCipher_cancel;
        [apply stringify_envelope_latin1, Hm | apply simpleHash_latin1].
    - exact Hm.
    - exact Hne.
    - lia.
    - unfold two53. lia.
    - unfold two53. lia. }
  assert (Htruthy : truthy (Some (Str m)) = true).
  { destruct m; [contradiction | reflexivity]. }
  assert (Hstart : startsWith (lit "NFC_" ++ btoa_chunks enc) (lit "NFC_") = true)
    by reflexivity.
  rewrite (decrypt_first this (lit "NFC_" ++ btoa_chunks enc) enc (Str m) w2 _
             Hstart Hatob Hattempt Htruthy).
  reflexivity.
Qed.

Lemma decrypt_encrypt_same_window_witness :
  latin1 (lit "hello") /\ lit "hello" <> []
  /\ in_window (new_CryptoEngine (lit "device")) (sample_world 1700000000000) 5666666
  /\ 0 < 5666666 <= max_window
  /\ fst ((payload <- encrypt (new_CryptoEngine (lit "device")) (lit "hello") None ;;
           decrypt (new_CryptoEngine (lit "device")) payload)
            (sample_world 1700000000000))
     = Return (Str (lit "hello")).
Proof.
  assert (H1 : latin1 (lit "hello")) by apply latin1_lit.
  assert (H2 : lit "hello" <> []) by discriminate.
  assert (H3 : in_window (new_CryptoEngine (lit "device"))
                 (sample_world 1700000000000) 5666666)
    by (intros k _; reflexivity).
  assert (H4 : 0 < 5666666 <= max_window) by (unfold max_window; lia).
  split; [exact H1 |]. split; [exact H2 |]. split; [exact H3 |]. split; [exact H4 |].
  apply (decrypt_encrypt_same_window (lit "device") (lit "hello")
           (sample_world 1700000000000) 5666666 H1 H2 H3 H4).
Defined.

(** C1 as stated fails for the empty message: every reading of the clock
    is in window 5666666, and [decrypt(encrypt(""))] throws. *)
Lemma decrypt_encrypt_empty_fails :
  in_window sample_engine (sample_world 1700000000000) 5666666
  /\ fst ((payload <- encrypt sample_engine [] None ;; decrypt sample_engine payload)
            (sample_world 1700000000000))
     = Throw exhausted_error.
Proof.
  split; [intros k _; reflexivity |].
  vm_compute. reflexivity.
Qed.

(** A single-window attempt never throws, and what it returns is truthy. *)
Lemma attemptDecrypt_no_throw (this : CryptoEngine) (enc : jsstring)
    (timeSeed : option Z) (w : world) (e : exn) :
  fst (attemptDecrypt this enc timeSeed w) <> Throw e.
Proof.
  unfold attemptDecrypt, try_catch.
  match goal with |- context [match ?x with _ => _ end] => destruct x as [[a | e' |] w'] end;
    simpl; discriminate.
Qed.

Lemma attemptDecrypt_truthy (this : CryptoEngine) (enc : jsstring)
    (timeSeed : option Z) (w w' : world) (v : value) :
  attemptDecrypt this enc timeSeed w = (Return (Some v), w') ->
  truthy (Some v) = true.
Proof.
  unfold attemptDecrypt, try_catch, bind.
  destruct (or_getTimeSeed this timeSeed w) as [[seed | e |] w1]; try discriminate.
  destruct (generateTimeKey this (Some seed) w1) as [[key | e |] w2]; try discriminate.
  cbv zeta.
  destruct (JSON_parse (xorCipher enc key) w2) as [[messageData | e |] w3]; try discriminate.
  destruct (get messageData (lit "msg") w3) as [[msg | e |] w4]; try discriminate.
  destruct (truthy msg) eqn:Hmsg; cbv [ret negb]; try discriminate.
  destruct (get messageData (lit "ts") w4) as [[ts | e |] w5]; try discriminate.
  destruct (truthy ts) eqn:Hts; cbv [ret negb]; try discriminate.
  destruct (get messageData (lit "checksum") w5) as [[checksum | e |] w6]; try discriminate.
  destruct (truthy checksum) eqn:Hck; cbv [ret negb]; try discriminate.
  destruct msg as [msg |]; [| discriminate].
  destruct ts as [ts |]; [| discriminate].
  destruct checksum as [checksum |]; [| discriminate].
  destruct (add msg ts) as [sum |]; cbv [or_throw ret throw]; [| discriminate].
  destruct (strict_neq_string checksum (simpleHash_of sum)); [discriminate |].
  cbv [Date_now].
  destruct (ToNumber ts) as [ts_number |]; cbv [or_throw ret throw]; [| discriminate].
  match goal with |- context [if ?b then _ else _] => destruct b end; [discriminate |].
  intros [= <- _]. exact Hmsg.
Qed.


(** A single-window attempt always returns. *)
Lemma attemptDecrypt_returns (this : CryptoEngine) (enc : jsstring)
    (timeSeed : option Z) (w : world) :
  exists r, fst (attemptDecrypt this enc timeSeed w) = Return r.
Proof.
  unfold attemptDecrypt, try_catch, bind.
  assert (Hseed : exists seed w1, or_getTimeSeed this timeSeed w = (Return seed, w1)).
  { unfold or_getTimeSeed, getTimeSeed, bind, Date_now, ret.
    destruct timeSeed as [z |]; [destruct (z =? 0) |]; eauto. }
  destruct Hseed as (seed & w1 & ->).
  assert (Hkey : exists key w2, generateTimeKey this (Some seed) w1 = (Return key, w2)).
  { unfold generateTimeKey, or_getTimeSeed, getTimeSeed, bind, Date_now, record_key, ret.
    destruct (seed =? 0); eauto. }
  destruct Hkey as (key & w2 & ->).
  cbv zeta. unfold JSON_parse.
  pose proof (parse_text_total (xorCipher enc key)) as Htotal.
  destruct (parse_text (xorCipher enc key)) as [v rest | |];
    [| cbv [throw ret]; eexists; reflexivity | contradiction].
  cbv [ret].
  destruct v as [| b | n | str | elements | members]; cbn [get]; cbv [throw ret];
    try (cbn [truthy negb]; eexists; reflexivity).
  destruct (truthy (lookup (lit "msg") members)); cbn [negb];
    [| eexists; reflexivity].
  destruct (truthy (lookup (lit "ts") members)); cbn [negb];
    [| eexists; reflexivity].
  destruct (truthy (lookup (lit "checksum") members)); cbn [negb];
    [| eexists; reflexivity].
  destruct (lookup (lit "msg") members) as [msg |]; [| eexists; reflexivity].
  destruct (lookup (lit "ts") members) as [ts |]; [| eexists; reflexivity].
  destruct (lookup (lit "checksum") members) as [checksum |]; [| eexists; reflexivity].
  destruct (add msg ts) as [sum |]; cbv [or_throw ret throw]; [| eexists; reflexivity].
  destruct (strict_neq_string checksum (simpleHash_of sum)); [eexists; reflexivity |].
  cbv [Date_now].
  destruct (ToNumber ts) as [t |]; cbv [or_throw ret throw]; [| eexists; reflexivity].
  destruct (exceeds _ t 86400000); eexists; reflexivity.
Qed.

(** ** The retry protocol *)

Lemma attemptDecrypt_current (this : CryptoEngine) (enc : jsstring) (w : world) (W : Z) :
  in_window this w W -> W <> 0 ->
  attemptDecrypt this enc None w = attemptDecrypt this enc (Some W) (tick w).
Proof.
  intros Hw HW. unfold attemptDecrypt, try_catch.
  rewrite (bind_run _ _ w (tick w) W) by (apply (getTimeSeed_run this w W Hw)).
  rewrite (bind_run _ _ (tick w) (tick w) W); [reflexivity |].
  unfold or_getTimeSeed. apply Z.eqb_neq in HW. rewrite HW. reflexivity.
Qed.

Lemma attemptDecrypt_extends (this : CryptoEngine) (enc : jsstring)
    (timeSeed : option Z) (w : world) :
  extends w (snd (attemptDecrypt this enc timeSeed w)).
Proof. apply preserving_attemptDecrypt. Qed.

Lemma retry_first_valid (this : CryptoEngine) (enc : jsstring) (W : Z)
    (indices : list Z) :
  Forall (fun i => W - i <> 0) indices ->
  forall (decrypted : option value) (w : world),
    in_window this w W -> truthy decrypted = false ->
    try_catch (bind (retry this enc indices decrypted) decrypt_finish) decrypt_handler w
    = first_valid this enc (map (fun i => W - i) indices) w.
Proof.
  induction 1 as [|i rest Hi _ IH]; intros decrypted w Hw Hfalse.
  - cbn [retry map first_valid]. unfold try_catch, bind, ret, decrypt_finish.
    destruct decrypted as [v |]; [rewrite Hfalse |]; reflexivity.
  - cbn [retry map first_valid].
    unfold try_catch at 1.
    rewrite bind_assoc.
    rewrite (bind_run _ _ w (tick w) W) by (apply (getTimeSeed_run this w W Hw)).
    rewrite bind_assoc.
    pose proof (attemptDecrypt_no_throw this enc (Some (W - i)) (tick w)) as Hno.
    pose proof (attemptDecrypt_extends this enc (Some (W - i)) (tick w)) as Hext.
    pose proof (attemptDecrypt_truthy this enc (Some (W - i)) (tick w)) as Htrue.
    unfold bind at 1.
    destruct (attemptDecrypt this enc (Some (W - i)) (tick w)) as [[[v |] | e |] w'].
    + rewrite (Htrue w' v eq_refl).
      cbv [ret bind decrypt_finish negb]. rewrite (Htrue w' v eq_refl).
      reflexivity.
    + cbv [truthy].
      apply (IH None w'); [| reflexivity].
      apply (in_window_extends this (tick w) w' W Hext), in_window_tick, Hw.
    + exfalso. apply (Hno e). reflexivity.
    + reflexivity.
Qed.

Ltac run_all :=
  cbv [bind ret throw stuck try_catch modelled or_throw message Date_now
       record_key getTimeSeed or_getTimeSeed generateTimeKey JSON_parse get].



Lemma decrypt_decoded (this : CryptoEngine) (payload enc : jsstring) (w : world) :
  startsWith payload (lit "NFC_") = true ->
  atob (substring_from 4 payload) = Some enc ->
  decrypt this payload w
  = try_catch
      (decrypted <- attemptDecrypt this enc None ;;
       decrypted0 <- (if negb (truthy decrypted) then retry this enc [1; 2; 3] decrypted
                      else ret decrypted) ;;
       decrypt_finish decrypted0)
      decrypt_handler w.
Proof.
  intros Hstart Hatob. unfold decrypt. rewrite Hstart, Hatob. reflexivity.
Qed.

Lemma decrypt_first_valid (this : CryptoEngine) (payload enc : jsstring)
    (w : world) (W : Z) :
  in_window this w W -> 3 < W ->
  startsWith payload (lit "NFC_") = true ->
  atob (substring_from 4 payload) = Some enc ->
  decrypt this payload w = first_valid this enc [W; W - 1; W - 2; W - 3] w.
Proof.
  intros Hw HW Hstart Hatob.
  unfold decrypt. rewrite Hstart, Hatob. cbv [negb or_throw].
  change (try_catch
            (ret tt ;;;
             encrypted <- ret enc ;;
             decrypted <- attemptDecrypt this encrypted None ;;
             decrypted0 <- (if negb (truthy decrypted)
                            then retry this encrypted [1; 2; 3] decrypted
                            else ret decrypted) ;;
             decrypt_finish decrypted0)
            decrypt_handler w
          = first_valid this enc [W; W - 1; W - 2; W - 3] w).
  cbn [first_valid].
  rewrite <- (attemptDecrypt_current this enc w W Hw ltac:(lia)).
  pose proof (attemptDecrypt_no_throw this enc None w) as Hno.
  pose proof (attemptDecrypt_extends this enc None w) as Hext.
  pose proof (attemptDecrypt_truthy this enc None w) as Htrue.
  pose proof (retry_first_valid this enc W [1; 2; 3]) as Hretry.
  cbn [map first_valid] in Hretry.
  unfold try_catch at 1. unfold bind at 1 2. cbv [ret].
  destruct (attemptDecrypt this enc None w) as [[[v |] | e |] w'] eqn:E.
  - rewrite (bind_run _ _ _ _ _ E).
    rewrite (Htrue w' v eq_refl).
    cbv [ret bind decrypt_finish negb]. rewrite (Htrue w' v eq_refl).
    reflexivity.
  - rewrite <- (Hretry ltac:(repeat constructor; lia) None w');
      [| apply (in_window_extends this w w' W Hext Hw) | reflexivity].
    unfold try_catch. rewrite (bind_run _ _ _ _ _ E).
    cbv [truthy negb]. reflexivity.
  - exfalso. apply (Hno e). reflexivity.
  - unfold bind. rewrite E. reflexivity.
Qed.

Lemma extends_tick (w : world) : extends w (tick w).
Proof. apply (preserving_Date_now w). Qed.

Lemma first_valid_skips (this : CryptoEngine) (enc : jsstring) (pre : list Z)
    (seed : Z) (post : list Z) (v : value) :
  (forall x w', In x pre -> fst (attemptDecrypt this enc (Some x) w') = Return None) ->
  forall w,
    (forall w', extends w w' ->
                fst (attemptDecrypt this enc (Some seed) (tick w')) = Return (Some v)) ->
    fst (first_valid this enc (pre ++ seed :: post) w) = Return v.
Proof.
  intros Hpre. induction pre as [|x pre IH]; intros w Hseed; cbn [app first_valid].
  - specialize (Hseed w (extends_refl w)).
    destruct (attemptDecrypt this enc (Some seed) (tick w)) as [o w'].
    cbn [fst] in Hseed. subst o. reflexivity.
  - pose proof (Hpre x (tick w) (or_introl eq_refl)) as Hx.
    pose proof (attemptDecrypt_extends this enc (Some x) (tick w)) as Hext.
    destruct (attemptDecrypt this enc (Some x) (tick w)) as [o w'].
    cbn [fst snd] in Hx, Hext. subst o.
    apply IH.
    + intros y w'' Hy. apply Hpre. right. exact Hy.
    + intros w'' Hw''. apply Hseed.
      eapply extends_trans; [apply extends_tick |].
      eapply extends_trans; [exact Hext | exact Hw''].
Qed.


(** An attempt with the key of the window in which a fresh, non-empty
    Latin-1 envelope was encrypted returns its message. *)
Lemma attemptDecrypt_right_key (this : CryptoEngine) (m : jsstring) (t W i : Z)
    (w : world) :
  timeWindow this = 300000 ->
  latin1 m -> m <> [] ->
  0 <= i <= 3 -> 3 < W <= max_window ->
  t / 300000 = W - i ->
  in_window this w W ->
  fst (attemptDecrypt this
         (xorCipher (JSON_stringify (envelope m t (W - i))) (time_key this (W - i)))
         (Some (W - i)) w)
  = Return (Some (Str m)).
Proof.
  intros Htw Hm Hne Hi HW Ht Hw.
  unfold max_window in HW.
  apply window_bounds in Ht.
  assert (Hnow : W * 300000 <= clock w (reads w) < (W + 1) * 300000).
  { apply window_bounds. rewrite <- Htw. apply (in_window_now this w W Hw). }
  rewrite (attemptDecrypt_envelope this _ (Some (W - i)) w w (W - i) m t (W - i)).
  - replace (clock w (reads w) - t >? 86400000) with false; [reflexivity |].
    symmetry. rewrite Z.gtb_ltb. apply Z.ltb_ge. lia.
  - unfold or_getTimeSeed.
    replace (W - i =? 0) with false by (symmetry; apply Z.eqb_neq; lia). reflexivity.
  - lia.
  - apply xorCipher_cancel;
      [apply stringify_envelope_latin1, Hm | apply simpleHash_latin1].
  - exact Hm.
  - exact Hne.
  - lia.
  - unfold two53. lia.
  - unfold two53. lia.
Qed.

(** A non-empty Latin-1 message encrypted [i] windows before the window
    of [decrypt] is returned, when the attempts at the windows after the
    window of encryption return [null]. *)
Lemma decrypt_returns_message (this : CryptoEngine) (payload enc m : jsstring)
    (we w : world) (W i : Z) :
  timeWindow this = 300000 ->
  in_window this w W -> 3 < W <= max_window ->
  startsWith payload (lit "NFC_") = true ->
  atob (substring_from 4 payload) = Some enc ->
  latin1 m -> m <> [] -> 0 <= i <= 3 ->
  in_window this we (W - i) ->
  fst (encrypt this m None we) = Return payload ->
  (forall j w', 0 <= j < i ->
                fst (attemptDecrypt this enc (Some (W - j)) w') = Return None) ->
  fst (decrypt this payload w) = Return (Str m).
Proof.
  intros Htw Hw HW Hstart Hatob Hm Hne Hi Hwe Henc Hprev.
  pose proof (encrypt_run this m we (W - i) Hwe ltac:(lia) Hm) as Hrun.
  set (t := clock we (S (reads we))) in *.
  set (x := xorCipher (JSON_stringify (envelope m t (W - i))) (time_key this (W - i))) in *.
  rewrite Hrun in Henc. cbn [fst] in Henc.
  assert (Hpayload : lit "NFC_" ++ btoa_chunks x = payload) by congruence.
  clear Henc Hrun.
  assert (Hx : latin1 x).
  { apply xorCipher_latin1; [apply stringify_envelope_latin1, Hm | apply simpleHash_latin1]. }
  assert (Henc : enc = x).
  { rewrite <- Hpayload in Hatob.
    change (substring_from 4 (lit "NFC_" ++ btoa_chunks x)) with (btoa_chunks x) in Hatob.
    rewrite (atob_btoa x (btoa_chunks x)) in Hatob; [congruence |].
    unfold btoa. apply latin1b_true in Hx. rewrite Hx. reflexivity. }
  assert (Ht : t / 300000 = W - i).
  { rewrite <- Htw. apply (Hwe (S (reads we))). lia. }
  assert (Hright : forall w', extends w w' ->
            fst (attemptDecrypt this enc (Some (W - i)) (tick w')) = Return (Some (Str m))).
  { intros w' Hw'. rewrite Henc.
    apply (attemptDecrypt_right_key this m t W i (tick w') Htw Hm Hne Hi HW Ht).
    apply in_window_tick, (in_window_extends this w w' W Hw' Hw). }
  rewrite (decrypt_first_valid this payload enc w W Hw ltac:(lia) Hstart Hatob).
  assert (Hcases : i = 0 \/ i = 1 \/ i = 2 \/ i = 3) by lia.
  destruct Hcases as [-> | [-> | [-> | ->]]].
  - rewrite Z.sub_0_r in Hright.
    apply (first_valid_skips this enc [] W [W - 1; W - 2; W - 3] (Str m)).
    + intros y w' [].
    + exact Hright.
  - apply (first_valid_skips this enc [W] (W - 1) [W - 2; W - 3] (Str m)).
    + intros y w' [<- | []]. rewrite <- (Z.sub_0_r W) at 1. apply Hprev. lia.
    + exact Hright.
  - apply (first_valid_skips this enc [W; W - 1] (W - 2) [W - 3] (Str m)).
    + intros y w' [<- | [<- | []]].
      * rewrite <- (Z.sub_0_r W) at 1. apply Hprev. lia.
      * apply Hprev. lia.
    + exact Hright.
  - apply (first_valid_skips this enc [W; W - 1; W - 2] (W - 3) [] (Str m)).
    + intros y w' [<- | [<- | [<- | []]]].
      * rewrite <- (Z.sub_0_r W) at 1. apply Hprev. lia.
      * apply Hprev. lia.
      * apply Hprev. lia.
    + exact Hright.
Qed.











(** ** The guard on [msg] *)


Lemma first_valid_exhausted (this : CryptoEngine) (enc : jsstring) (windows : list Z) :
  (forall x w', In x windows -> fst (attemptDecrypt this enc (Some x) w') = Return None) ->
  forall w, fst (first_valid this enc windows w) = Throw exhausted_error.
Proof.
  induction windows as [|x windows IH]; intros Hall w; cbn [first_valid]; [reflexivity |].
  pose proof (Hall x (tick w) (or_introl eq_refl)) as Hx.
  destruct (attemptDecrypt this enc (Some x) (tick w)) as [o w'].
  cbn [fst] in Hx. subst o.
  apply IH. intros y w'' Hy. apply Hall. right. exact Hy.
Qed.






(** ** Format rejection *)

Lemma attemptDecrypt_nil (this : CryptoEngine) (timeSeed : option Z) (w : world) :
  exists w',
    attemptDecrypt this [] timeSeed w = (Return None, w')
    /\ length (derived w') = S (length (derived w)).
Proof.
  unfold attemptDecrypt. run_all.
  change (xorCipher [] _) with (@nil N).
  change (parse_text []) with (@SyntaxError value).
  destruct timeSeed as [z |]; [destruct (z =? 0) |];
    cbv beta iota zeta;
    repeat match goal with
           | |- context [if ?b then _ else _] => destruct b
           end;
    eexists; (split; [reflexivity |]);
    cbn [derived logged tick]; rewrite length_app; cbn [length]; lia.
Qed.

Lemma retry_nil (this : CryptoEngine) (indices : list Z) :
  forall w, exists w',
    retry this [] indices None w = (Return None, w')
    /\ length (derived w') = (length (derived w) + length indices)%nat.
Proof.
  induction indices as [|i rest IH]; intros w; cbn [retry].
  - exists w. split; [reflexivity | cbn [length]; lia].
  - unfold bind at 1. unfold getTimeSeed at 1. unfold bind at 1. cbv [Date_now ret].
    destruct (attemptDecrypt_nil this (Some (clock w (reads w) / timeWindow this - i)) (tick w))
      as (w1 & Hrun & Hlen).
    unfold bind at 1. rewrite Hrun.
    cbv [truthy].
    destruct (IH w1) as (w2 & Hrun2 & Hlen2).
    exists w2. split; [exact Hrun2 |].
    rewrite Hlen2, Hlen. cbn [length derived tick]. lia.
Qed.

(** C3, as the code has it.  [decrypt("not-nfc-data")] throws the format
    error at once: no key is derived and the clock is not read.
    [decrypt("NFC_")] passes the test of the prefix, derives a key for each
    of four single-window attempts and throws the exhausted-retry error. *)
Theorem decrypt_format_rejection (this : CryptoEngine) (w : world) :
  decrypt this (lit "not-nfc-data") w = (Throw format_error, w)
  /\ fst (decrypt this (lit "NFC_") w) = Throw exhausted_error
  /\ length (derived (snd (decrypt this (lit "NFC_") w))) = (length (derived w) + 4)%nat.
Proof.
  split; [reflexivity |].
  rewrite (decrypt_decoded this (lit "NFC_") [] w eq_refl eq_refl).
  destruct (attemptDecrypt_nil this None w) as (w1 & Hrun & Hlen).
  destruct (retry_nil this [1; 2; 3] w1) as (w2 & Hrun2 & Hlen2).
  unfold try_catch.
  rewrite (bind_run _ _ _ _ _ Hrun).
  cbv [truthy negb]. rewrite (bind_run _ _ _ _ _ Hrun2).
  cbv [decrypt_finish throw decrypt_handler bind message]. cbn [fst snd].
  split; [reflexivity |].
  rewrite Hlen2, Hlen. cbn [length]. lia.
Qed.

(** C3 as stated fails for ["NFC_"]: [decrypt] derives the keys of four
    windows and reports exhausted retries, not a format error. *)
Lemma decrypt_prefix_only_derives_keys :
  fst (decrypt sample_engine (lit "NFC_") (sample_world 1700000000000))
  = Throw exhausted_error
  /\ derived (snd (decrypt sample_engine (lit "NFC_") (sample_world 1700000000000)))
     = [5666666; 5666665; 5666664; 5666663]
  /\ exhausted_error <> format_error.
Proof.
  split; [vm_compute; reflexivity |].
  split; [vm_compute; reflexivity |].
  discriminate.
Qed.

(** ** Expiry *)

(** C2 fails on the code.  An envelope stamped 25 hours before the time of
    [decrypt] and encrypted with the key of the current window parses and
    carries a valid checksum; the [throw] of ["Message expired"] is caught
    inside [attemptDecrypt], the retry loop goes on, and [decrypt] throws
    the exhausted-retry error. *)
Lemma expired_envelope_exhausts_retries :
  fst (encrypt sample_engine (lit "hello") (Some 5666966) (sample_world 1700000000000))
  = Return expired_payload
  /\ atob (substring_from 4 expired_payload) = Some expired_encrypted
  /\ parse_text (xorCipher expired_encrypted (time_key sample_engine 5666966))
     = Ok (envelope (lit "hello") 1700000000000 5666966) []
  /\ in_window sample_engine (sample_world 1700090000000) 5666966
  /\ 1700090000000 - 1700000000000 > 86400000
  /\ fst (attemptDecrypt sample_engine expired_encrypted None (sample_world 1700090000000))
     = Return None
  /\ fst (decrypt sample_engine expired_payload (sample_world 1700090000000))
     = Throw exhausted_error
  /\ exhausted_error <> expired_error.
Proof.
  split; [vm_compute; reflexivity |].
  split; [vm_compute; reflexivity |].
  split; [vm_compute; reflexivity |].
  split; [intros k _; reflexivity |].
  split; [reflexivity |].
  split; [vm_compute; reflexivity |].
  split; [vm_compute; reflexivity |].
  discriminate.
Qed.

(** ** Texts that parse to no object *)

Lemma lower_hex_cases (f : N -> bool) :
  forallb f hex_units = true -> forall k, lower_hex k = true -> f k = true.
Proof.
  intros Hall k Hk. rewrite forallb_forall in Hall. apply Hall.
  assert (Hlt : (k < 128)%N).
  { unfold lower_hex in Hk. apply orb_true_iff in Hk. destruct Hk as [H | H];
      apply andb_true_iff in H; destruct H as [_ H]; apply N.leb_le in H; lia. }
  assert (Htable : forallb (fun n => implb (lower_hex n) (existsb (N.eqb n) hex_units))
                     (map N.of_nat (seq 0 128)) = true) by (vm_compute; reflexivity).
  rewrite forallb_forall in Htable.
  specialize (Htable k). rewrite Hk in Htable. cbn [implb] in Htable.
  assert (Hin : In k (map N.of_nat (seq 0 128))).
  { apply in_map_iff. exists (N.to_nat k). split; [apply N2Nat.id |]. apply in_seq. lia. }
  specialize (Htable Hin). apply existsb_exists in Htable.
  destruct Htable as (x & Hx & Heq). apply N.eqb_eq in Heq. subst x. exact Hx.
Qed.

(** Under two different key characters the opening brace of an envelope
    does not decrypt to a brace. *)
Lemma brace_under_wrong_key (k k' : N) :
  lower_hex k = true -> lower_hex k' = true -> k <> k' ->
  (xor_unit (xor_unit 123 k) k' =? 123)%N = false.
Proof.
  intros Hk Hk' Hne.
  pose proof (lower_hex_cases
                (fun a => forallb (fun b => implb (xor_unit (xor_unit 123 a) b =? 123)%N
                                                  (a =? b)%N) hex_units)
                ltac:(vm_compute; reflexivity) k Hk) as H.
  cbv beta in H.
  pose proof (lower_hex_cases _ H k' Hk') as H'. cbv beta in H'.
  destruct (xor_unit (xor_unit 123 k) k' =? 123)%N; [| reflexivity].
  cbn [implb] in H'. apply N.eqb_eq in H'. contradiction.
Qed.

(** Under any two key characters the [m] of ["msg"] decrypts to no white
    space, brace or quotation mark. *)
Lemma letter_under_wrong_key (k k' : N) :
  lower_hex k = true -> lower_hex k' = true ->
  json_whitespace (xor_unit (xor_unit 109 k) k') = false
  /\ (xor_unit (xor_unit 109 k) k' =? 123)%N = false
  /\ (xor_unit (xor_unit 109 k) k' =? 125)%N = false
  /\ (xor_unit (xor_unit 109 k) k' =? 34)%N = false.
Proof.
  intros Hk Hk'.
  pose proof (lower_hex_cases
                (fun a => forallb (fun b =>
                   let c := xor_unit (xor_unit 109 a) b in
                   negb (json_whitespace c) && negb (c =? 123)%N
                   && negb (c =? 125)%N && negb (c =? 34)%N) hex_units)
                ltac:(vm_compute; reflexivity) k Hk) as H.
  cbv beta in H.
  pose proof (lower_hex_cases _ H k' Hk') as H'. cbv beta zeta in H'.
  repeat (apply andb_true_iff in H'; destruct H' as [H' ?]).
  repeat split; apply negb_true_iff; assumption.
Qed.

(** A text whose first character other than white space is not an opening
    brace, or whose opening brace is not followed by a key or a closing
    brace, does not parse to an object. *)
Lemma parse_value_not_object (fuel : nat) (c0 c1 c2 : N) (rest r : jsstring) (v : value) :
  (c0 =? 123)%N = false ->
  json_whitespace c2 = false -> (c2 =? 123)%N = false ->
  (c2 =? 125)%N = false -> (c2 =? 34)%N = false ->
  parse_value fuel (c0 :: c1 :: c2 :: rest) = Ok v r ->
  forall members, v <> Object members.
Proof.
  intros H0 Hws H123 H125 H34 Hparse members ->.
  destruct fuel as [|f]; [discriminate |].
  assert (Hother : forall c s r',
             (if (c =? 34)%N
              then match parse_string_body s with
                   | Some (str, r0) => Ok (Str str) r0
                   | None => SyntaxError
                   end
              else if (c =? 91)%N
                   then match skip_ws s with
                        | [] => SyntaxError
                        | d :: r0 =>
                            if (d =? 93)%N then Ok (Array []) r0
                            else match parse_elements f s with
                                 | Ok elements r'0 => Ok (Array elements) r'0
                                 | SyntaxError => SyntaxError
                                 | OutOfFuel => OutOfFuel
                                 end
                        end
                   else if (c =? 116)%N then parse_word (lit "true") (Bool true) (c :: s)
                   else if (c =? 102)%N then parse_word (lit "false") (Bool false) (c :: s)
                   else if (c =? 110)%N then parse_word (lit "null") Null (c :: s)
                   else match parse_number (c :: s) with
                        | Some (n, r0) => Ok (Number n) r0
                        | None => SyntaxError
                        end) = Ok (Object members) r' -> False).
  { intros c s r'. unfold parse_word.
    destruct (c =? 34)%N; [destruct (parse_string_body s) as [[? ?] |]; discriminate |].
    destruct (c =? 91)%N.
    { destruct (skip_ws s) as [|d r0]; [discriminate |].
      destruct (d =? 93)%N; [discriminate |].
      destruct (parse_elements f s); discriminate. }
    destruct (c =? 116)%N; [destruct (startsWith _ _); discriminate |].
    destruct (c =? 102)%N; [destruct (startsWith _ _); discriminate |].
    destruct (c =? 110)%N; [destruct (startsWith _ _); discriminate |].
    destruct (parse_number (c :: s)) as [[? ?] |]; discriminate. }
  cbn [parse_value skip_ws] in Hparse.
  destruct (json_whitespace c0).
  - destruct (json_whitespace c1).
    + rewrite Hws, H123 in Hparse. apply (Hother c2 rest r Hparse).
    + destruct (c1 =? 123)%N eqn:E1; [| apply (Hother c1 (c2 :: rest) r Hparse)].
      destruct (c1 =? 34)%N; [destruct (parse_string_body _) as [[? ?] |]; discriminate |].
      cbn [skip_ws] in Hparse. rewrite Hws, H125 in Hparse.
      destruct f as [|f']; [discriminate |].
      cbn [parse_members skip_ws] in Hparse. rewrite Hws, H34 in Hparse.
      discriminate.
  - rewrite H0 in Hparse. apply (Hother c0 (c1 :: c2 :: rest) r Hparse).
Qed.

Lemma attemptDecrypt_not_object (this : CryptoEngine) (enc : jsstring) (seed : Z)
    (w : world) :
  seed <> 0 ->
  (forall v r members,
      parse_text (xorCipher enc (time_key this seed)) = Ok v r -> v <> Object members) ->
  attemptDecrypt this enc (Some seed) w = (Return None, logged seed w).
Proof.
  intros Hseed Hnot.
  unfold attemptDecrypt, try_catch.
  rewrite (bind_run _ _ w w seed)
    by (unfold or_getTimeSeed; apply Z.eqb_neq in Hseed; rewrite Hseed; reflexivity).
  rewrite (bind_run _ _ _ _ _ (generateTimeKey_run this w seed Hseed)).
  cbv zeta. unfold JSON_parse.
  pose proof (parse_text_total (xorCipher enc (time_key this seed))) as Htotal.
  destruct (parse_text (xorCipher enc (time_key this seed))) as [v r | |];
    [| reflexivity | contradiction].
  specialize (Hnot v r).
  destruct v; try reflexivity.
  exfalso. apply (Hnot members eq_refl eq_refl).
Qed.

Lemma expandKey_loop_prefix (key : jsstring) (length : nat)
    (expandedKey : jsstring) (counter : Z) :
  exists tail, expandKey_loop key length expandedKey counter = expandedKey ++ tail.
Proof.
  funelim (expandKey_loop key length expandedKey counter).
  - destruct H as (tail & ->). rewrite <- app_assoc. eauto.
  - exists []. rewrite app_nil_r. reflexivity.
Qed.

(** The first three units of a ciphertext are those of the data, each
    XORed with the key unit of its position. *)
Lemma xorCipher_head (d0 d1 d2 k0 k1 k2 : N) (data key : jsstring) :
  exists tail,
    xorCipher (d0 :: d1 :: d2 :: data) (k0 :: k1 :: k2 :: key)
    = xor_unit d0 k0 :: xor_unit d1 k1 :: xor_unit d2 k2 :: tail.
Proof.
  rewrite xorCipher_combine. unfold expandKey, substring0.
  destruct (expandKey_loop_prefix (k0 :: k1 :: k2 :: key)
              (length (d0 :: d1 :: d2 :: data)) (k0 :: k1 :: k2 :: key) 0) as (tail & ->).
  cbn [length firstn app combine map fst snd]. eauto.
Qed.

Lemma simpleHash_units (str : jsstring) :
  exists k0 k1 k2 rest,
    simpleHash str = k0 :: k1 :: k2 :: rest
    /\ lower_hex k0 = true /\ lower_hex k1 = true /\ lower_hex k2 = true.
Proof.
  pose proof (simpleHash_length str) as Hlen.
  pose proof (simpleHash_lower_hex str) as Hhex.
  destruct (simpleHash str) as [|k0 [|k1 [|k2 rest]]]; try discriminate.
  cbn [forallb] in Hhex.
  apply andb_true_iff in Hhex. destruct Hhex as [H0 Hhex].
  apply andb_true_iff in Hhex. destruct Hhex as [H1 Hhex].
  apply andb_true_iff in Hhex. destruct Hhex as [H2 _].
  exists k0, k1, k2, rest. auto.
Qed.

(** ** The format test: [isValidEncryptedFormat] *)

Lemma b64_char_class (n : N) : base64_class (b64_char n) = true.
Proof.
  unfold b64_char, base64_class.
  destruct (n <? 26)%N eqn:E1; [apply N.ltb_lt in E1 |].
  { replace ((65 <=? 65 + n) && (65 + n <=? 90))%N with true; [reflexivity |].
    symmetry. apply andb_true_iff. split; apply N.leb_le; lia. }
  apply N.ltb_ge in E1.
  destruct (n <? 52)%N eqn:E2; [apply N.ltb_lt in E2 |].
  { replace ((97 <=? 71 + n) && (71 + n <=? 122))%N with true;
      [rewrite orb_true_r; reflexivity |].
    symmetry. apply andb_true_iff. split; apply N.leb_le; lia. }
  apply N.ltb_ge in E2.
  destruct (n <? 62)%N eqn:E3; [apply N.ltb_lt in E3 |].
  { replace ((48 <=? n - 4) && (n - 4 <=? 57))%N with true;
      [rewrite !orb_true_r; reflexivity |].
    symmetry. apply andb_true_iff. split; apply N.leb_le; lia. }
  destruct (n =? 62)%N; reflexivity.
Qed.

Lemma btoa_chunks_class (s : jsstring) : forallb base64_class (btoa_chunks s) = true.
Proof.
  induction s as [| a | a b | a b c rest IH] using list_ind3;
    cbn [btoa_chunks forallb]; rewrite ?b64_char_class; try reflexivity.
  exact IH.
Qed.

Lemma btoa_chunks_length (s : jsstring) :
  length (btoa_chunks s) = (4 * ((length s + 2) / 3))%nat.
Proof.
  induction s as [| a | a b | a b c rest IH] using list_ind3; try reflexivity.
  cbn [btoa_chunks length]. rewrite IH.
  replace (S (S (S (length rest))) + 2)%nat with (length rest + 2 + 1 * 3)%nat by lia.
  rewrite Nat.div_add by discriminate. lia.
Qed.

Lemma stringify_envelope_length (m : jsstring) (t sd : Z) :
  (7 <= length (JSON_stringify (envelope m t sd)))%nat.
Proof.
  rewrite stringify_envelope.
  change (quote (lit "msg")) with [34%N; 109%N; 115%N; 103%N; 34%N].
  cbn [app length]. lia.
Qed.

(** The payloads of [encrypt]: the prefix, then the base64 text of a
    ciphertext as long as the serialized envelope. *)
Lemma encrypt_returns (this : CryptoEngine) (m : jsstring) (customTimeSeed : option Z)
    (w : world) (payload : jsstring) :
  fst (encrypt this m customTimeSeed w) = Return payload ->
  exists timestamp timeSeed keySeed,
    payload = lit "NFC_"
              ++ btoa_chunks (xorCipher (JSON_stringify (envelope m timestamp timeSeed))
                                        (time_key this keySeed))
    /\ latin1 (xorCipher (JSON_stringify (envelope m timestamp timeSeed))
                         (time_key this keySeed)).
Proof.
  intros H.
  destruct (encrypt_outcome this m customTimeSeed w) as (t & sd & ks & Heq).
  rewrite Heq in H. exists t, sd, ks.
  unfold btoa in H.
  destruct (latin1b _) eqn:E; [| discriminate].
  split; [congruence | apply latin1b_true, E].
Qed.

Lemma valid_format_base64 (s : jsstring) :
  forallb base64_class s = true -> (7 <= length s)%nat ->
  isValidEncryptedFormat (lit "NFC_" ++ s) = true.
Proof.
  intros Hclass Hlen.
  unfold isValidEncryptedFormat, format_regex_test.
  change (startsWith (lit "NFC_" ++ s) (lit "NFC_")) with true.
  change (substring_from 4 (lit "NFC_" ++ s)) with s.
  rewrite length_app. change (length (lit "NFC_")) with 4%nat.
  replace (10 <? 4 + length s)%nat with true by (symmetry; apply Nat.ltb_lt; lia).
  destruct s as [|c rest]; [simpl in Hlen; lia |].
  rewrite Hclass. reflexivity.
Qed.

(** The prefix and the base64 text of five bytes or more make a payload
    that passes the test. *)
Lemma btoa_payload_format (x : jsstring) :
  (5 <= length x)%nat -> isValidEncryptedFormat (lit "NFC_" ++ btoa_chunks x) = true.
Proof.
  intros Hlen.
  apply valid_format_base64; [apply btoa_chunks_class |].
  rewrite btoa_chunks_length.
  assert (2 <= (length x + 2) / 3)%nat; [| lia].
  apply Nat.div_le_lower_bound; lia.
Qed.

(** X1.  Whatever [encrypt] returns passes [isValidEncryptedFormat]: the
    payload starts with [NFC_], is longer than 10 characters and holds
    base64 characters only after the prefix.  This holds for every message,
    every custom seed and every clock. *)
Theorem encrypt_output_valid_format (this : CryptoEngine) (m : jsstring)
    (customTimeSeed : option Z) (w : world) (payload : jsstring) :
  fst (encrypt this m customTimeSeed w) = Return payload ->
  isValidEncryptedFormat payload = true.
Proof.
  intros H.
  destruct (encrypt_returns this m customTimeSeed w payload H) as (t & sd & ks & -> & _).
  apply btoa_payload_format.
  rewrite xorCipher_length.
  pose proof (stringify_envelope_length m t sd). lia.
Qed.

Lemma encrypt_output_valid_format_witness :
  fst (encrypt sample_engine (lit "hello") None (sample_world 1700000000000))
  = Return sample_payload
  /\ isValidEncryptedFormat sample_payload = true.
Proof.
  assert (H : fst (encrypt sample_engine (lit "hello") None (sample_world 1700000000000))
              = Return sample_payload) by (vm_compute; reflexivity).
  split; [exact H |].
  apply (encrypt_output_valid_format sample_engine (lit "hello") None
           (sample_world 1700000000000) sample_payload H).
Defined.

(** X2.  A payload without the prefix [NFC_] is refused by both tests:
    [isValidEncryptedFormat] is false and [decrypt] throws the format
    error at once; no clock is read and no key derived (the host state is
    as before). *)
Theorem decrypt_without_prefix (this : CryptoEngine) (data : jsstring) (w : world) :
  startsWith data (lit "NFC_") = false ->
  decrypt this data w = (Throw format_error, w)
  /\ isValidEncryptedFormat data = false.
Proof.
  intros H. split.
  - unfold decrypt, try_catch, bind. rewrite H. reflexivity.
  - unfold isValidEncryptedFormat. rewrite H. reflexivity.
Qed.

Lemma decrypt_without_prefix_witness :
  startsWith (lit "nfc_aGVsbG8gd29ybGQ=") (lit "NFC_") = false
  /\ decrypt sample_engine (lit "nfc_aGVsbG8gd29ybGQ=") (sample_world 1700000000000)
     = (Throw format_error, sample_world 1700000000000)
  /\ isValidEncryptedFormat (lit "nfc_aGVsbG8gd29ybGQ=") = false.
Proof.
  assert (H : startsWith (lit "nfc_aGVsbG8gd29ybGQ=") (lit "NFC_") = false) by reflexivity.
  split; [exact H |].
  apply (decrypt_without_prefix sample_engine (lit "nfc_aGVsbG8gd29ybGQ=")
           (sample_world 1700000000000) H).
Defined.

(** A base64 text with one character left over after the groups of four
    does not decode. *)
Lemma atob_chunks_left_over (n : nat) :
  forall s, (length s <= n)%nat -> (length s mod 4 = 1)%nat -> atob_chunks s = None.
Proof.
  induction n as [|n IH]; intros s Hn Hmod.
  - destruct s; [discriminate | simpl in Hn; lia].
  - destruct s as [|c1 [|c2 [|c3 [|c4 rest]]]]; try discriminate; [reflexivity |].
    cbn [length] in Hn, Hmod.
    assert (Hrest : (length rest mod 4 = 1)%nat).
    { replace (S (S (S (S (length rest))))) with (length rest + 1 * 4)%nat in Hmod by lia.
      rewrite Nat.Div0.mod_add in Hmod. exact Hmod. }
    cbn [atob_chunks].
    destruct rest as [|c5 rest']; [discriminate |].
    rewrite (IH (c5 :: rest')) by (cbn [length] in *; lia || exact Hrest).
    destruct (decode4 c1 c2 c3 c4); reflexivity.
Qed.

Lemma base64_class_no_whitespace (s : jsstring) :
  forallb base64_class s = true ->
  filter (fun c => negb (ascii_whitespace c)) s = s.
Proof.
  induction s as [|c s IH]; intros H; [reflexivity |].
  cbn [forallb] in H. apply andb_true_iff in H. destruct H as [Hc Hs].
  cbn [filter].
  assert (Hws : ascii_whitespace c = false).
  { unfold base64_class in Hc. unfold ascii_whitespace.
    destruct (N.eqb_spec c 9); [subst; discriminate |].
    destruct (N.eqb_spec c 10); [subst; discriminate |].
    destruct (N.eqb_spec c 12); [subst; discriminate |].
    destruct (N.eqb_spec c 13); [subst; discriminate |].
    destruct (N.eqb_spec c 32); [subst; discriminate |].
    reflexivity. }
  rewrite Hws. cbn [negb]. rewrite IH by exact Hs. reflexivity.
Qed.

(** X3.  [isValidEncryptedFormat] does not check that the text is base64:
    a payload of the prefix and at least seven characters of the class,
    whose number leaves one over after the groups of four, passes the test,
    and [decrypt] throws on it with the message of [atob]'s exception,
    before any clock reading or key derivation. *)
Theorem valid_format_not_decodable (this : CryptoEngine) (s : jsstring) (w : world) :
  forallb base64_class s = true ->
  (7 <= length s)%nat -> (length s mod 4 = 1)%nat ->
  isValidEncryptedFormat (lit "NFC_" ++ s) = true
  /\ decrypt this (lit "NFC_" ++ s) w
     = (Throw (Error (lit "Decryption failed: " ++ host_message w InvalidCharacterError)), w).
Proof.
  intros Hclass Hlen Hmod.
  split; [apply valid_format_base64; assumption |].
  unfold decrypt, try_catch, bind.
  change (startsWith (lit "NFC_" ++ s) (lit "NFC_")) with true.
  change (substring_from 4 (lit "NFC_" ++ s)) with s.
  cbn [negb ret].
  unfold atob. rewrite (base64_class_no_whitespace s Hclass).
  rewrite (atob_chunks_left_over (length s) s (le_n _) Hmod).
  reflexivity.
Qed.

Lemma valid_format_not_decodable_witness :
  forallb base64_class (lit "aGVsbG8gd") = true
  /\ (7 <= length (lit "aGVsbG8gd"))%nat
  /\ (length (lit "aGVsbG8gd") mod 4 = 1)%nat
  /\ isValidEncryptedFormat (lit "NFC_" ++ lit "aGVsbG8gd") = true
  /\ decrypt sample_engine (lit "NFC_" ++ lit "aGVsbG8gd") (sample_world 1700000000000)
     = (Throw (Error (lit "Decryption failed: "
                      ++ host_message (sample_world 1700000000000) InvalidCharacterError)),
        sample_world 1700000000000).
Proof.
  assert (H1 : forallb base64_class (lit "aGVsbG8gd") = true) by reflexivity.
  assert (H2 : (7 <= length (lit "aGVsbG8gd"))%nat) by (simpl; lia).
  assert (H3 : (length (lit "aGVsbG8gd") mod 4 = 1)%nat) by reflexivity.
  split; [exact H1 |]. split; [exact H2 |]. split; [exact H3 |].
  apply (valid_format_not_decodable sample_engine (lit "aGVsbG8gd")
           (sample_world 1700000000000) H1 H2 H3).
Defined.

Lemma filter_idem {A : Type} (f : A -> bool) (l : list A) :
  filter f (filter f l) = filter f l.
Proof.
  induction l as [|a l IH]; [reflexivity |].
  cbn [filter]. destruct (f a) eqn:E; [| exact IH].
  cbn [filter]. rewrite E, IH. reflexivity.
Qed.

Lemma forallb_base64_class_whitespace (s : jsstring) :
  existsb ascii_whitespace s = true -> forallb base64_class s = false.
Proof.
  induction s as [|c s IH]; intros H; [discriminate |].
  cbn [existsb] in H. cbn [forallb].
  destruct (ascii_whitespace c) eqn:E.
  - assert (Hc : base64_class c = false).
    { unfold ascii_whitespace in E.
      repeat (apply orb_true_iff in E; destruct E as [E | E]);
        apply N.eqb_eq in E; subst; reflexivity. }
    rewrite Hc. reflexivity.
  - rewrite IH by exact H. apply andb_false_r.
Qed.

(** X4.  The two tests disagree on white space.  [decrypt] reads its
    payload through [atob], which drops ASCII white space: the outcome is
    that of the payload with the white space removed.  But
    [isValidEncryptedFormat] refuses every payload that has white space
    after the prefix (no payload has white space and passes the test). *)
Theorem decrypt_ignores_whitespace (this : CryptoEngine) (s : jsstring) (w : world) :
  decrypt this (lit "NFC_" ++ s) w
  = decrypt this (lit "NFC_" ++ filter (fun c => negb (ascii_whitespace c)) s) w
  /\ existsb ascii_whitespace s && isValidEncryptedFormat (lit "NFC_" ++ s) = false.
Proof.
  split.
  - unfold decrypt.
    change (startsWith (lit "NFC_" ++ s) (lit "NFC_")) with true.
    change (startsWith (lit "NFC_" ++ filter (fun c => negb (ascii_whitespace c)) s)
              (lit "NFC_")) with true.
    change (substring_from 4 (lit "NFC_" ++ s)) with s.
    change (substring_from 4 (lit "NFC_" ++ filter (fun c => negb (ascii_whitespace c)) s))
      with (filter (fun c => negb (ascii_whitespace c)) s).
    unfold atob. rewrite filter_idem. reflexivity.
  - destruct (existsb ascii_whitespace s) eqn:Hws; [| reflexivity].
    cbn [andb].
    unfold isValidEncryptedFormat, format_regex_test.
    change (substring_from 4 (lit "NFC_" ++ s)) with s.
    destruct s as [|c rest]; [discriminate |].
    rewrite (forallb_base64_class_whitespace (c :: rest) Hws).
    rewrite !andb_false_r. reflexivity.
Qed.

(** ** What [decrypt] returns *)



(** ** The outcomes of [decrypt] *)

Lemma try_catch_bind {A B : Type} (m : M A) (k : A -> M B) (h : exn -> M B)
    (w w' : world) (a : A) :
  m w = (Return a, w') -> try_catch (bind m k) h w = try_catch (k a) h w'.
Proof. intros H. unfold try_catch, bind. rewrite H. reflexivity. Qed.

Lemma retry_returns (this : CryptoEngine) (enc : jsstring) (indices : list Z) :
  forall (decrypted : option value) (w : world),
    exists r w', retry this enc indices decrypted w = (Return r, w').
Proof.
  induction indices as [|i rest IH]; intros decrypted w; cbn [retry].
  - exists decrypted, w. reflexivity.
  - unfold bind at 1. unfold getTimeSeed at 1. unfold bind at 1. cbv [Date_now ret].
    unfold bind at 1.
    destruct (attemptDecrypt_returns this enc
                (Some (clock w (reads w) / timeWindow this - i)) (tick w)) as (r & Hr).
    destruct (attemptDecrypt this enc (Some (clock w (reads w) / timeWindow this - i))
                (tick w)) as [o w1].
    cbn [fst] in Hr. subst o.
    destruct (truthy r); [exists r, w1; reflexivity | apply IH].
Qed.

(** X21.  Whatever the payload and the clock, [decrypt] ends in one of
    four ways: it returns a truthy value, or it throws the format error,
    the error of [atob], or the exhausted-retry error.  No run throws the
    expiry error, and none leaves the modelled fragment. *)
Theorem decrypt_errors (this : CryptoEngine) (payload : jsstring) (w : world) :
  (exists v, fst (decrypt this payload w) = Return v /\ truthy (Some v) = true)
  \/ fst (decrypt this payload w) = Throw format_error
  \/ fst (decrypt this payload w)
     = Throw (Error (lit "Decryption failed: " ++ host_message w InvalidCharacterError))
  \/ fst (decrypt this payload w) = Throw exhausted_error.
Proof.
  destruct (startsWith payload (lit "NFC_")) eqn:Hstart.
  - destruct (atob (substring_from 4 payload)) as [enc |] eqn:Hatob.
    + rewrite (decrypt_decoded this payload enc w Hstart Hatob).
      destruct (attemptDecrypt_returns this enc None w) as (r & Hr).
      destruct (attemptDecrypt this enc None w) as [o w1] eqn:Hrun.
      cbn [fst] in Hr. subst o.
      rewrite (try_catch_bind _ _ _ _ _ _ Hrun).
      assert (Hfinish : forall d w2,
                 (exists v, fst (try_catch (decrypt_finish d) decrypt_handler w2) = Return v
                            /\ truthy (Some v) = true)
                 \/ fst (try_catch (decrypt_finish d) decrypt_handler w2)
                    = Throw exhausted_error).
      { intros d w2. unfold decrypt_finish, try_catch.
        destruct d as [v |]; [| right; reflexivity].
        destruct (truthy (Some v)) eqn:Hv; cbv [negb ret];
          [left; exists v; split; [reflexivity | exact Hv] | right; reflexivity]. }
      destruct (truthy r) eqn:Hfound; cbv [negb].
      * rewrite (try_catch_bind _ _ _ w1 w1 r eq_refl).
        destruct (Hfinish r w1) as [H | H]; [left; exact H | right; right; right; exact H].
      * destruct (retry_returns this enc [1; 2; 3] r w1) as (r2 & w2 & Hrun2).
        rewrite (try_catch_bind _ _ _ _ _ _ Hrun2).
        destruct (Hfinish r2 w2) as [H | H]; [left; exact H | right; right; right; exact H].
    + right. right. left.
      unfold decrypt. rewrite Hstart, Hatob. reflexivity.
  - right. left. unfold decrypt. rewrite Hstart. reflexivity.
Qed.

(** ** The age limit *)

(** X6.  The 24-hour limit, on the single-window attempt.  With the key
    the envelope of a non-empty Latin-1 message was encrypted under,
    [attemptDecrypt] returns the message exactly as long as the clock is at
    most 86400000 ms past the envelope's [ts]: at 24 hours sharp the
    message is returned, one millisecond later the result is [null].  A
    [ts] ahead of the clock is accepted. *)
Theorem attemptDecrypt_age_limit (this : CryptoEngine) (m : jsstring) (t sd seed : Z)
    (w : world) :
  seed <> 0 -> latin1 m -> m <> [] ->
  t <> 0 -> Z.abs t <= two53 -> Z.abs sd <= two53 ->
  fst (attemptDecrypt this
         (xorCipher (JSON_stringify (envelope m t sd)) (time_key this seed))
         (Some seed) w)
  = Return (if clock w (reads w) - t <=? 86400000 then Some (Str m) else None).
Proof.
  intros Hseed Hm Hne Ht Htb Hsd.
  rewrite (attemptDecrypt_envelope this _ (Some seed) w w seed m t sd);
    try assumption.
  - cbn [fst]. f_equal.
    destruct (clock w (reads w) - t >? 86400000) eqn:E;
      destruct (clock w (reads w) - t <=? 86400000) eqn:E'; try reflexivity; lia.
  - unfold or_getTimeSeed. apply Z.eqb_neq in Hseed. rewrite Hseed. reflexivity.
  - apply xorCipher_cancel; [apply stringify_envelope_latin1, Hm | apply simpleHash_latin1].
Qed.

Lemma attemptDecrypt_age_limit_witness :
  5666666 <> 0 /\ latin1 (lit "hello") /\ lit "hello" <> []
  /\ 1700000000000 <> 0 /\ Z.abs 1700000000000 <= two53 /\ Z.abs 5666666 <= two53
  /\ fst (attemptDecrypt sample_engine
            (xorCipher (JSON_stringify (envelope (lit "hello") 1700000000000 5666666))
                       (time_key sample_engine 5666666))
            (Some 5666666) (sample_world 1700086400000))
     = Return (if clock (sample_world 1700086400000) (reads (sample_world 1700086400000))
                  - 1700000000000 <=? 86400000
               then Some (Str (lit "hello")) else None).
Proof.
  assert (H1 : 5666666 <> 0) by discriminate.
  assert (H2 : latin1 (lit "hello")) by (apply latin1_lit).
  assert (H3 : lit "hello" <> []) by discriminate.
  assert (H4 : 1700000000000 <> 0) by discriminate.
  assert (H5 : Z.abs 1700000000000 <= two53) by (unfold two53; lia).
  assert (H6 : Z.abs 5666666 <= two53) by (unfold two53; lia).
  split; [exact H1 |]. split; [exact H2 |]. split; [exact H3 |].
  split; [exact H4 |]. split; [exact H5 |]. split; [exact H6 |].
  apply (attemptDecrypt_age_limit sample_engine (lit "hello") 1700000000000 5666666 5666666
           (sample_world 1700086400000) H1 H2 H3 H4 H5 H6).
Defined.

(** ** The key stream does not depend on the length asked for *)

Lemma spec_stream_app (seed : jsstring) (m k : nat) :
  exists tail, spec_stream seed (m + k) = spec_stream seed m ++ tail.
Proof.
  induction k as [|k (tail & IH)].
  - exists []. rewrite Nat.add_0_r, app_nil_r. reflexivity.
  - rewrite Nat.add_succ_r. cbn [spec_stream]. rewrite IH, <- app_assoc. eauto.
Qed.

Lemma firstn_spec_stream (seed : jsstring) (n m m' : nat) :
  (n <= length (spec_stream seed m))%nat -> (m <= m')%nat ->
  firstn n (spec_stream seed m') = firstn n (spec_stream seed m).
Proof.
  intros Hn Hm.
  destruct (spec_stream_app seed m (m' - m)) as (tail & Heq).
  replace (m + (m' - m))%nat with m' in Heq by lia.
  rewrite Heq, firstn_app.
  replace (n - length (spec_stream seed m))%nat with 0%nat by lia.
  cbn [firstn]. apply app_nil_r.
Qed.

Lemma expandKey_stream (seed : jsstring) (length : nat) :
  exists m : nat,
    expandKey seed length = firstn length (spec_stream seed m)
    /\ (length <= List.length (spec_stream seed m))%nat.
Proof.
  destruct (expandKey_loop_spec seed length seed 0 0%nat) as (m & Hm & Hle & _);
    [reflexivity | reflexivity | intros j Hj; lia |].
  exists m. unfold expandKey, substring0. rewrite Hm. auto.
Qed.

Lemma expandKey_firstn (key : jsstring) (n n' : nat) :
  (n <= n')%nat -> expandKey key n = firstn n (expandKey key n').
Proof.
  intros Hle.
  destruct (expandKey_stream key n) as (m & -> & Hm).
  destruct (expandKey_stream key n') as (m' & -> & Hm').
  rewrite firstn_firstn, Nat.min_l by exact Hle.
  destruct (Nat.le_ge_cases m m') as [H | H].
  - symmetry. apply firstn_spec_stream; assumption.
  - apply firstn_spec_stream; [lia | exact H].
Qed.

(** X7.  The key stream is one stream: the expanded key for a length is
    the beginning of the expanded key for any greater length.  The counter
    and the blocks of [expandKey] do not depend on the length asked for. *)
Theorem expandKey_prefix (key : jsstring) (n n' : nat) :
  (n <= n')%nat -> expandKey key n = substring0 n (expandKey key n').
Proof.
  intros Hle. unfold substring0. apply expandKey_firstn, Hle.
Qed.

Lemma expandKey_prefix_witness :
  (5 <= 20)%nat
  /\ expandKey (lit "k3y") 5 = substring0 5 (expandKey (lit "k3y") 20).
Proof.
  assert (H : (5 <= 20)%nat) by lia.
  split; [exact H |].
  apply (expandKey_prefix (lit "k3y") 5 20 H).
Defined.

Lemma combine_firstn_l {A B : Type} (n : nat) (l : list A) (l' : list B) :
  length l' = length l ->
  combine (firstn n l) (firstn (length (firstn n l)) l') = firstn n (combine l l').
Proof.
  revert l l'. induction n as [|n IH]; intros l l' Hlen; [reflexivity |].
  destruct l as [|a l]; [reflexivity |].
  destruct l' as [|b l']; [discriminate |].
  cbn [firstn length combine]. f_equal. apply IH. simpl in Hlen. lia.
Qed.

(** X8.  [xorCipher] works position by position: the ciphertext of the
    first [n] characters of a text is the first [n] characters of its
    ciphertext, under any key.  An output character depends on the key, on
    its position and on the input character at that position only. *)
Theorem xorCipher_prefix (data key : jsstring) (n : nat) :
  xorCipher (substring0 n data) key = substring0 n (xorCipher data key).
Proof.
  unfold substring0.
  rewrite !xorCipher_combine.
  rewrite (expandKey_firstn key (length (firstn n data)) (length data))
    by (rewrite length_firstn; lia).
  rewrite combine_firstn_l by apply expandKey_length.
  symmetry. apply firstn_map.
Qed.

(** ** The key of a payload *)

Lemma xor_unit_cancel_l (d k : N) : code_unit k -> xor_unit (xor_unit d k) d = k.
Proof.
  intros Hk. unfold xor_unit, code_unit in *.
  change 65536%N with (2 ^ 16)%N.
  rewrite <- !N.land_ones.
  apply N.bits_inj. intros i.
  rewrite !N.land_spec, !N.lxor_spec, !N.land_spec, !N.lxor_spec.
  destruct (N.lt_ge_cases i 16) as [Hi | Hi].
  - rewrite N.ones_spec_low by exact Hi.
    rewrite !andb_true_r.
    destruct (N.testbit d i), (N.testbit k i); reflexivity.
  - rewrite N.ones_spec_high by exact Hi. rewrite !andb_false_r.
    symmetry. destruct (N.eq_dec k 0) as [-> | Hk0]; [apply N.bits_0 |].
    apply N.bits_above_log2.
    apply N.lt_le_trans with 16%N; [| exact Hi].
    apply N.log2_lt_pow2; lia.
Qed.

Lemma simpleHash_eight (str : jsstring) :
  exists k0 k1 k2 k3 k4 k5 k6 k7,
    simpleHash str = [k0; k1; k2; k3; k4; k5; k6; k7]
    /\ Forall code_unit [k0; k1; k2; k3; k4; k5; k6; k7].
Proof.
  pose proof (simpleHash_length str) as Hlen.
  pose proof (latin1_code_units _ (simpleHash_latin1 str)) as Hcu.
  destruct (simpleHash str) as [|k0 [|k1 [|k2 [|k3 [|k4 [|k5 [|k6 [|k7 [|k8 rest]]]]]]]]];
    try discriminate.
  exists k0, k1, k2, k3, k4, k5, k6, k7. split; [reflexivity | exact Hcu].
Qed.

Lemma stringify_envelope_head (m : jsstring) (t sd : Z) :
  exists tail, JSON_stringify (envelope m t sd) = envelope_head ++ tail.
Proof.
  rewrite stringify_envelope.
  unfold quote at 1 2.
  change (quote_body (lit "msg")) with [109%N; 115%N; 103%N].
  unfold envelope_head. cbn [app].
  eexists. reflexivity.
Qed.

(** The eight characters of a hash key come back from the first eight
    units of any ciphertext of an envelope under that key. *)
Lemma head_key_envelope (m : jsstring) (t sd : Z) (str : jsstring) :
  head_key (xorCipher (JSON_stringify (envelope m t sd)) (simpleHash str)) = simpleHash str.
Proof.
  destruct (stringify_envelope_head m t sd) as (tail & ->).
  destruct (simpleHash_eight str) as (k0 & k1 & k2 & k3 & k4 & k5 & k6 & k7 & Hk & Hcu).
  rewrite xorCipher_combine, Hk.
  unfold expandKey, substring0.
  destruct (expandKey_loop_prefix [k0; k1; k2; k3; k4; k5; k6; k7]
              (length (envelope_head ++ tail)) [k0; k1; k2; k3; k4; k5; k6; k7] 0)
    as (ktail & ->).
  unfold head_key, envelope_head.
  cbn [length app firstn combine map fst snd].
  repeat match goal with
         | H : Forall _ (_ :: _) |- _ => apply Forall_cons_iff in H; destruct H as [? H]
         end.
  rewrite !xor_unit_cancel_l by assumption.
  reflexivity.
Qed.

(** X9.  The key of a payload can be read off the payload.  For the
    payload that [encrypt] returns for a Latin-1 message in window [W], the
    first eight bytes of the decoded payload, XORed with the eight
    characters every envelope starts with, are the time key of [W]; and
    [xorCipher] with that key turns the decoded payload back into the
    serialized envelope.  Neither step uses the master key. *)
Theorem payload_reveals_key (this : CryptoEngine) (m : jsstring) (w : world) (W : Z) :
  in_window this w W -> W <> 0 -> latin1 m ->
  exists payload encrypted,
    fst (encrypt this m None w) = Return payload
    /\ atob (substring_from 4 payload) = Some encrypted
    /\ head_key encrypted = time_key this W
    /\ xorCipher encrypted (head_key encrypted)
       = JSON_stringify (envelope m (clock w (S (reads w))) W).
Proof.
  intros Hw HW Hm.
  set (text := JSON_stringify (envelope m (clock w (S (reads w))) W)).
  set (x := xorCipher text (time_key this W)).
  exists (lit "NFC_" ++ btoa_chunks x), x.
  assert (Hx : latin1 x).
  { apply xorCipher_latin1; [apply stringify_envelope_latin1, Hm | apply simpleHash_latin1]. }
  assert (Hkey : head_key x = time_key this W) by apply head_key_envelope.
  split; [rewrite (encrypt_run this m w W Hw HW Hm); reflexivity |].
  split.
  { change (substring_from 4 (lit "NFC_" ++ btoa_chunks x)) with (btoa_chunks x).
    apply atob_btoa. unfold btoa. apply latin1b_true in Hx. rewrite Hx. reflexivity. }
  split; [exact Hkey |].
  rewrite Hkey. apply xorCipher_cancel;
    [apply stringify_envelope_latin1, Hm | apply simpleHash_latin1].
Qed.

Lemma payload_reveals_key_witness :
  in_window sample_engine (sample_world 1700000000000) 5666666
  /\ 5666666 <> 0 /\ latin1 (lit "hello")
  /\ exists payload encrypted,
       fst (encrypt sample_engine (lit "hello") None (sample_world 1700000000000))
       = Return payload
       /\ atob (substring_from 4 payload) = Some encrypted
       /\ head_key encrypted = time_key sample_engine 5666666
       /\ xorCipher encrypted (head_key encrypted)
          = JSON_stringify
              (envelope (lit "hello")
                 (clock (sample_world 1700000000000)
                    (S (reads (sample_world 1700000000000)))) 5666666).
Proof.
  assert (H1 : in_window sample_engine (sample_world 1700000000000) 5666666)
    by (intros k _; reflexivity).
  assert (H2 : 5666666 <> 0) by discriminate.
  assert (H3 : latin1 (lit "hello")) by apply latin1_lit.
  split; [exact H1 |]. split; [exact H2 |]. split; [exact H3 |].
  apply (payload_reveals_key sample_engine (lit "hello") (sample_world 1700000000000)
           5666666 H1 H2 H3).
Defined.

(** ** When [encrypt] throws *)

Lemma xor_unit_high (d k : N) :
  (256 <= d < 65536)%N -> (k < 256)%N -> (256 <= xor_unit d k)%N.
Proof.
  intros Hd Hk. unfold xor_unit.
  assert (Hlt : (N.lxor d k < 2 ^ 16)%N).
  { apply lxor_lt_pow2; change (2 ^ 16)%N with 65536%N; lia. }
  change (2 ^ 16)%N with 65536%N in Hlt.
  rewrite N.mod_small by exact Hlt.
  destruct (N.le_gt_cases 256 (N.lxor d k)) as [H | H]; [exact H | exfalso].
  assert (Hback : (N.lxor (N.lxor d k) k < 2 ^ 8)%N).
  { apply lxor_lt_pow2; change (2 ^ 8)%N with 256%N; lia. }
  rewrite N.lxor_assoc, N.lxor_nilpotent, N.lxor_0_r in Hback.
  change (2 ^ 8)%N with 256%N in Hback. lia.
Qed.

Lemma in_combine_of_l {A B : Type} (l : list A) (l' : list B) (a : A) :
  length l' = length l -> In a l -> exists b, In b l' /\ In (a, b) (combine l l').
Proof.
  revert l'. induction l as [|x l IH]; intros l' Hlen Hin; [contradiction |].
  destruct l' as [|y l']; [discriminate |].
  destruct Hin as [-> | Hin].
  - exists y. split; left; reflexivity.
  - destruct (IH l' ltac:(simpl in Hlen; lia) Hin) as (b & Hb & Hab).
    exists b. split; right; assumption.
Qed.

(** A text with a code unit from 256 up has a ciphertext with one, under a
    key of units below 256. *)
Lemma xorCipher_not_latin1 (text key : jsstring) (c : N) :
  latin1 key -> In c text -> (256 <= c < 65536)%N ->
  latin1b (xorCipher text key) = false.
Proof.
  intros Hk Hin Hc.
  destruct (latin1b (xorCipher text key)) eqn:E; [exfalso | reflexivity].
  apply latin1b_true in E.
  rewrite xorCipher_combine in E.
  assert (Hek : latin1 (expandKey key (length text))).
  { apply expandKey_Forall; [| exact Hk].
    intros x Hx. apply (Forall_inv (lower_hex_latin1 [x] ltac:(simpl; rewrite Hx; reflexivity))). }
  destruct (in_combine_of_l text (expandKey key (length text)) c
              (expandKey_length key (length text)) Hin) as (k & Hkin & Hpair).
  unfold latin1 in E, Hek. rewrite Forall_forall in E, Hek.
  specialize (Hek k Hkin).
  specialize (E (xor_unit c k)
                (in_map (fun p => xor_unit (fst p) (snd p)) _ (c, k) Hpair)).
  pose proof (xor_unit_high c k Hc Hek). lia.
Qed.

Lemma latin1b_false (s : jsstring) :
  latin1b s = false -> exists c, In c s /\ (256 <= c)%N.
Proof.
  induction s as [|x s IH]; intros H; [discriminate |].
  cbn [latin1b forallb] in H.
  destruct (x <? 256)%N eqn:E.
  - destruct (IH H) as (c & Hin & Hc). exists c. split; [right; exact Hin | exact Hc].
  - apply N.ltb_ge in E. exists x. split; [left; reflexivity | exact E].
Qed.

Lemma code_units_app (a b : jsstring) : code_units a -> code_units b -> code_units (a ++ b).
Proof. intros Ha Hb. apply Forall_app. split; assumption. Qed.

Lemma quote_body_code_units (n : nat) :
  forall m, (length m <= n)%nat -> code_units m -> code_units (quote_body m).
Proof.
  induction n as [|n IH]; intros m Hlen Hm.
  - destruct m; [constructor | simpl in Hlen; lia].
  - destruct m as [|c rest]; [constructor |].
    apply Forall_cons_iff in Hm. destruct Hm as [Hc Hrest].
    cbn [length] in Hlen.
    assert (IHrest : code_units (quote_body rest)) by (apply IH; [lia | exact Hrest]).
    assert (Hesc : forall e, (e < 256)%N -> code_units (92%N :: e :: quote_body rest)).
    { intros e He. apply Forall_cons; [reflexivity |].
      apply Forall_cons; [unfold code_unit; lia | exact IHrest]. }
    assert (Huni : code_units (unicode_escape c ++ quote_body rest)).
    { apply code_units_app; [| exact IHrest].
      apply latin1_code_units, unicode_escape_latin1, Hc. }
    cbn [quote_body].
    destruct (c =? 8)%N; [apply Hesc; reflexivity |].
    destruct (c =? 9)%N; [apply Hesc; reflexivity |].
    destruct (c =? 10)%N; [apply Hesc; reflexivity |].
    destruct (c =? 12)%N; [apply Hesc; reflexivity |].
    destruct (c =? 13)%N; [apply Hesc; reflexivity |].
    destruct (c =? 34)%N; [apply Hesc; reflexivity |].
    destruct (c =? 92)%N; [apply Hesc; reflexivity |].
    destruct (c <? 32)%N; [exact Huni |].
    destruct (is_high_surrogate c).
    + destruct rest as [|d rest']; [exact Huni |].
      destruct (is_low_surrogate d); [| exact Huni].
      apply Forall_cons_iff in Hrest. destruct Hrest as [Hd Hrest'].
      apply Forall_cons; [exact Hc |]. apply Forall_cons; [exact Hd |].
      apply IH; [cbn [length] in Hlen; lia | exact Hrest'].
    + destruct (is_low_surrogate c); [exact Huni |].
      apply Forall_cons; [exact Hc | exact IHrest].
Qed.

Lemma quote_code_units (m : jsstring) : code_units m -> code_units (quote m).
Proof.
  intros H. unfold quote. apply Forall_cons; [reflexivity |].
  apply code_units_app; [apply (quote_body_code_units (length m)); [lia | exact H] |].
  repeat constructor.
Qed.

Lemma in_stringify_envelope (m : jsstring) (t sd : Z) (c : N) :
  In c (quote m) -> In c (JSON_stringify (envelope m t sd)).
Proof.
  intros H. rewrite stringify_envelope.
  right. apply in_or_app. right. right. apply in_or_app. left. exact H.
Qed.

Lemma quote_latin1_envelope (m : jsstring) (t sd : Z) :
  latin1 (quote m) -> latin1 (JSON_stringify (envelope m t sd)).
Proof.
  intros Hm. rewrite stringify_envelope.
  repeat match goal with
         | |- _ (quote m ++ _) => apply latin1_app; [exact Hm |]
         | |- _ (quote ?x ++ _) =>
             apply latin1_app;
             [apply quote_latin1; first [apply latin1_lit | apply simpleHash_latin1] |]
         | |- _ (toString 10 ?z ++ _) => apply latin1_app; [apply toString_latin1 |]
         | |- _ (?c :: _) => apply Forall_cons; [reflexivity |]
         | |- _ [] => apply Forall_nil
         end.
Qed.

(** The base64 step of [encrypt] goes through exactly when the quoted
    message is a Latin-1 text. *)
Lemma btoa_envelope (this : CryptoEngine) (m : jsstring) (t sd ks : Z) :
  code_units m ->
  btoa (xorCipher (JSON_stringify (envelope m t sd)) (time_key this ks))
  = if latin1b (quote m)
    then Some (btoa_chunks (xorCipher (JSON_stringify (envelope m t sd))
                                      (time_key this ks)))
    else None.
Proof.
  intros Hm. unfold btoa.
  destruct (latin1b (quote m)) eqn:E.
  - apply latin1b_true in E.
    assert (H : latin1 (xorCipher (JSON_stringify (envelope m t sd)) (time_key this ks))).
    { apply xorCipher_latin1; [apply quote_latin1_envelope, E | apply simpleHash_latin1]. }
    apply latin1b_true in H. rewrite H. reflexivity.
  - destruct (latin1b_false _ E) as (c & Hin & Hc).
    pose proof (quote_code_units m Hm) as Hq.
    unfold code_units in Hq. rewrite Forall_forall in Hq.
    specialize (Hq c Hin). unfold code_unit in Hq.
    rewrite (xorCipher_not_latin1 _ (time_key this ks) c
               (simpleHash_latin1 _) (in_stringify_envelope m t sd c Hin) ltac:(lia)).
    reflexivity.
Qed.

(** X10.  [encrypt] returns exactly when the message, as [JSON.stringify]
    quotes it, holds code units below 256 only, and throws
    ['Encryption failed: '] followed by the message of [btoa]'s exception
    otherwise; this is so for every custom seed and every clock.  (The
    quoting escapes control characters and lone surrogates into ASCII and
    keeps every other character.) *)
Theorem encrypt_returns_iff_latin1 (this : CryptoEngine) (m : jsstring)
    (customTimeSeed : option Z) (w : world) :
  code_units m ->
  exists timestamp timeSeed keySeed,
    fst (encrypt this m customTimeSeed w)
    = if latin1b (JSON_stringify (Str m))
      then Return (lit "NFC_"
                   ++ btoa_chunks (xorCipher (JSON_stringify (envelope m timestamp timeSeed))
                                             (time_key this keySeed)))
      else Throw (Error (lit "Encryption failed: "
                         ++ host_message w InvalidCharacterError)).
Proof.
  intros Hm.
  destruct (encrypt_outcome this m customTimeSeed w) as (t & sd & ks & Heq).
  exists t, sd, ks. rewrite Heq, (btoa_envelope this m t sd ks Hm).
  cbn [JSON_stringify].
  destruct (latin1b (quote m)); reflexivity.
Qed.

Lemma encrypt_returns_iff_latin1_witness :
  code_units (lit "hello")
  /\ exists timestamp timeSeed keySeed,
       fst (encrypt sample_engine (lit "hello") None (sample_world 1700000000000))
       = if latin1b (JSON_stringify (Str (lit "hello")))
         then Return (lit "NFC_"
                      ++ btoa_chunks
                           (xorCipher (JSON_stringify
                                         (envelope (lit "hello") timestamp timeSeed))
                                      (time_key sample_engine keySeed)))
         else Throw (Error (lit "Encryption failed: "
                            ++ host_message (sample_world 1700000000000)
                                 InvalidCharacterError)).
Proof.
  assert (H : code_units (lit "hello")) by (apply latin1_code_units, latin1_lit).
  split; [exact H |].
  apply (encrypt_returns_iff_latin1 sample_engine (lit "hello") None
           (sample_world 1700000000000) H).
Defined.

(** [JSON.stringify] keeps a code unit from 256 up that is no surrogate. *)
Lemma quote_body_keeps (c : N) (n : nat) :
  (256 <= c)%N -> is_high_surrogate c = false -> is_low_surrogate c = false ->
  forall m, (length m <= n)%nat -> In c m -> In c (quote_body m).
Proof.
  intros Hc Hhigh Hlow.
  induction n as [|n IH]; intros m Hlen Hin.
  - destruct m; [contradiction | simpl in Hlen; lia].
  - destruct m as [|x rest]; [contradiction |].
    cbn [length] in Hlen.
    destruct Hin as [-> | Hin].
    + cbn [quote_body].
      repeat match goal with
             | |- context [(c =? ?k)%N] =>
                 destruct (N.eqb_spec c k); [exfalso; lia |]
             end.
      destruct (N.ltb_spec c 32); [exfalso; lia |].
      rewrite Hhigh, Hlow. left. reflexivity.
    + assert (IHrest : In c (quote_body rest)) by (apply IH; [lia | exact Hin]).
      assert (Happ : forall pre, In c (pre ++ quote_body rest))
        by (intros pre; apply in_or_app; right; exact IHrest).
      cbn [quote_body].
      destruct (x =? 8)%N; [apply Happ |].
      destruct (x =? 9)%N; [apply Happ |].
      destruct (x =? 10)%N; [apply Happ |].
      destruct (x =? 12)%N; [apply Happ |].
      destruct (x =? 13)%N; [apply Happ |].
      destruct (x =? 34)%N; [apply (Happ [92%N; 34%N]) |].
      destruct (x =? 92)%N; [apply (Happ [92%N; 92%N]) |].
      destruct (x <? 32)%N; [apply Happ |].
      destruct (is_high_surrogate x).
      * destruct rest as [|d rest']; [apply Happ |].
        destruct (is_low_surrogate d) eqn:Ed; [| apply Happ].
        destruct Hin as [-> | Hin]; [congruence |].
        right. right. apply IH; [cbn [length] in Hlen; lia | exact Hin].
      * destruct (is_low_surrogate x); [apply Happ |].
        right. exact IHrest.
Qed.

(** X11.  [encrypt] throws on every message that holds a character of the
    Basic Multilingual Plane outside Latin-1 (a code unit from 256 up that
    is no surrogate: the euro sign, Greek, Cyrillic, CJK ...), wherever it
    stands in the message, for every custom seed and every clock. *)
Theorem encrypt_throws_outside_latin1 (this : CryptoEngine) (m : jsstring) (c : N)
    (customTimeSeed : option Z) (w : world) :
  In c m -> (256 <= c < 65536)%N ->
  is_high_surrogate c = false -> is_low_surrogate c = false ->
  fst (encrypt this m customTimeSeed w)
  = Throw (Error (lit "Encryption failed: " ++ host_message w InvalidCharacterError)).
Proof.
  intros Hin Hc Hhigh Hlow.
  destruct (encrypt_outcome this m customTimeSeed w) as (t & sd & ks & Heq).
  rewrite Heq. unfold btoa.
  rewrite (xorCipher_not_latin1 _ (time_key this ks) c (simpleHash_latin1 _)); [reflexivity | | exact Hc].
  apply in_stringify_envelope. unfold quote. right. apply in_or_app. left.
  apply (quote_body_keeps c (length m)); try assumption; lia.
Qed.

Lemma encrypt_throws_outside_latin1_witness :
  In 8364%N (lit "price: " ++ [8364%N] ++ lit "5")
  /\ (256 <= 8364 < 65536)%N
  /\ is_high_surrogate 8364 = false /\ is_low_surrogate 8364 = false
  /\ fst (encrypt sample_engine (lit "price: " ++ [8364%N] ++ lit "5") None
            (sample_world 1700000000000))
     = Throw (Error (lit "Encryption failed: "
                     ++ host_message (sample_world 1700000000000) InvalidCharacterError)).
Proof.
  assert (H1 : In 8364%N (lit "price: " ++ [8364%N] ++ lit "5"))
    by (apply in_or_app; right; left; reflexivity).
  assert (H2 : (256 <= 8364 < 65536)%N) by lia.
  assert (H3 : is_high_surrogate 8364 = false) by reflexivity.
  assert (H4 : is_low_surrogate 8364 = false) by reflexivity.
  split; [exact H1 |]. split; [exact H2 |]. split; [exact H3 |]. split; [exact H4 |].
  apply (encrypt_throws_outside_latin1 sample_engine _ 8364%N None
           (sample_world 1700000000000) H1 H2 H3 H4).
Defined.

(** ** The checksum of a [msg] that is no string *)

(** X12.  The checksum protects strings only.  When [msg] and [ts] of the
    decrypted object are both numbers, [msg + ts] is a sum, and the hash of
    a number is the constant [00000000] (a number has no [length]): an
    object with non-zero integers [msg] and [ts] and the checksum
    [00000000] passes the checks, and the attempt returns the number
    [msg], as long as [ts] is at most 24 hours old. *)
Theorem attemptDecrypt_numeric_msg (this : CryptoEngine) (enc : jsstring) (seed : Z)
    (w : world) (members : list (jsstring * value)) (n t : Z) :
  seed <> 0 ->
  parse_text (xorCipher enc (time_key this seed)) = Ok (Object members) [] ->
  lookup (lit "msg") members = Some (Number (Int n)) -> n <> 0 ->
  lookup (lit "ts") members = Some (Number (Int t)) -> t <> 0 ->
  Z.abs (n + t) <= two53 ->
  lookup (lit "checksum") members = Some (Str (lit "00000000")) ->
  fst (attemptDecrypt this enc (Some seed) w)
  = Return (if clock w (reads w) - t <=? 86400000 then Some (Number (Int n)) else None).
Proof.
  intros Hseed Hparse Hmsg Hn Hts Ht Hsum Hck.
  unfold attemptDecrypt, try_catch.
  rewrite (bind_run _ _ w w seed)
    by (unfold or_getTimeSeed; apply Z.eqb_neq in Hseed; rewrite Hseed; reflexivity).
  rewrite (bind_run _ _ _ _ _ (generateTimeKey_run this w seed Hseed)).
  cbv zeta. unfold JSON_parse. rewrite Hparse.
  unfold bind at 1. cbv [ret].
  unfold bind at 1. cbn [get]. cbv [ret]. rewrite Hmsg.
  cbn [truthy].
  apply Z.eqb_neq in Hn. rewrite Hn. cbv [negb].
  unfold bind at 1. rewrite Hts.
  cbn [truthy].
  apply Z.eqb_neq in Ht. rewrite Ht. cbv [negb].
  unfold bind at 1. rewrite Hck.
  cbn [truthy].
  change (negb (length (lit "00000000") =? 0)%nat) with true. cbv [negb].
  unfold bind at 1. unfold add.
  cbn [is_stringlike orb ToNumber]. cbv [or_throw ret].
  change (strict_neq_string (Str (lit "00000000"))
            (simpleHash_of (Sum (Integer n) (Integer t))))
    with false.
  cbv iota.
  unfold bind at 1. cbv [Date_now].
  unfold bind at 1. cbn [exceeds].
  cbn [logged clock reads].
  destruct (clock w (reads w) - t >? 86400000) eqn:E;
    destruct (clock w (reads w) - t <=? 86400000) eqn:E'; try reflexivity; lia.
Qed.

Lemma attemptDecrypt_numeric_msg_witness :
  5666666 <> 0
  /\ parse_text (xorCipher
                   (xorCipher (JSON_stringify (numeric_envelope 7 1700000000000 (lit "00000000")))
                              (time_key sample_engine 5666666))
                   (time_key sample_engine 5666666))
     = Ok (numeric_envelope 7 1700000000000 (lit "00000000")) []
  /\ 7 <> 0 /\ 1700000000000 <> 0 /\ Z.abs (7 + 1700000000000) <= two53
  /\ fst (attemptDecrypt sample_engine
            (xorCipher (JSON_stringify (numeric_envelope 7 1700000000000 (lit "00000000")))
                       (time_key sample_engine 5666666))
            (Some 5666666) (sample_world 1700000000000))
     = Return (if clock (sample_world 1700000000000) (reads (sample_world 1700000000000))
                  - 1700000000000 <=? 86400000
               then Some (Number (Int 7)) else None).
Proof.
  assert (H1 : 5666666 <> 0) by discriminate.
  assert (H2 : parse_text
                 (xorCipher
                    (xorCipher (JSON_stringify
                                  (numeric_envelope 7 1700000000000 (lit "00000000")))
                               (time_key sample_engine 5666666))
                    (time_key sample_engine 5666666))
               = Ok (numeric_envelope 7 1700000000000 (lit "00000000")) [])
    by (vm_compute; reflexivity).
  assert (H3 : 7 <> 0) by discriminate.
  assert (H4 : 1700000000000 <> 0) by discriminate.
  assert (H5 : Z.abs (7 + 1700000000000) <= two53) by (unfold two53; lia).
  split; [exact H1 |]. split; [exact H2 |]. split; [exact H3 |].
  split; [exact H4 |]. split; [exact H5 |].
  apply (attemptDecrypt_numeric_msg sample_engine _ 5666666 (sample_world 1700000000000)
           _ 7 1700000000000 H1 H2 eq_refl H3 eq_refl H4 H5 eq_refl).
Defined.

(** ** The displayed seed: [getFormattedTimeSeed] *)

Lemma low_digits_below (radix n : N) (k : nat) :
  (radix <= 16)%N -> (radix <> 0)%N ->
  forallb (fun c => (c <? 128)%N) (low_digits radix n k) = true.
Proof.
  intros Hr Hr0. unfold low_digits. apply forallb_forall. intros c Hc.
  apply in_map_iff in Hc. destruct Hc as (i & <- & _).
  pose proof (N.mod_lt (n / radix ^ N.of_nat i) radix Hr0) as Hlt.
  apply N.ltb_lt. unfold digit_char.
  destruct (N.ltb_spec ((n / radix ^ N.of_nat i) mod radix) 10); lia.
Qed.

Lemma padStart_map (f : N -> N) (n : nat) (fill : N) (s : jsstring) :
  f fill = fill -> padStart n fill (map f s) = map f (padStart n fill s).
Proof.
  intros Hf. unfold padStart. rewrite length_map.
  destruct (length s <? n)%nat; [| reflexivity].
  rewrite map_app. f_equal.
  induction (n - length s)%nat as [|k IH]; [reflexivity |].
  cbn [repeat map]. rewrite Hf. f_equal. exact IH.
Qed.

Lemma upper_spec_hex8 (n : N) :
  map (fun c => if ((97 <=? c) && (c <=? 122))%N then (c - 32)%N else c) (spec_hex8 n)
  = upper_hex8 n.
Proof.
  unfold spec_hex8, upper_hex8. rewrite map_map.
  apply map_ext. intros i. cbv zeta.
  pose proof (N.mod_lt (n / 16 ^ i) 16 ltac:(discriminate)) as Hlt.
  unfold digit_char.
  destruct (N.ltb_spec ((n / 16 ^ i) mod 16) 10) as [H | H].
  - replace (97 <=? 48 + (n / 16 ^ i) mod 16)%N with false; [reflexivity |].
    symmetry. apply N.leb_gt. lia.
  - replace ((97 <=? 87 + (n / 16 ^ i) mod 16) && (87 + (n / 16 ^ i) mod 16 <=? 122))%N
      with true; [lia |].
    symmetry. apply andb_true_iff. split; apply N.leb_le; lia.
Qed.

(** X13.  With the clock in window [W], from 0 up to [2^32 - 1],
    [getFormattedTimeSeed] returns [0x] followed by the eight uppercase
    hexadecimal digits of [W], ten characters in all, and reads the clock
    once. *)
Theorem getFormattedTimeSeed_hex (this : CryptoEngine) (w : world) (W : Z) :
  in_window this w W -> 0 <= W < two32 ->
  getFormattedTimeSeed this w = (Return (lit "0x" ++ upper_hex8 (Z.to_N W)), tick w)
  /\ length (lit "0x" ++ upper_hex8 (Z.to_N W)) = 10%nat.
Proof.
  intros Hw HW. split; [| reflexivity].
  unfold getFormattedTimeSeed.
  rewrite (bind_run _ _ _ _ _ (getTimeSeed_run this w W Hw)).
  unfold toString. replace (W <? 0) with false by (symmetry; apply Z.ltb_ge; lia).
  assert (Hn : (Z.to_N W < 16 ^ N.of_nat 8)%N).
  { change (16 ^ N.of_nat 8)%N with 4294967296%N. unfold two32 in HW. lia. }
  destruct (digits_spec 16 (Z.to_N W) ltac:(reflexivity)) as (k & _ & Hd & _).
  unfold toUpperCase. rewrite Hd at 1.
  rewrite (low_digits_below 16 (Z.to_N W) k) by (discriminate || lia).
  unfold bind, modelled, ret.
  rewrite padStart_map by reflexivity.
  rewrite (padStart_digits 16 (Z.to_N W) 8 ltac:(reflexivity) ltac:(lia) Hn).
  rewrite <- spec_hex8_low_digits, upper_spec_hex8. reflexivity.
Qed.

Lemma getFormattedTimeSeed_hex_witness :
  in_window sample_engine (sample_world 1700000000000) 5666666
  /\ 0 <= 5666666 < two32
  /\ getFormattedTimeSeed sample_engine (sample_world 1700000000000)
     = (Return (lit "0x" ++ upper_hex8 (Z.to_N 5666666)), tick (sample_world 1700000000000))
  /\ length (lit "0x" ++ upper_hex8 (Z.to_N 5666666)) = 10%nat.
Proof.
  assert (H1 : in_window sample_engine (sample_world 1700000000000) 5666666)
    by (intros k _; reflexivity).
  assert (H2 : 0 <= 5666666 < two32) by (unfold two32; lia).
  split; [exact H1 |]. split; [exact H2 |].
  apply (getFormattedTimeSeed_hex sample_engine (sample_world 1700000000000) 5666666 H1 H2).
Defined.

(** ** Payloads and the windows after them *)

(** What [encrypt] returns in a window decrypts, in a window up to three
    later, when no attempt at a window in between returns a value. *)
Lemma encrypt_then_decrypt (this : CryptoEngine) (m : jsstring) (we w : world) (W i : Z) :
  timeWindow this = 300000 ->
  latin1 m -> m <> [] -> 0 <= i <= 3 -> 3 < W <= max_window ->
  in_window this we (W - i) -> in_window this w W ->
  (forall j w' enc, 0 <= j < i ->
     enc = xorCipher (JSON_stringify (envelope m (clock we (S (reads we))) (W - i)))
                     (time_key this (W - i)) ->
     fst (attemptDecrypt this enc (Some (W - j)) w') = Return None) ->
  exists payload,
    encrypt this m None we = (Return payload, tick (logged (W - i) (tick we)))
    /\ isValidEncryptedFormat payload = true
    /\ fst (decrypt this payload w) = Return (Str m).
Proof.
  intros Htw Hm Hne Hi HW Hwe Hw Hprev.
  pose proof (encrypt_run this m we (W - i) Hwe ltac:(lia) Hm) as Hrun.
  set (x := xorCipher (JSON_stringify (envelope m (clock we (S (reads we))) (W - i)))
                      (time_key this (W - i))) in *.
  exists (lit "NFC_" ++ btoa_chunks x).
  split; [exact Hrun |].
  assert (Hfst : fst (encrypt this m None we) = Return (lit "NFC_" ++ btoa_chunks x))
    by (rewrite Hrun; reflexivity).
  split.
  { apply btoa_payload_format. unfold x. rewrite xorCipher_length.
    pose proof (stringify_envelope_length m (clock we (S (reads we))) (W - i)). lia. }
  assert (Hx : latin1 x).
  { apply xorCipher_latin1; [apply stringify_envelope_latin1, Hm | apply simpleHash_latin1]. }
  assert (Hatob : atob (substring_from 4 (lit "NFC_" ++ btoa_chunks x)) = Some x).
  { change (substring_from 4 (lit "NFC_" ++ btoa_chunks x)) with (btoa_chunks x).
    apply atob_btoa. unfold btoa. apply latin1b_true in Hx. rewrite Hx. reflexivity. }
  apply (decrypt_returns_message this (lit "NFC_" ++ btoa_chunks x) x m we w W i
           Htw Hw HW eq_refl Hatob Hm Hne Hi Hwe Hfst).
  intros j w' Hj. apply (Hprev j w' x Hj eq_refl).
Qed.

(** An attempt on the ciphertext of an envelope under another hash key
    returns [null] when the two keys differ in their first character: the
    opening brace does not come back, and the text is no object. *)
Lemma attemptDecrypt_foreign_key (this : CryptoEngine) (m : jsstring) (t sd W' : Z)
    (str : jsstring) (w : world) :
  W' <> 0 ->
  nth 0 (time_key this W') 0%N <> nth 0 (simpleHash str) 0%N ->
  fst (attemptDecrypt this
         (xorCipher (JSON_stringify (envelope m t sd)) (simpleHash str))
         (Some W') w)
  = Return None.
Proof.
  intros HW' Hdiff.
  rewrite attemptDecrypt_not_object; [reflexivity | exact HW' |].
  intros v r members Hparse.
  unfold time_key in *.
  destruct (simpleHash_units str) as (k0 & k1 & k2 & key & Hk & Hk0 & Hk1 & Hk2).
  destruct (simpleHash_units (masterKey this ++ toString 10 W'))
    as (k0' & k1' & k2' & key' & Hk' & Hk0' & Hk1' & Hk2').
  rewrite Hk, Hk' in *. cbn [nth] in Hdiff.
  rewrite stringify_envelope in Hparse.
  unfold quote at 1 in Hparse.
  change (quote_body (lit "msg")) with [109%N; 115%N; 103%N] in Hparse.
  cbn [app] in Hparse.
  match type of Hparse with
  | context [xorCipher (123%N :: 34%N :: 109%N :: ?data) _] =>
      destruct (xorCipher_head 123 34 109 k0 k1 k2 data key) as (tail & Hx)
  end.
  rewrite Hx in Hparse.
  destruct (xorCipher_head (xor_unit 123 k0) (xor_unit 34 k1) (xor_unit 109 k2)
              k0' k1' k2' tail key') as (tail' & Hx').
  rewrite Hx' in Hparse.
  unfold parse_text in Hparse.
  destruct (parse_value _ _) as [v' r' | |] eqn:Hv; try discriminate.
  destruct (skip_ws r'); [| discriminate].
  injection Hparse as <- _.
  destruct (letter_under_wrong_key k2 k2' Hk2 Hk2') as (Hws & H123 & H125 & H34).
  apply (parse_value_not_object _ _ _ _ _ _ _
           (brace_under_wrong_key k0 k0' Hk0 Hk0' ltac:(congruence))
           Hws H123 H125 H34 Hv).
Qed.

(** X14.  A payload of another key is refused.  Let a payload be made by
    an engine [that] (another device, or the same) in a window [We], and
    let [decrypt] run on the engine [this] with the clock in window [W].
    When the key of [that] for [We] starts with another character than
    each of the four keys that [decrypt] tries, every attempt reads a text
    that is no object, and [decrypt] throws the exhausted-retry error. *)
Theorem decrypt_foreign_payload (this that : CryptoEngine) (m : jsstring)
    (we w : world) (We W : Z) :
  in_window that we We -> We <> 0 -> latin1 m ->
  in_window this w W -> 3 < W ->
  (forall j, 0 <= j <= 3 ->
     nth 0 (time_key this (W - j)) 0%N <> nth 0 (time_key that We) 0%N) ->
  exists payload,
    fst (encrypt that m None we) = Return payload
    /\ fst (decrypt this payload w) = Throw exhausted_error.
Proof.
  intros Hwe HWe Hm Hw HW Hkeys.
  pose proof (encrypt_run that m we We Hwe HWe Hm) as Hrun.
  set (x := xorCipher (JSON_stringify (envelope m (clock we (S (reads we))) We))
                      (time_key that We)) in *.
  exists (lit "NFC_" ++ btoa_chunks x).
  split; [rewrite Hrun; reflexivity |].
  assert (Hx : latin1 x).
  { apply xorCipher_latin1; [apply stringify_envelope_latin1, Hm | apply simpleHash_latin1]. }
  assert (Hatob : atob (substring_from 4 (lit "NFC_" ++ btoa_chunks x)) = Some x).
  { change (substring_from 4 (lit "NFC_" ++ btoa_chunks x)) with (btoa_chunks x).
    apply atob_btoa. unfold btoa. apply latin1b_true in Hx. rewrite Hx. reflexivity. }
  rewrite (decrypt_first_valid this (lit "NFC_" ++ btoa_chunks x) x w W Hw HW eq_refl Hatob).
  apply first_valid_exhausted.
  intros y w' Hin.
  assert (Hy : exists j, 0 <= j <= 3 /\ y = W - j).
  { destruct Hin as [<- | [<- | [<- | [<- | []]]]];
      [exists 0 | exists 1 | exists 2 | exists 3]; lia. }
  destruct Hy as (j & Hj & ->).
  apply attemptDecrypt_foreign_key; [lia | apply Hkeys, Hj].
Qed.
Lemma decrypt_foreign_payload_witness :
  let that := new_CryptoEngine
                (lit "Mozilla/5.0|de-DE|390x844|-120|data:image/png;base64,iVBORw0KGgp=") in
  in_window that (sample_world 1700000000000) 5666666
  /\ 5666666 <> 0 /\ latin1 (lit "hello")
  /\ in_window sample_engine (sample_world 1700000100000) 5666667
  /\ 3 < 5666667
  /\ (forall j, 0 <= j <= 3 ->
        nth 0 (time_key sample_engine (5666667 - j)) 0%N
        <> nth 0 (time_key that 5666666) 0%N)
  /\ exists payload,
       fst (encrypt that (lit "hello") None (sample_world 1700000000000)) = Return payload
       /\ fst (decrypt sample_engine payload (sample_world 1700000100000))
          = Throw exhausted_error.
Proof.
  intros that.
  assert (H1 : in_window that (sample_world 1700000000000) 5666666)
    by (intros k _; reflexivity).
  assert (H2 : 5666666 <> 0) by discriminate.
  assert (H3 : latin1 (lit "hello")) by apply latin1_lit.
  assert (H4 : in_window sample_engine (sample_world 1700000100000) 5666667)
    by (intros k _; reflexivity).
  assert (H5 : 3 < 5666667) by lia.
  assert (H6 : forall j, 0 <= j <= 3 ->
                 nth 0 (time_key sample_engine (5666667 - j)) 0%N
                 <> nth 0 (time_key that 5666666) 0%N).
  { intros j Hj.
    assert (Hcases : j = 0 \/ j = 1 \/ j = 2 \/ j = 3) by lia.
    destruct Hcases as [-> | [-> | [-> | ->]]]; vm_compute; discriminate. }
  split; [exact H1 |]. split; [exact H2 |]. split; [exact H3 |].
  split; [exact H4 |]. split; [exact H5 |]. split; [exact H6 |].
  apply (decrypt_foreign_payload sample_engine that (lit "hello")
           (sample_world 1700000000000) (sample_world 1700000100000)
           5666666 5666667 H1 H2 H3 H4 H5 H6).
Defined.

(** ** The hash is a polynomial in 31 *)

Lemma spec_hash_cons (c : N) (str : jsstring) :
  spec_hash (c :: str) = spec_hex8 (Z.to_N (Z.abs (spec_rolling (c :: str)))).
Proof. reflexivity. Qed.

Lemma simpleHash_rolling (str : jsstring) :
  str <> [] -> simpleHash str = spec_hex8 (Z.to_N (Z.abs (spec_rolling str))).
Proof.
  intros H. rewrite simpleHash_spec_hash.
  destruct str; [contradiction | apply spec_hash_cons].
Qed.

Lemma spec_rolling_app (a b : jsstring) :
  spec_rolling (a ++ b)
  = fold_left (fun h c => spec_wrap32 (h * 2 ^ 5 - h + Z.of_N c)) b (spec_rolling a).
Proof. unfold spec_rolling. apply fold_left_app. Qed.

Lemma rolling_two (h : Z) (a b : N) :
  spec_wrap32 (spec_wrap32 (h * 2 ^ 5 - h + Z.of_N a) * 2 ^ 5
               - spec_wrap32 (h * 2 ^ 5 - h + Z.of_N a) + Z.of_N b)
  = spec_wrap32 (961 * h + (31 * Z.of_N a + Z.of_N b)).
Proof.
  unfold spec_wrap32.
  change (2 ^ 5) with 32. change (2 ^ 31) with 2147483648.
  change (2 ^ 32) with 4294967296.
  lia.
Qed.

Lemma simpleHash_pair (pre post : jsstring) (a b a' b' : N) :
  (31 * a + b = 31 * a' + b')%N ->
  simpleHash (pre ++ a :: b :: post) = simpleHash (pre ++ a' :: b' :: post).
Proof.
  intros H.
  rewrite !simpleHash_rolling by (destruct pre; discriminate).
  do 3 f_equal.
  rewrite !spec_rolling_app. cbn [fold_left].
  rewrite !rolling_two.
  replace (31 * Z.of_N a + Z.of_N b) with (31 * Z.of_N a' + Z.of_N b') by lia.
  reflexivity.
Qed.

(** X15.  [simpleHash] has collisions by construction.  A character
    weighs 31 times its right neighbour: two adjacent characters [a b] and
    [a' b'] with [31 a + b = 31 a' + b'] (such as [Aa] and [BB]) can replace
    each other anywhere in a string without changing its hash.  The
    checksum of an envelope, the hash of the message followed by the
    timestamp, is then the same for the two messages. *)
Theorem simpleHash_collision (pre post : jsstring) (a b a' b' : N) :
  (31 * a + b = 31 * a' + b')%N ->
  simpleHash (pre ++ a :: b :: post) = simpleHash (pre ++ a' :: b' :: post)
  /\ forall t sd,
       lookup (lit "checksum") (match envelope (pre ++ a :: b :: post) t sd with
                                | Object members => members
                                | _ => []
                                end)
       = lookup (lit "checksum") (match envelope (pre ++ a' :: b' :: post) t sd with
                                  | Object members => members
                                  | _ => []
                                  end).
Proof.
  intros H. split; [apply simpleHash_pair, H |].
  intros t sd. unfold envelope.
  cbn [lookup].
  change (jsstring_eqb (lit "checksum") (lit "checksum")) with true.
  cbv iota.
  rewrite <- !app_assoc. cbn [app].
  rewrite (simpleHash_pair pre (post ++ toString 10 t) a b a' b' H).
  reflexivity.
Qed.

Lemma simpleHash_collision_witness :
  (31 * 65 + 97 = 31 * 66 + 66)%N
  /\ simpleHash (lit "code " ++ 65%N :: 97%N :: lit "-17")
     = simpleHash (lit "code " ++ 66%N :: 66%N :: lit "-17")
  /\ forall t sd,
       lookup (lit "checksum")
         (match envelope (lit "code " ++ 65%N :: 97%N :: lit "-17") t sd with
          | Object members => members
          | _ => []
          end)
       = lookup (lit "checksum")
           (match envelope (lit "code " ++ 66%N :: 66%N :: lit "-17") t sd with
            | Object members => members
            | _ => []
            end).
Proof.
  assert (H : (31 * 65 + 97 = 31 * 66 + 66)%N) by reflexivity.
  split; [exact H |].
  apply (simpleHash_collision (lit "code ") (lit "-17") 65 97 66 66 H).
Defined.

(** ** The keys of consecutive windows *)

Lemma digits_width_unique (n : N) (k k' : nat) :
  (n < 10 ^ N.of_nat k)%N -> (k = 1%nat \/ (10 ^ N.of_nat (k - 1) <= n)%N) ->
  (n < 10 ^ N.of_nat k')%N -> (1 <= k')%nat ->
  (k <= k')%nat.
Proof.
  intros Hlt Hge Hlt' Hk'.
  destruct Hge as [-> | Hge]; [exact Hk' |].
  destruct (Nat.le_gt_cases k k') as [H | H]; [exact H | exfalso].
  assert ((10 ^ N.of_nat k' <= 10 ^ N.of_nat (k - 1))%N)
    by (apply N.pow_le_mono_r; lia).
  lia.
Qed.

(** The decimal digits of [n + 1] are those of [n] with the last one
    raised by one, when the last digit of [n] is not 9. *)
Lemma digits_succ (n : N) :
  (n mod 10 <> 9)%N ->
  exists ds,
    digits 10 n = ds ++ [(48 + n mod 10)%N]
    /\ digits 10 (n + 1) = ds ++ [(48 + n mod 10 + 1)%N].
Proof.
  intros Hlast.
  destruct (digits_spec 10 n ltac:(reflexivity)) as (k & Hk & Hd & Hlt & Hge).
  destruct (digits_spec 10 (n + 1) ltac:(reflexivity)) as (k' & Hk' & Hd' & Hlt' & Hge').
  assert (Hkk : k' = k).
  { apply Nat.le_antisymm.
    - apply (digits_width_unique (n + 1) k' k Hlt' Hge'); [| exact Hk].
      destruct k as [|k0]; [lia |].
      rewrite Nat2N.inj_succ, N.pow_succ_r' in *.
      pose proof (N.mod_lt n 10 ltac:(discriminate)). lia.
    - apply (digits_width_unique n k k' Hlt Hge); [lia | exact Hk']. }
  subst k'.
  destruct k as [|k0]; [lia |].
  rewrite Hd, Hd', !low_digits_S by discriminate.
  exists (low_digits 10 (n / 10) k0).
  pose proof (N.mod_lt n 10 ltac:(discriminate)) as Hm.
  replace ((n + 1) / 10)%N with (n / 10)%N by lia.
  replace ((n + 1) mod 10)%N with (n mod 10 + 1)%N by lia.
  unfold digit_char.
  destruct (N.ltb_spec (n mod 10) 10); [| lia].
  destruct (N.ltb_spec (n mod 10 + 1) 10); [| lia].
  split; [reflexivity |]. do 2 f_equal. lia.
Qed.

Lemma rolling_succ (h : Z) (c : N) :
  spec_wrap32 (h * 2 ^ 5 - h + Z.of_N (c + 1))
  = spec_wrap32 (spec_wrap32 (h * 2 ^ 5 - h + Z.of_N c) + 1).
Proof.
  unfold spec_wrap32.
  change (2 ^ 5) with 32. change (2 ^ 31) with 2147483648.
  change (2 ^ 32) with 4294967296.
  lia.
Qed.

(** X16.  The keys of consecutive windows are consecutive numbers.  The
    key that [generateTimeKey] returns for a window is the absolute value,
    in eight hexadecimal digits, of a signed 32-bit hash value [h]; for a
    window [W] above 0 whose last decimal digit is not 9, the hash value of
    window [W + 1] is [h + 1] (wrapped to 32 bits), whatever the master
    key. *)
Theorem time_key_next_window (this : CryptoEngine) (W : Z) (w : world) :
  0 < W -> W mod 10 <> 9 ->
  fst (generateTimeKey this (Some W) w)
  = Return (spec_hex8 (Z.to_N (Z.abs (spec_rolling (masterKey this ++ toString 10 W)))))
  /\ fst (generateTimeKey this (Some (W + 1)) w)
     = Return (spec_hex8
                 (Z.to_N (Z.abs (spec_wrap32
                                   (spec_rolling (masterKey this ++ toString 10 W) + 1))))).
Proof.
  intros HW Hlast.
  rewrite (generateTimeKey_run this w W) by lia.
  rewrite (generateTimeKey_run this w (W + 1)) by lia.
  cbn [fst].
  unfold time_key, toString.
  replace (W <? 0) with false by (symmetry; apply Z.ltb_ge; lia).
  replace (W + 1 <? 0) with false by (symmetry; apply Z.ltb_ge; lia).
  replace (Z.to_N (W + 1)) with (Z.to_N W + 1)%N by lia.
  destruct (digits_succ (Z.to_N W) ltac:(lia)) as (ds & Hd & Hd').
  rewrite Hd, Hd'.
  rewrite !simpleHash_rolling
    by (intros He; apply app_eq_nil in He; destruct He as [_ He];
        apply app_eq_nil in He; destruct He as [_ He]; discriminate).
  split; [reflexivity |].
  do 4 f_equal.
  rewrite !app_assoc, !spec_rolling_app. cbn [fold_left].
  apply rolling_succ.
Qed.

Lemma time_key_next_window_witness :
  0 < 5666666 /\ 5666666 mod 10 <> 9
  /\ fst (generateTimeKey sample_engine (Some 5666666) (sample_world 1700000000000))
     = Return (spec_hex8 (Z.to_N (Z.abs (spec_rolling (masterKey sample_engine
                                                       ++ toString 10 5666666)))))
  /\ fst (generateTimeKey sample_engine (Some (5666666 + 1)) (sample_world 1700000000000))
     = Return (spec_hex8
                 (Z.to_N (Z.abs (spec_wrap32
                                   (spec_rolling (masterKey sample_engine
                                                  ++ toString 10 5666666) + 1))))).
Proof.
  assert (H1 : 0 < 5666666) by lia.
  assert (H2 : 5666666 mod 10 <> 9) by (vm_compute; discriminate).
  split; [exact H1 |]. split; [exact H2 |].
  apply (time_key_next_window sample_engine 5666666 (sample_world 1700000000000) H1 H2).
Defined.

(** ** The test payloads: [generateTestCode], [generateTestPayload] *)

(** X17.  The test payloads decrypt.  [generateTestCode] and
    [NFCHandler.generateTestPayload] encrypt their argument, or their
    default message (['TEST MESSAGE'], ['Hello from NFC!']) when it is
    absent.  For an absent argument or a non-empty Latin-1 one, the payload
    passes [isValidEncryptedFormat] and [decrypt] in the same window
    returns the message. *)
Theorem test_payloads_decrypt (this : CryptoEngine) (message_ : option jsstring)
    (w : world) (W : Z) :
  timeWindow this = 300000 ->
  in_window this w W -> 3 < W <= max_window ->
  (forall m, message_ = Some m -> latin1 m /\ m <> []) ->
  (exists payload w',
      generateTestCode this message_ w = (Return payload, w')
      /\ isValidEncryptedFormat payload = true
      /\ fst (decrypt this payload w')
         = Return (Str (match message_ with
                        | Some m => m
                        | None => lit "TEST MESSAGE"
                        end)))
  /\ (exists payload w',
        generateTestPayload this message_ w = (Return payload, w')
        /\ isValidEncryptedFormat payload = true
        /\ fst (decrypt this payload w')
           = Return (Str (match message_ with
                          | Some m => m
                          | None => lit "Hello from NFC!"
                          end))).
Proof.
  intros Htw Hw HW Hmsg.
  assert (Hgen : forall m, latin1 m -> m <> [] ->
            exists payload w',
              encrypt this m None w = (Return payload, w')
              /\ isValidEncryptedFormat payload = true
              /\ fst (decrypt this payload w') = Return (Str m)).
  { intros m Hm Hne.
    assert (Hw0 : in_window this w (W - 0)) by (rewrite Z.sub_0_r; exact Hw).
    assert (Hw' : in_window this (tick (logged (W - 0) (tick w))) W)
      by (apply in_window_tick, in_window_logged, in_window_tick, Hw).
    destruct (encrypt_then_decrypt this m w (tick (logged (W - 0) (tick w))) W 0
                Htw Hm Hne ltac:(lia) HW Hw0 Hw' ltac:(intros; lia))
      as (payload & Hrun & Hvalid & Hdec).
    exists payload, (tick (logged (W - 0) (tick w))). auto. }
  split.
  - unfold generateTestCode. apply Hgen.
    + destruct message_ as [m |]; [apply (Hmsg m eq_refl) | apply latin1_lit].
    + destruct message_ as [m |]; [apply (Hmsg m eq_refl) | discriminate].
  - unfold generateTestPayload. apply Hgen.
    + destruct message_ as [m |]; [apply (Hmsg m eq_refl) | apply latin1_lit].
    + destruct message_ as [m |]; [apply (Hmsg m eq_refl) | discriminate].
Qed.

Lemma test_payloads_decrypt_witness :
  timeWindow sample_engine = 300000
  /\ in_window sample_engine (sample_world 1700000000000) 5666666
  /\ 3 < 5666666 <= max_window
  /\ (forall m, @None jsstring = Some m -> latin1 m /\ m <> [])
  /\ (exists payload w',
         generateTestCode sample_engine None (sample_world 1700000000000)
         = (Return payload, w')
         /\ isValidEncryptedFormat payload = true
         /\ fst (decrypt sample_engine payload w') = Return (Str (lit "TEST MESSAGE")))
  /\ (exists payload w',
         generateTestPayload sample_engine None (sample_world 1700000000000)
         = (Return payload, w')
         /\ isValidEncryptedFormat payload = true
         /\ fst (decrypt sample_engine payload w') = Return (Str (lit "Hello from NFC!"))).
Proof.
  assert (H1 : timeWindow sample_engine = 300000) by reflexivity.
  assert (H2 : in_window sample_engine (sample_world 1700000000000) 5666666)
    by (intros k _; reflexivity).
  assert (H3 : 3 < 5666666 <= max_window) by (unfold max_window; lia).
  assert (H4 : forall m, @None jsstring = Some m -> latin1 m /\ m <> [])
    by (intros m Hm; discriminate).
  split; [exact H1 |]. split; [exact H2 |]. split; [exact H3 |]. split; [exact H4 |].
  apply (test_payloads_decrypt sample_engine None (sample_world 1700000000000)
           5666666 H1 H2 H3 H4).
Defined.

(** ** The page: [encryptMessage] *)

Lemma encrypt_throws (this : CryptoEngine) (m : jsstring) (customTimeSeed : option Z)
    (w w' : world) (e : exn) :
  encrypt this m customTimeSeed w = (Throw e, w') ->
  e = Error (lit "Encryption failed: " ++ host_message w InvalidCharacterError).
Proof.
  intros H.
  destruct (encrypt_outcome this m customTimeSeed w) as (t & sd & ks & Heq).
  rewrite H in Heq. cbn [fst] in Heq.
  destruct (btoa _); [discriminate | congruence].
Qed.

Lemma encrypt_not_stuck (this : CryptoEngine) (m : jsstring) (customTimeSeed : option Z)
    (w : world) :
  fst (encrypt this m customTimeSeed w) <> Stuck.
Proof.
  destruct (encrypt_outcome this m customTimeSeed w) as (t & sd & ks & Heq).
  rewrite Heq. destruct (btoa _); discriminate.
Qed.

(** X18.  [encryptMessage] never throws, and ends in one of three states.
    A blank input (empty once trimmed) gives the warning and touches
    neither the clock nor the output.  Otherwise the trimmed input goes to
    [encrypt]: its payload is shown with the status
    ['Encryption Successful'], or, when [encrypt] throws, the status is
    ['Encryption Failed: Encryption failed: '] followed by the message of
    [btoa]'s exception, and the output keeps what it showed before. *)
Theorem encryptMessage_outcomes (crypto : CryptoEngine) (els : elements) (w : world) :
  exists els',
    fst (encryptMessage crypto els w) = Return els'
    /\ ((trim (messageInput_value els) = []
         /\ statusSpan_textContent els' = lit "Please enter a message to encrypt"
         /\ encryptOutputBox_textContent els' = encryptOutputBox_textContent els
         /\ encryptOutputSection_display els' = encryptOutputSection_display els
         /\ snd (encryptMessage crypto els w) = w)
        \/ (exists payload,
              fst (encrypt crypto (trim (messageInput_value els)) None w) = Return payload
              /\ statusSpan_textContent els' = lit "Encryption Successful"
              /\ encryptOutputBox_textContent els' = payload
              /\ encryptOutputSection_display els' = lit "block")
        \/ (fst (encrypt crypto (trim (messageInput_value els)) None w)
            = Throw (Error (lit "Encryption failed: "
                            ++ host_message w InvalidCharacterError))
            /\ statusSpan_textContent els'
               = lit "Encryption Failed: Encryption failed: "
                 ++ host_message w InvalidCharacterError
            /\ encryptOutputBox_textContent els' = encryptOutputBox_textContent els
            /\ encryptOutputSection_display els' = encryptOutputSection_display els)).
Proof.
  unfold encryptMessage. cbv zeta.
  destruct (trim (messageInput_value els)) as [|c rest] eqn:Htrim.
  - eexists. split; [reflexivity |]. left. repeat split.
  - cbn [length Nat.eqb].
    unfold try_catch, bind.
    pose proof (encrypt_not_stuck crypto (c :: rest) None w) as Hstuck.
    destruct (encrypt crypto (c :: rest) None w) as [[payload | e |] w'] eqn:Henc.
    + eexists. split; [reflexivity |]. right. left.
      exists payload. repeat split.
    + apply encrypt_throws in Henc as He. subst e.
      eexists. split; [reflexivity |]. right. right.
      repeat split.
    + exfalso. apply Hstuck. reflexivity.
Qed.

(** X19.  What the page encrypts, the engine decrypts.  For an input
    that is non-empty and Latin-1 once trimmed, with the clock in one
    window (above 3), [encryptMessage] shows a payload that passes
    [isValidEncryptedFormat] and that [decrypt] turns back into the trimmed
    input: the white space around the input is not part of the message. *)
Theorem encryptMessage_round_trip (crypto : CryptoEngine) (els : elements)
    (w : world) (W : Z) :
  timeWindow crypto = 300000 ->
  in_window crypto w W -> 3 < W <= max_window ->
  latin1 (trim (messageInput_value els)) -> trim (messageInput_value els) <> [] ->
  exists els' w',
    encryptMessage crypto els w = (Return els', w')
    /\ statusSpan_textContent els' = lit "Encryption Successful"
    /\ isValidEncryptedFormat (encryptOutputBox_textContent els') = true
    /\ fst (decrypt crypto (encryptOutputBox_textContent els') w')
       = Return (Str (trim (messageInput_value els))).
Proof.
  intros Htw Hw HW Hm Hne.
  assert (Hw0 : in_window crypto w (W - 0)) by (rewrite Z.sub_0_r; exact Hw).
  assert (Hw' : in_window crypto (tick (logged (W - 0) (tick w))) W)
    by (apply in_window_tick, in_window_logged, in_window_tick, Hw).
  destruct (encrypt_then_decrypt crypto (trim (messageInput_value els)) w
              (tick (logged (W - 0) (tick w))) W 0
              Htw Hm Hne ltac:(lia) HW Hw0 Hw' ltac:(intros; lia))
    as (payload & Hrun & Hvalid & Hdec).
  unfold encryptMessage. cbv zeta.
  destruct (trim (messageInput_value els)) as [|c rest] eqn:Htrim; [contradiction |].
  cbn [length Nat.eqb].
  unfold try_catch, bind. rewrite Hrun.
  eexists. eexists. split; [reflexivity |].
  cbn [updateStatus show_encrypted statusSpan_textContent encryptOutputBox_textContent].
  auto.
Qed.

Lemma encryptMessage_round_trip_witness :
  let els := {| messageInput_value := lit "  hello ";
                statusSpan_textContent := lit "NFC Ready";
                pulse_className := lit "pulse";
                pulse_background := lit "#00ff88";
                pulse_boxShadow := lit "0 0 20px #00ff88";
                encryptOutputBox_textContent := [];
                encryptOutputSection_display := lit "none" |} in
  timeWindow sample_engine = 300000
  /\ in_window sample_engine (sample_world 1700000000000) 5666666
  /\ 3 < 5666666 <= max_window
  /\ latin1 (trim (messageInput_value els)) /\ trim (messageInput_value els) <> []
  /\ exists els' w',
       encryptMessage sample_engine els (sample_world 1700000000000) = (Return els', w')
       /\ statusSpan_textContent els' = lit "Encryption Successful"
       /\ isValidEncryptedFormat (encryptOutputBox_textContent els') = true
       /\ fst (decrypt sample_engine (encryptOutputBox_textContent els') w')
          = Return (Str (trim (messageInput_value els))).
Proof.
  intros els.
  assert (H1 : timeWindow sample_engine = 300000) by reflexivity.
  assert (H2 : in_window sample_engine (sample_world 1700000000000) 5666666)
    by (intros k _; reflexivity).
  assert (H3 : 3 < 5666666 <= max_window) by (unfold max_window; lia).
  assert (H4 : latin1 (trim (messageInput_value els))) by (apply (latin1_lit "hello"%string)).
  assert (H5 : trim (messageInput_value els) <> []) by discriminate.
  split; [exact H1 |]. split; [exact H2 |]. split; [exact H3 |].
  split; [exact H4 |]. split; [exact H5 |].
  apply (encryptMessage_round_trip sample_engine els (sample_world 1700000000000)
           5666666 H1 H2 H3 H4 H5).
Defined.

(** ** Payloads made without the master key *)

(** X20.  One payload of a window is enough to make others.  Take the
    payload that [encrypt] returns for any Latin-1 message in window [W],
    and the key read off its first eight bytes ([head_key], no master key
    involved).  The envelope of any non-empty Latin-1 message [m'], with a
    timestamp of window [W], encrypted with [xorCipher] under that key and
    encoded with [btoa], is a payload that [decrypt] accepts in window [W]:
    it returns [m']. *)
Theorem forged_payload_decrypts (this : CryptoEngine) (m m' : jsstring)
    (w w' : world) (W t : Z) :
  timeWindow this = 300000 ->
  in_window this w W -> in_window this w' W -> 3 < W <= max_window ->
  latin1 m -> latin1 m' -> m' <> [] -> t / 300000 = W ->
  exists payload encrypted forged,
    fst (encrypt this m None w) = Return payload
    /\ atob (substring_from 4 payload) = Some encrypted
    /\ btoa (xorCipher (JSON_stringify (envelope m' t W)) (head_key encrypted)) = Some forged
    /\ fst (decrypt this (lit "NFC_" ++ forged) w') = Return (Str m').
Proof.
  intros Htw Hw Hw' HW Hm Hm' Hne Ht.
  set (x := xorCipher (JSON_stringify (envelope m (clock w (S (reads w))) W))
                      (time_key this W)).
  set (y := xorCipher (JSON_stringify (envelope m' t W)) (time_key this W)).
  assert (Hx : latin1 x).
  { apply xorCipher_latin1; [apply stringify_envelope_latin1, Hm | apply simpleHash_latin1]. }
  assert (Hy : latin1 y).
  { apply xorCipher_latin1; [apply stringify_envelope_latin1, Hm' | apply simpleHash_latin1]. }
  assert (Hkey : head_key x = time_key this W) by apply head_key_envelope.
  assert (Hbx : btoa x = Some (btoa_chunks x))
    by (unfold btoa; apply latin1b_true in Hx; rewrite Hx; reflexivity).
  assert (Hby : btoa y = Some (btoa_chunks y))
    by (unfold btoa; apply latin1b_true in Hy; rewrite Hy; reflexivity).
  exists (lit "NFC_" ++ btoa_chunks x), x, (btoa_chunks y).
  split; [rewrite (encrypt_run this m w W Hw ltac:(lia) Hm); reflexivity |].
  split.
  { change (substring_from 4 (lit "NFC_" ++ btoa_chunks x)) with (btoa_chunks x).
    apply atob_btoa, Hbx. }
  split; [rewrite Hkey; exact Hby |].
  assert (Hatob : atob (substring_from 4 (lit "NFC_" ++ btoa_chunks y)) = Some y).
  { change (substring_from 4 (lit "NFC_" ++ btoa_chunks y)) with (btoa_chunks y).
    apply atob_btoa, Hby. }
  rewrite (decrypt_first_valid this (lit "NFC_" ++ btoa_chunks y) y w' W Hw' ltac:(lia)
             eq_refl Hatob).
  apply (first_valid_skips this y [] W [W - 1; W - 2; W - 3] (Str m')).
  - intros z w'' [].
  - intros w'' Hext.
    pose proof (attemptDecrypt_right_key this m' t W 0 (tick w'') Htw Hm' Hne
                  ltac:(lia) HW ltac:(lia)
                  (in_window_tick this w'' W (in_window_extends this w' w'' W Hext Hw')))
      as Hright.
    rewrite Z.sub_0_r in Hright. exact Hright.
Qed.

Lemma forged_payload_decrypts_witness :
  timeWindow sample_engine = 300000
  /\ in_window sample_engine (sample_world 1700000000000) 5666666
  /\ in_window sample_engine (sample_world 1700000050000) 5666666
  /\ 3 < 5666666 <= max_window
  /\ latin1 (lit "hello") /\ latin1 (lit "open the door") /\ lit "open the door" <> []
  /\ 1700000020000 / 300000 = 5666666
  /\ exists payload encrypted forged,
       fst (encrypt sample_engine (lit "hello") None (sample_world 1700000000000))
       = Return payload
       /\ atob (substring_from 4 payload) = Some encrypted
       /\ btoa (xorCipher (JSON_stringify
                             (envelope (lit "open the door") 1700000020000 5666666))
                          (head_key encrypted)) = Some forged
       /\ fst (decrypt sample_engine (lit "NFC_" ++ forged) (sample_world 1700000050000))
          = Return (Str (lit "open the door")).
Proof.
  assert (H1 : timeWindow sample_engine = 300000) by reflexivity.
  assert (H2 : in_window sample_engine (sample_world 1700000000000) 5666666)
    by (intros k _; reflexivity).
  assert (H3 : in_window sample_engine (sample_world 1700000050000) 5666666)
    by (intros k _; reflexivity).
  assert (H4 : 3 < 5666666 <= max_window) by (unfold max_window; lia).
  assert (H5 : latin1 (lit "hello")) by apply latin1_lit.
  assert (H6 : latin1 (lit "open the door")) by apply latin1_lit.
  assert (H7 : lit "open the door" <> []) by discriminate.
  assert (H8 : 1700000020000 / 300000 = 5666666) by reflexivity.
  split; [exact H1 |]. split; [exact H2 |]. split; [exact H3 |]. split; [exact H4 |].
  split; [exact H5 |]. split; [exact H6 |]. split; [exact H7 |]. split; [exact H8 |].
  apply (forged_payload_decrypts sample_engine (lit "hello") (lit "open the door")
           (sample_world 1700000000000) (sample_world 1700000050000)
           5666666 1700000020000 H1 H2 H3 H4 H5 H6 H7 H8).
Defined.
